(** * A shallow embedding of the terminal Pac-Man of [src/main.cpp]

    The development follows the source top to bottom: machine integers,
    the three enumerations, the [player] and [enemy] structs with their
    member functions, the map loader [get_map_str], the per-frame
    [update_map], and finally the body of the [while] loop of [main],
    here called [tick].

    Conventions.
    - [size_t] is a [Z] in [0, 2^64); every [size_t] operation of the
      source is followed by [wrap64].
    - [int] is a [Z] in [-2^31, 2^31); the result of every [int]
      operation goes through [to_int] (two's complement wrap-around).
    - [std::array<std::array<char, width>, height>] is a list of
      [height] rows of [width] characters.  An index outside the array is
      not given a meaning: the access yields the error [OutOfBounds].
    - [std::vector<std::string>] is a list of lists of characters. *)

From Stdlib Require Import ZArith List Ascii String Bool Lia.
Import ListNotations.

#[local] Open Scope char_scope.
#[local] Open Scope Z_scope.

(** ** Machine integers *)

Definition SIZE_MOD : Z := 2 ^ 64.
Definition UINT_MAX : Z := 2 ^ 32 - 1.

Definition wrap64 (z : Z) : Z := z mod SIZE_MOD.

(** [(int) z]: reduction to the signed 32-bit range. *)
Definition to_int (z : Z) : Z := (z + 2 ^ 31) mod 2 ^ 32 - 2 ^ 31.

(** [std::abs] on [int]. *)
Definition abs_int (z : Z) : Z := to_int (Z.abs z).

Definition is_size_t (z : Z) : Prop := 0 <= z < SIZE_MOD.
Definition is_int (z : Z) : Prop := - 2 ^ 31 <= z < 2 ^ 31.

(** A [std::pair<size_t, size_t>]. *)
Definition coord : Type := (Z * Z)%type.

Definition coord_eqb (a b : coord) : bool :=
  (fst a =? fst b) && (snd a =? snd b).

(** ** Results of code that may leave the defined behaviour *)

Inductive error : Type :=
| OutOfBounds   (* an array, vector or string index outside its range *)
| NoMoreDraws   (* the list of random draws handed to the model ran out *)
| FileNotOpen.  (* [std::invalid_argument] thrown by [get_map_str] *)

Inductive result (A : Type) : Type :=
| Ok (a : A)
| Err (e : error).
Arguments Ok {A} a.
Arguments Err {A} e.

Definition bind {A B : Type} (m : result A) (f : A -> result B) : result B :=
  match m with
  | Ok a => f a
  | Err e => Err e
  end.

Notation "x <- m ;; k" := (bind m (fun x => k))
  (at level 61, m at next level, right associativity).
Notation "' p <- m ;; k" := (bind m (fun x => let p := x in k))
  (at level 61, p pattern, m at next level, right associativity).

(** ** Enumerations *)

Inductive DIRECTION : Type := UP | DOWN | LEFT | RIGHT.
Inductive ENEMY_TYPE : Type := BLINKY | PINKY | INKY | CLYDE.
Inductive ENEMY_MODE : Type := SCATTER | NORMAL | FRIGHTENED.

Definition DIRECTION_eqb (a b : DIRECTION) : bool :=
  match a, b with
  | UP, UP | DOWN, DOWN | LEFT, LEFT | RIGHT, RIGHT => true
  | _, _ => false
  end.

Definition ENEMY_MODE_eqb (a b : ENEMY_MODE) : bool :=
  match a, b with
  | SCATTER, SCATTER | NORMAL, NORMAL | FRIGHTENED, FRIGHTENED => true
  | _, _ => false
  end.

(** ** The game map *)

Definition Grid : Type := list (list ascii).

(** A grid is an instance of [std::array<std::array<char, width>, height>]. *)
Definition grid_wf (width height : Z) (g : Grid) : Prop :=
  Z.of_nat (List.length g) = height /\
  Forall (fun row => Z.of_nat (List.length row) = width) g.

(** [v[i]] for a list; the index is compared with the size before the
    element is fetched. *)
Definition index {A : Type} (l : list A) (i : Z) : result A :=
  if (i <? 0) || (Z.of_nat (List.length l) <=? i) then Err OutOfBounds
  else match nth_error l (Z.to_nat i) with
       | Some a => Ok a
       | None => Err OutOfBounds
       end.

Fixpoint replace_nth {A : Type} (l : list A) (n : nat) (a : A) : list A :=
  match l, n with
  | [], _ => []
  | _ :: l', O => a :: l'
  | x :: l', S n' => x :: replace_nth l' n' a
  end.

(** [v[i] = a] for a list. *)
Definition assign {A : Type} (l : list A) (i : Z) (a : A) : result (list A) :=
  if (i <? 0) || (Z.of_nat (List.length l) <=? i) then Err OutOfBounds
  else Ok (replace_nth l (Z.to_nat i) a).

(** Whether [(i, j)] lies inside an array of [height] rows of [width]
    characters. *)
Definition in_array (width height : Z) (at_ : coord) : bool :=
  (0 <=? fst at_) && (fst at_ <? height) && (0 <=? snd at_) && (snd at_ <? width).

(** [g[i][j]] and [g[i][j] = c]. *)
Definition at2 (g : Grid) (i j : Z) : result ascii :=
  row <- index g i ;; index row j.

Definition assign2 (g : Grid) (i j : Z) (c : ascii) : result Grid :=
  row <- index g i ;;
  row' <- assign row j c ;;
  assign g i row'.

(** [std::string(s).find(c) != std::string::npos]. *)
Definition found_in (s : string) (c : ascii) : bool :=
  existsb (Ascii.eqb c) (list_ascii_of_string s).

(** ** struct player *)

Record player : Type := mk_player {
  p_pos : coord;
  p_direction : DIRECTION;
  current_anim_frame : Z;
  score : Z;
  max_score : Z;
  is_over : bool;
  portal_1 : coord;
  portal_2 : coord
}.

(** The member [icons], indexed by [DIRECTION]. *)
Definition icons (d : DIRECTION) : ascii * ascii :=
  match d with
  | UP => ("v", "o")
  | DOWN => ("^", "o")
  | LEFT => (">", "o")
  | RIGHT => ("<", "o")
  end.

Definition player_has_no_collision (c : ascii) : bool :=
  found_in " .@[]BPIC" c.

(** The cell whose content [player::move] inspects. *)
Definition player_probe (p : player) : coord :=
  let '(r, c) := p_pos p in
  match p_direction p with
  | UP => (wrap64 (r - 1), c)
  | DOWN => (wrap64 (r + 1), c)
  | LEFT => (r, wrap64 (c - 1))
  | RIGHT => (r, wrap64 (c + 1))
  end.

Definition set_p_pos (p : player) (x : coord) : player :=
  mk_player x (p_direction p) (current_anim_frame p) (score p) (max_score p)
            (is_over p) (portal_1 p) (portal_2 p).

(** [player::move]: the probed cell is read first, and the position is
    advanced to it when its character does not collide. *)
Definition player_move (game_map : Grid) (p : player) : result player :=
  let '(r, c) := player_probe p in
  ch <- at2 game_map r c ;;
  if player_has_no_collision ch then Ok (set_p_pos p (r, c)) else Ok p.

(** The cell [n] successful steps of [player::move] ahead of the player. *)
Fixpoint tiles_ahead (n : nat) (p : player) : coord :=
  match n with
  | O => p_pos p
  | S n' => player_probe (set_p_pos p (tiles_ahead n' p))
  end.

(** ** struct enemy *)

Record enemy : Type := mk_enemy {
  e_pos : coord;
  icon : ascii;
  moved : bool;
  character : ENEMY_TYPE;
  mode : ENEMY_MODE;
  prev_move : DIRECTION;
  target : coord
}.

Definition set_e_pos (e : enemy) (x : coord) : enemy :=
  mk_enemy x (icon e) (moved e) (character e) (mode e) (prev_move e) (target e).
Definition set_icon (e : enemy) (c : ascii) : enemy :=
  mk_enemy (e_pos e) c (moved e) (character e) (mode e) (prev_move e) (target e).
Definition set_mode (e : enemy) (m : ENEMY_MODE) : enemy :=
  mk_enemy (e_pos e) (icon e) (moved e) (character e) m (prev_move e) (target e).
Definition set_prev_move (e : enemy) (d : DIRECTION) : enemy :=
  mk_enemy (e_pos e) (icon e) (moved e) (character e) (mode e) d (target e).
Definition set_target (e : enemy) (t : coord) : enemy :=
  mk_enemy (e_pos e) (icon e) (moved e) (character e) (mode e) (prev_move e) t.

Definition set_character (e : enemy) (type : ENEMY_TYPE) : enemy :=
  let ic := match type with
            | BLINKY => "B" | PINKY => "P" | INKY => "I" | CLYDE => "C"
            end in
  mk_enemy (e_pos e) ic (moved e) type (mode e) (prev_move e) (target e).

Definition manhattanDistance (p1 p2 : coord) : Z :=
  wrap64 (to_int (abs_int (to_int (to_int (fst p1) - to_int (fst p2)))
                  + abs_int (to_int (to_int (snd p1) - to_int (snd p2))))).

(** [enemy::calculate_target].  In the [NORMAL] case the [CLYDE] label is
    followed at once by [break], so the distance test below it is never
    reached; control then falls from the end of the inner [switch] into
    the empty [FRIGHTENED] case. *)
Definition calculate_target (width height : Z) (pacman : player)
    (blinky : enemy) (e : enemy) : enemy :=
  let '(pr, pc) := p_pos pacman in
  match mode e with
  | SCATTER =>
      match character e with
      | BLINKY => set_target e (1, wrap64 (width - 2))
      | PINKY => set_target e (1, 1)
      | INKY => set_target e (wrap64 (width - 2), wrap64 (height - 2))
      | CLYDE => set_target e (wrap64 (height - 2), 1)
      end
  | NORMAL =>
      match character e with
      | BLINKY => set_target e (p_pos pacman)
      | PINKY =>
          match p_direction pacman with
          | UP => set_target e (wrap64 (pr - 4), wrap64 (pc - 4))
          | LEFT => set_target e (wrap64 (pr - 4), pc)
          | DOWN => set_target e (pr, wrap64 (pc + 4))
          | RIGHT => set_target e (wrap64 (pr + 4), pc)
          end
      | INKY =>
          let init_pos :=
            match p_direction pacman with
            | UP => (wrap64 (pr - 2), wrap64 (pc - 2))
            | DOWN => (pr, wrap64 (pc + 2))
            | LEFT => (wrap64 (pr - 2), pc)
            | RIGHT => (wrap64 (pr + 2), pc)
            end in
          let finale :=
            (wrap64 (abs_int (to_int (to_int (fst (e_pos blinky))
                                      - to_int (fst init_pos)))),
             wrap64 (abs_int (to_int (to_int (snd (e_pos blinky))
                                      - to_int (snd init_pos))))) in
          set_target e (wrap64 (fst init_pos + fst finale),
                        wrap64 (snd init_pos + snd finale))
      | CLYDE => e
      end
  | FRIGHTENED => e
  end.

Definition enemy_has_no_collision (c : ascii) : bool :=
  found_in " .@~<>v^o" c.

(** [x >= 0] is kept although it always holds of a [size_t]. *)
Definition isValidPosition (x y width height : Z) : bool :=
  (0 <=? x) && (x <? width) && (0 <=? y) && (y <? height).

(** The vector [directions] of [enemy::move]; [-1] converted to [size_t]
    is [2^64 - 1]. *)
Definition directions : list coord :=
  [(0, wrap64 (-1)); (0, 1); (wrap64 (-1), 0); (1, 0)].

Definition getDirection (p : coord) : DIRECTION :=
  if coord_eqb p (0, wrap64 (-1)) then UP
  else if coord_eqb p (0, 1) then DOWN
  else if coord_eqb p (1, 0) then RIGHT
  else if coord_eqb p (wrap64 (-1), 0) then LEFT
  else LEFT.

Definition getOppositeDirection (d : DIRECTION) : DIRECTION :=
  match d with
  | LEFT => RIGHT
  | RIGHT => LEFT
  | UP => DOWN
  | DOWN => UP
  end.

(** The three locals the pursuit loop of [enemy::move] updates. *)
Record choice : Type := mk_choice {
  shortestPathLength : Z;
  nextPos : coord;
  new_move : DIRECTION
}.

(** The cell a step along [dir] leads to ([newX], [newY]). *)
Definition destination (e : enemy) (dir : coord) : coord :=
  (wrap64 (fst (e_pos e) + fst dir), wrap64 (snd (e_pos e) + snd dir)).

(** The condition of the [if] in both loops of [enemy::move]; the map is
    read only when [isValidPosition] holds, as [and] short-circuits. *)
Definition may_step (game_map : Grid) (width height : Z) (e : enemy)
    (dir : coord) : result bool :=
  let '(newX, newY) := destination e dir in
  if isValidPosition newX newY width height then
    c <- at2 game_map newX newY ;;
    Ok (enemy_has_no_collision c
        && negb (DIRECTION_eqb (getDirection dir)
                               (getOppositeDirection (prev_move e))))
  else Ok false.

(** One iteration of [for (const auto &dir : directions)]. *)
Definition try_direction (game_map : Grid) (width height : Z) (e : enemy)
    (acc : choice) (dir : coord) : result choice :=
  ok <- may_step game_map width height e dir ;;
  if ok then
    let pathLength := manhattanDistance (destination e dir) (target e) in
    if pathLength <? shortestPathLength acc
    then Ok (mk_choice pathLength (destination e dir) (getDirection dir))
    else Ok acc
  else Ok acc.

Fixpoint scan_directions (game_map : Grid) (width height : Z) (e : enemy)
    (acc : choice) (dirs : list coord) : result choice :=
  match dirs with
  | [] => Ok acc
  | dir :: dirs' =>
      acc' <- try_direction game_map width height e acc dir ;;
      scan_directions game_map width height e acc' dirs'
  end.

(** The [while (!valid_move_found)] loop of the frightened branch.  Each
    iteration consumes one draw of [dis(gen)]; the recursion is on the
    list of draws. *)
Fixpoint wander (game_map : Grid) (width height : Z) (e : enemy)
    (visited : list bool) (draws : list Z)
    : result (coord * DIRECTION * list Z) :=
  match draws with
  | [] => Err NoMoreDraws
  | random_index :: rest =>
      visited' <- assign visited random_index true ;;
      selected_direction <- index directions random_index ;;
      ok <- may_step game_map width height e selected_direction ;;
      if ok then
        Ok (destination e selected_direction,
            getDirection selected_direction, rest)
      else if forallb (fun b => b) visited' then
        Ok (e_pos e, LEFT, rest)
      else wander game_map width height e visited' rest
  end.

(** [enemy::move].  The second component is what is left of the draws. *)
Definition enemy_move (game_map : Grid) (width height : Z) (pacman : player)
    (blinky : enemy) (draws : list Z) (e : enemy) : result (enemy * list Z) :=
  if ENEMY_MODE_eqb (mode e) FRIGHTENED then
    ' (np, nm, rest) <-
       wander game_map width height e [false; false; false; false] draws ;;
    Ok (set_e_pos (set_prev_move e nm) np, rest)
  else
    let e1 := calculate_target width height pacman blinky e in
    c <- scan_directions game_map width height e1
           (mk_choice UINT_MAX (e_pos e1) LEFT) directions ;;
    Ok (set_e_pos (set_prev_move e1 (new_move c)) (nextPos c), draws).

(** Whether an enemy may stand on the cell [at_]; a cell that cannot be
    read counts as blocked. *)
Definition passable_for_enemy (game_map : Grid) (at_ : coord) : bool :=
  match at2 game_map (fst at_) (snd at_) with
  | Ok c => enemy_has_no_collision c
  | Err _ => false
  end.

(** The three conditions under which the pursuit loop takes a step
    along [dir] into account, as one boolean. *)
Definition eligible (game_map : Grid) (width height : Z) (e : enemy)
    (dir : coord) : bool :=
  isValidPosition (fst (destination e dir)) (snd (destination e dir)) width height
  && passable_for_enemy game_map (destination e dir)
  && negb (DIRECTION_eqb (getDirection dir) (getOppositeDirection (prev_move e))).

(** [isValidPosition] compares the first coordinate with [width] and the
    second with [height], while the first coordinate selects one of the
    [height] rows.  [checks_agree] holds when, for the four neighbours of
    the enemy, the test gives the same answer as the bounds of the
    array. *)
Definition checks_agree (width height : Z) (e : enemy) : bool :=
  forallb (fun dir =>
             Bool.eqb (isValidPosition (fst (destination e dir))
                                       (snd (destination e dir)) width height)
                      (in_array width height (destination e dir)))
          directions.

(** The [int] arithmetic of [manhattanDistance] does not overflow for
    any of the four neighbours and the target [t]. *)
Definition distance_fits (e : enemy) (t : coord) : bool :=
  forallb (fun dir =>
             Z.abs (to_int (fst (destination e dir)) - to_int (fst t))
             + Z.abs (to_int (snd (destination e dir)) - to_int (snd t))
             <? 2 ^ 31)
          directions.

(** [dir], the [i]-th entry of [directions], is eligible, no eligible
    entry is closer to [t], and every eligible entry before it is
    farther. *)
Definition first_minimal (game_map : Grid) (width height : Z) (e : enemy)
    (t : coord) (i : nat) (dir : coord) : Prop :=
  nth_error directions i = Some dir
  /\ eligible game_map width height e dir = true
  /\ forall j dir',
      nth_error directions j = Some dir' ->
      eligible game_map width height e dir' = true ->
      manhattanDistance (destination e dir) t
        <= manhattanDistance (destination e dir') t
      /\ ((j < i)%nat ->
          manhattanDistance (destination e dir) t
            < manhattanDistance (destination e dir') t).

(** ** get_map_str *)

(** The set [valid_chars] of [get_map_str]. *)
Definition loader_valid_chars : string := "# *|-~.[]@".

Definition set_max_score (p : player) (m : Z) : player :=
  mk_player (p_pos p) (p_direction p) (current_anim_frame p) (score p) m
            (is_over p) (portal_1 p) (portal_2 p).
Definition set_portal_1 (p : player) (x : coord) : player :=
  mk_player (p_pos p) (p_direction p) (current_anim_frame p) (score p)
            (max_score p) (is_over p) x (portal_2 p).
Definition set_portal_2 (p : player) (x : coord) : player :=
  mk_player (p_pos p) (p_direction p) (current_anim_frame p) (score p)
            (max_score p) (is_over p) (portal_1 p) x.

(** The [if / else if] chain applied to [buff[i]]; [row] is
    [answer.size()]. *)
Definition note_char (row i : Z) (c : ascii) (player_ : player) : player :=
  if Ascii.eqb c "." then set_max_score player_ (to_int (max_score player_ + 10))
  else if Ascii.eqb c "@" then set_max_score player_ (to_int (max_score player_ + 50))
  else if Ascii.eqb c "[" then set_portal_2 player_ (row, i)
  else if Ascii.eqb c "]" then set_portal_1 player_ (row, i)
  else player_.

(** The inner [for] loop over one line [buff], from index [i] on. *)
Fixpoint scan_line (row i : Z) (buff line : list ascii) (player_ : player)
    : list ascii * player :=
  match buff with
  | [] => (line, player_)
  | c :: buff' =>
      let line' := if found_in loader_valid_chars c then line ++ [c] else line in
      scan_line row (i + 1) buff' line' (note_char row i c player_)
  end.

(** The [while (std::getline(map_file, buff))] loop; [lines] is what the
    successive calls of [getline] return. *)
Fixpoint scan_lines (lines answer : list (list ascii)) (player_ : player)
    : list (list ascii) * player :=
  match lines with
  | [] => (answer, player_)
  | buff :: lines' =>
      let '(line, player_') :=
        scan_line (Z.of_nat (List.length answer)) 0 buff [] player_ in
      scan_lines lines' (answer ++ [line]) player_'
  end.

(** [get_map_str]; [map_file] is [None] when the file cannot be opened. *)
Definition get_map_str (map_file : option (list (list ascii)))
    (player_ : player) : result (list (list ascii) * player) :=
  match map_file with
  | None => Err FileNotOpen
  | Some lines => Ok (scan_lines lines [] player_)
  end.

(** ** The state of [main] *)

Definition WIDTH : Z := 32.
Definition HEIGHT : Z := 40.

Record Game : Type := mk_Game {
  game_map : Grid;          (* std::array<std::array<char, HEIGHT>, WIDTH> *)
  pacman : player;
  ghost1 : enemy;
  ghost2 : enemy;
  ghost3 : enemy;
  ghost4 : enemy;
  game_is_running : bool;
  frameCount : Z;
  secs : Z;
  frightened_countdown : Z;
  game_vec : list (list ascii)
}.

Definition set_game_map (s : Game) (g : Grid) : Game :=
  mk_Game g (pacman s) (ghost1 s) (ghost2 s) (ghost3 s) (ghost4 s)
          (game_is_running s) (frameCount s) (secs s) (frightened_countdown s)
          (game_vec s).
Definition set_pacman (s : Game) (p : player) : Game :=
  mk_Game (game_map s) p (ghost1 s) (ghost2 s) (ghost3 s) (ghost4 s)
          (game_is_running s) (frameCount s) (secs s) (frightened_countdown s)
          (game_vec s).
Definition set_ghosts (s : Game) (a b c d : enemy) : Game :=
  mk_Game (game_map s) (pacman s) a b c d
          (game_is_running s) (frameCount s) (secs s) (frightened_countdown s)
          (game_vec s).
Definition set_game_is_running (s : Game) (b : bool) : Game :=
  mk_Game (game_map s) (pacman s) (ghost1 s) (ghost2 s) (ghost3 s) (ghost4 s)
          b (frameCount s) (secs s) (frightened_countdown s) (game_vec s).
Definition set_frameCount (s : Game) (n : Z) : Game :=
  mk_Game (game_map s) (pacman s) (ghost1 s) (ghost2 s) (ghost3 s) (ghost4 s)
          (game_is_running s) n (secs s) (frightened_countdown s) (game_vec s).
Definition set_secs (s : Game) (n : Z) : Game :=
  mk_Game (game_map s) (pacman s) (ghost1 s) (ghost2 s) (ghost3 s) (ghost4 s)
          (game_is_running s) (frameCount s) n (frightened_countdown s)
          (game_vec s).
Definition set_frightened_countdown (s : Game) (n : Z) : Game :=
  mk_Game (game_map s) (pacman s) (ghost1 s) (ghost2 s) (ghost3 s) (ghost4 s)
          (game_is_running s) (frameCount s) (secs s) n (game_vec s).
Definition set_game_vec (s : Game) (v : list (list ascii)) : Game :=
  mk_Game (game_map s) (pacman s) (ghost1 s) (ghost2 s) (ghost3 s) (ghost4 s)
          (game_is_running s) (frameCount s) (secs s) (frightened_countdown s) v.

Definition set_score (p : player) (n : Z) : player :=
  mk_player (p_pos p) (p_direction p) (current_anim_frame p) n (max_score p)
            (is_over p) (portal_1 p) (portal_2 p).
Definition set_is_over (p : player) (b : bool) : player :=
  mk_player (p_pos p) (p_direction p) (current_anim_frame p) (score p)
            (max_score p) b (portal_1 p) (portal_2 p).
Definition set_p_direction (p : player) (d : DIRECTION) : player :=
  mk_player (p_pos p) d (current_anim_frame p) (score p) (max_score p)
            (is_over p) (portal_1 p) (portal_2 p).
Definition set_current_anim_frame (p : player) (n : Z) : player :=
  mk_player (p_pos p) (p_direction p) n (score p) (max_score p)
            (is_over p) (portal_1 p) (portal_2 p).

(** ** update_map *)

(** First loop nest: every cell becomes a blank. *)
Definition blank_map (g : Grid) : Grid :=
  map (map (fun _ => " ")) g.

(** [for (j = 0; j < game_map[i].size() and j < game_vec[i].size(); j++)
    game_map[i][j] = game_vec[i][j]] on one row. *)
Fixpoint overlay_row (line row : list ascii) : list ascii :=
  match line, row with
  | c :: line', _ :: row' => c :: overlay_row line' row'
  | _, _ => row
  end.

(** The outer loop runs over [game_vec.size()] with no test against the
    number of rows of [game_map]: a line without a row is an access
    outside the array. *)
Fixpoint overlay (vec : list (list ascii)) (g : Grid) : result Grid :=
  match vec, g with
  | [], _ => Ok g
  | line :: vec', row :: g' =>
      g'' <- overlay vec' g' ;; Ok (overlay_row line row :: g'')
  | _ :: _, [] => Err OutOfBounds
  end.

(** Lines 499-514: pellet, power pellet, or one of the two portals. *)
Definition eat_or_teleport (s : Game) : result Game :=
  let player_ := pacman s in
  let '(r, c) := p_pos player_ in
  ch <- at2 (game_map s) r c ;;
  if Ascii.eqb ch "." then
    vec <- assign2 (game_vec s) r c " " ;;
    Ok (set_pacman (set_game_vec s vec)
          (set_score player_ (to_int (score player_ + 10))))
  else if Ascii.eqb ch "@" then
    vec <- assign2 (game_vec s) r c " " ;;
    Ok (set_frightened_countdown
          (set_pacman (set_game_vec s vec)
             (set_score player_ (to_int (score player_ + 50))))
          10)
  else if (r =? fst (portal_1 player_)) && (c =? snd (portal_1 player_)) then
    Ok (set_pacman s
          (set_p_pos player_
             (fst (portal_2 player_), wrap64 (snd (portal_2 player_) + 1))))
  else if (r =? fst (portal_2 player_)) && (c =? snd (portal_2 player_)) then
    Ok (set_pacman s
          (set_p_pos player_
             (fst (portal_1 player_), wrap64 (snd (portal_1 player_) - 1))))
  else Ok s.

Definition player_glyph (p : player) : ascii :=
  if current_anim_frame p <? 3
  then fst (icons (p_direction p))
  else snd (icons (p_direction p)).

(** Lines 516-524: the five sprites are written into the map. *)
Definition draw_actors (s : Game) : result Game :=
  let put (g : Grid) (at_ : coord) (c : ascii) := assign2 g (fst at_) (snd at_) c in
  m0 <- put (game_map s) (p_pos (pacman s)) (player_glyph (pacman s)) ;;
  m1 <- put m0 (e_pos (ghost1 s)) (icon (ghost1 s)) ;;
  m2 <- put m1 (e_pos (ghost2 s)) (icon (ghost2 s)) ;;
  m3 <- put m2 (e_pos (ghost3 s)) (icon (ghost3 s)) ;;
  m4 <- put m3 (e_pos (ghost4 s)) (icon (ghost4 s)) ;;
  Ok (set_game_map s m4).

Definition catches (g : enemy) (p : player) : bool :=
  coord_eqb (e_pos g) (p_pos p) && negb (ENEMY_MODE_eqb (mode g) FRIGHTENED).

Definition is_eaten (g : enemy) (p : player) : bool :=
  coord_eqb (e_pos g) (p_pos p) && ENEMY_MODE_eqb (mode g) FRIGHTENED.

(** Lines 526-551.  The four [if]s run in sequence, each on the state
    the previous one left; the second one writes [g4.mode]. *)
Definition resolve_collisions (p : player) (g1 g2 g3 g4 : enemy)
    : player * (enemy * enemy * enemy * enemy) :=
  let p' := if catches g1 p || catches g2 p || catches g3 p || catches g4 p
            then set_is_over p true else p in
  let g1a := if is_eaten g1 p'
             then set_mode (set_character (set_e_pos g1 (8, 16)) BLINKY) NORMAL
             else g1 in
  let '(g2a, g4a) :=
    if is_eaten g2 p'
    then (set_character (set_e_pos g2 (8, 16)) PINKY, set_mode g4 NORMAL)
    else (g2, g4) in
  let g3a := if is_eaten g3 p'
             then set_mode (set_character (set_e_pos g3 (8, 16)) INKY) NORMAL
             else g3 in
  let g4b := if is_eaten g4a p'
             then set_mode (set_character (set_e_pos g4a (8, 16)) CLYDE) NORMAL
             else g4a in
  (p', (g1a, g2a, g3a, g4b)).

Definition collide (s : Game) : Game :=
  let '(p, (a, b, c, d)) :=
    resolve_collisions (pacman s) (ghost1 s) (ghost2 s) (ghost3 s) (ghost4 s) in
  set_ghosts (set_pacman s p) a b c d.

Definition update_map (s : Game) : result Game :=
  m <- overlay (game_vec s) (blank_map (game_map s)) ;;
  s1 <- eat_or_teleport (set_game_map s m) ;;
  s2 <- draw_actors s1 ;;
  Ok (collide s2).

(** ** main *)

Definition map_ghosts (f : enemy -> enemy) (s : Game) : Game :=
  set_ghosts s (f (ghost1 s)) (f (ghost2 s)) (f (ghost3 s)) (f (ghost4 s)).

(** The four [set_character] calls that give the glyphs back. *)
Definition restore_icons (s : Game) : Game :=
  set_ghosts s (set_character (ghost1 s) BLINKY) (set_character (ghost2 s) PINKY)
               (set_character (ghost3 s) INKY) (set_character (ghost4 s) CLYDE).

(** Lines 591-615: the frame counter, the end of the scatter period and
    the forcing of the frightened mode. *)
Definition begin_frame (s : Game) : Game :=
  let s1 := set_frameCount s (to_int (frameCount s + 1)) in
  let s2 := if secs s1 =? 7 then map_ghosts (fun g => set_mode g NORMAL) s1
            else s1 in
  if negb (frightened_countdown s2 =? 0)
  then map_ghosts (fun g => set_icon (set_mode g FRIGHTENED) "X") s2
  else s2.

(** [if (kbhit()) { key = getchar(); if (key == 'q') ... }]; [key] is
    [None] when [kbhit] reports no pending character. *)
Definition quit_on_q (key : option ascii) (s : Game) : Game :=
  match key with
  | Some k => if Ascii.eqb k "q" then set_game_is_running s false else s
  | None => s
  end.

Definition steer (k : ascii) (s : Game) : Game :=
  if Ascii.eqb k "W" || Ascii.eqb k "w"
  then set_pacman s (set_p_direction (pacman s) UP)
  else if Ascii.eqb k "S" || Ascii.eqb k "s"
  then set_pacman s (set_p_direction (pacman s) DOWN)
  else if Ascii.eqb k "A" || Ascii.eqb k "a"
  then set_pacman s (set_p_direction (pacman s) LEFT)
  else if Ascii.eqb k "D" || Ascii.eqb k "d"
  then set_pacman s (set_p_direction (pacman s) RIGHT)
  else if Ascii.eqb k "q" then set_game_is_running s false
  else s.

(** Lines 617-660. *)
Definition poll_input (key : option ascii) (s : Game) : Game :=
  if score (pacman s) =? max_score (pacman s) then quit_on_q key s
  else if is_over (pacman s) then quit_on_q key s
  else match key with
       | Some k => steer k s
       | None => s
       end.

(** Lines 662-664. *)
Definition wrap_frame (s : Game) : Game :=
  if frameCount s =? 60 then set_frameCount s 0 else s.

(** The state in which the test [frameCount % 10 == 0] is made. *)
Definition before_moves (key : option ascii) (s : Game) : Game :=
  wrap_frame (poll_input key (begin_frame s)).

(** Lines 667-675.  [game_map] has type
    [std::array<std::array<char, HEIGHT>, WIDTH>], so the template
    parameters of both [move]s are deduced as [width = HEIGHT] and
    [height = WIDTH]. *)
Definition move_actors (draws : list Z) (s : Game) : result (Game * list Z) :=
  p <- player_move (game_map s) (pacman s) ;;
  let p1 := set_current_anim_frame p (to_int (current_anim_frame p + 1)) in
  let p2 := if current_anim_frame p1 =? 5 then set_current_anim_frame p1 1
            else p1 in
  ' (a, d1) <- enemy_move (game_map s) HEIGHT WIDTH p2 (ghost1 s) draws (ghost1 s) ;;
  ' (b, d2) <- enemy_move (game_map s) HEIGHT WIDTH p2 a d1 (ghost2 s) ;;
  ' (c, d3) <- enemy_move (game_map s) HEIGHT WIDTH p2 a d2 (ghost3 s) ;;
  ' (d, d4) <- enemy_move (game_map s) HEIGHT WIDTH p2 a d3 (ghost4 s) ;;
  Ok (set_ghosts (set_pacman s p2) a b c d, d4).

(** Lines 676-703. *)
Definition advance_timers (s : Game) : Game :=
  if (frameCount s =? 0) && negb (secs s =? 7) then
    let s1 := set_frameCount (set_secs s (to_int (secs s + 1))) 0 in
    if negb (frightened_countdown s1 =? 0) then
      let s2 := set_frightened_countdown s1
                  (to_int (frightened_countdown s1 - 1)) in
      if frightened_countdown s2 =? 0
      then map_ghosts (fun g => set_mode g NORMAL) (restore_icons s2)
      else s2
    else s1
  else if ((frameCount s =? 0) || (frameCount s =? 60))
          && negb (frightened_countdown s =? 0) then
    let s2 := set_frightened_countdown s
                (to_int (frightened_countdown s - 1)) in
    if frightened_countdown s2 =? 0 then restore_icons s2 else s2
  else s.

(** Lines 666-704. *)
Definition every_tenth_frame (draws : list Z) (s : Game)
    : result (Game * list Z) :=
  if Z.rem (frameCount s) 10 =? 0 then
    ' (m, d) <- move_actors draws s ;; Ok (advance_timers m, d)
  else Ok (s, draws).

(** One iteration of [while (game_is_running)], without sleeping and
    printing.  [key] is the pending keystroke, [draws] the values the
    random engine will deliver. *)
Definition tick (key : option ascii) (draws : list Z) (s : Game)
    : result (Game * list Z) :=
  ' (s2, draws') <- every_tenth_frame draws (before_moves key s) ;;
  s3 <- update_map s2 ;;
  Ok (s3, draws').

(** The loop itself, over the keystrokes of the successive frames. *)
Fixpoint run (keys : list (option ascii)) (draws : list Z) (s : Game)
    : result (Game * list Z) :=
  match keys with
  | [] => Ok (s, draws)
  | key :: keys' =>
      if game_is_running s then
        ' (s', draws') <- tick key draws s ;; run keys' draws' s'
      else Ok (s, draws)
  end.

(** The actors as [main] creates them (lines 560-568); members without
    an initializer are zero. *)
Definition initial_pacman : player :=
  mk_player (WIDTH / 2, HEIGHT / 2) UP 1 0 0 false (0, 0) (0, 0).

Definition spawn (t : ENEMY_TYPE) : coord :=
  match t with
  | BLINKY => (8, 16)
  | PINKY => (10, 14)
  | INKY => (10, 15)
  | CLYDE => (10, 16)
  end.

Definition initial_ghost (t : ENEMY_TYPE) : enemy :=
  set_character (mk_enemy (spawn t) zero false BLINKY SCATTER UP (0, 0)) t.

(** The state at the first test of [game_is_running]; the content of
    [game_map] is whatever the uninitialised array holds. *)
Definition initial_game (map_file : option (list (list ascii)))
    (uninitialised : Grid) : result Game :=
  ' (vec, p) <- get_map_str map_file initial_pacman ;;
  Ok (mk_Game uninitialised p (initial_ghost BLINKY) (initial_ghost PINKY)
              (initial_ghost INKY) (initial_ghost CLYDE) true 0 0 0 vec).

(** ** Vocabulary of the statements *)

(** A map in which every cell is a blank, except the cells listed in
    [walls]. *)
Definition map_with_walls (walls : list coord) : Grid :=
  map (fun r =>
         map (fun c => if existsb (coord_eqb (Z.of_nat r, Z.of_nat c)) walls
                       then "#" else " ")
             (seq 0 (Z.to_nat HEIGHT)))
      (seq 0 (Z.to_nat WIDTH)).

(** Number of occurrences of [c] in one line. *)
Definition count_in (c : ascii) (buff : list ascii) : Z :=
  Z.of_nat (count_occ ascii_dec buff c).

(** Number of occurrences of [c] in the lines [vec]. *)
Definition occurrences (c : ascii) (vec : list (list ascii)) : Z :=
  Z.of_nat (count_occ ascii_dec (List.concat vec) c).

(** Points still lying in the persistent layer. *)
Definition points_left (vec : list (list ascii)) : Z :=
  10 * occurrences "." vec + 50 * occurrences "@" vec.

(** Index of the last [c] in [buff], whose first character has index
    [i]. *)
Fixpoint last_in_line (c : ascii) (i : Z) (buff : list ascii) : option Z :=
  match buff with
  | [] => None
  | x :: buff' =>
      match last_in_line c (i + 1) buff' with
      | Some k => Some k
      | None => if Ascii.eqb x c then Some i else None
      end
  end.

(** Row and index of the last [c] in [lines], whose first line is row
    [row]. *)
Fixpoint last_in_file (c : ascii) (row : Z) (lines : list (list ascii))
    : option coord :=
  match lines with
  | [] => None
  | buff :: lines' =>
      match last_in_file c (row + 1) lines' with
      | Some at_ => Some at_
      | None => option_map (fun i => (row, i)) (last_in_line c 0 buff)
      end
  end.

(** Index of the first [c] in [buff]. *)
Fixpoint first_in_line (c : ascii) (i : Z) (buff : list ascii) : option Z :=
  match buff with
  | [] => None
  | x :: buff' => if Ascii.eqb x c then Some i else first_in_line c (i + 1) buff'
  end.

Definition or_else {A : Type} (o : option A) (a : A) : A :=
  match o with
  | Some x => x
  | None => a
  end.

(** Whether the persistent layer [vec] holds a pellet or a power pellet
    on the cell [at_]. *)
Definition holds_pellet (vec : list (list ascii)) (at_ : coord) : bool :=
  match at2 vec (fst at_) (snd at_) with
  | Ok ch => Ascii.eqb ch "." || Ascii.eqb ch "@"
  | Err _ => false
  end.

Definition pellet_under_player (s : Game) : bool :=
  holds_pellet (game_vec s) (p_pos (pacman s)).

(** Pellets and power pellets that have left the persistent layer
    between the states [s0] and [s]. *)
Definition pellets_eaten (s0 s : Game) : Z :=
  occurrences "." (game_vec s0) - occurrences "." (game_vec s).
Definition power_pellets_eaten (s0 s : Game) : Z :=
  occurrences "@" (game_vec s0) - occurrences "@" (game_vec s).

(** The four enemies of a state. *)
Definition ghosts (s : Game) : list enemy :=
  [ghost1 s; ghost2 s; ghost3 s; ghost4 s].

Definition own_icons (s : Game) : Prop :=
  map icon (ghosts s) = ["B"; "P"; "I"; "C"].

Definition all_normal (s : Game) : Prop :=
  map mode (ghosts s) = [NORMAL; NORMAL; NORMAL; NORMAL].

Definition all_frightened (s : Game) : Prop :=
  map mode (ghosts s) = [FRIGHTENED; FRIGHTENED; FRIGHTENED; FRIGHTENED]
  /\ map icon (ghosts s) = ["X"; "X"; "X"; "X"].

(** The player after one step of [player::move] in direction [d] that
    is not blocked. *)
Definition stepped (d : DIRECTION) (s : Game) : Game :=
  set_pacman s (set_p_pos (pacman s)
                          (player_probe (set_p_direction (pacman s) d))).

(** The state of a game on the map given by [lines], at the first test
    of the loop, with an array of blanks and the player put on [at_]. *)
Definition game_on (lines : list string) (at_ : coord) : Game :=
  let blank := repeat (repeat " " (Z.to_nat HEIGHT)) (Z.to_nat WIDTH) in
  match initial_game (Some (map list_ascii_of_string lines)) blank with
  | Ok s => set_pacman s (set_p_pos (pacman s) at_)
  | Err _ => mk_Game blank initial_pacman (initial_ghost BLINKY)
                     (initial_ghost PINKY) (initial_ghost INKY)
                     (initial_ghost CLYDE) true 0 0 0 []
  end.

(** The state after [update_map], or the state itself when [update_map]
    leaves the defined behaviour. *)
Definition after_update_map (s : Game) : Game :=
  match update_map s with
  | Ok s' => s'
  | Err _ => s
  end.

(** The state and the remaining draws after one iteration of the loop,
    or the arguments themselves when the iteration leaves the defined
    behaviour. *)
Definition after_tick (key : option ascii) (draws : list Z) (s : Game)
    : Game * list Z :=
  match tick key draws s with
  | Ok r => r
  | Err _ => (s, draws)
  end.

Definition after_run (keys : list (option ascii)) (draws : list Z) (s : Game)
    : Game * list Z :=
  match run keys draws s with
  | Ok r => r
  | Err _ => (s, draws)
  end.

(** A frightened ghost 1 on the cell [at_], with the countdown at [n]. *)
Definition with_scared_ghost1 (at_ : coord) (n : Z) (s : Game) : Game :=
  set_frightened_countdown
    (set_ghosts s (set_e_pos (set_icon (set_mode (ghost1 s) FRIGHTENED) "X") at_)
                (ghost2 s) (ghost3 s) (ghost4 s))
    n.

(** The state of a game on an empty map in which [frameCount] is [f],
    [secs] is [t] and the countdown is [n]. *)
Definition game_at_frame (f t n : Z) : Game :=
  set_frightened_countdown
    (set_secs (set_frameCount (game_on [] (WIDTH / 2, HEIGHT / 2)) f) t) n.

(** [grid_wf] as a test. *)
Definition grid_wfb (width height : Z) (g : Grid) : bool :=
  (Z.of_nat (List.length g) =? height)
  && forallb (fun row => Z.of_nat (List.length row) =? width) g.

(** Everything [update_map] indexes lies inside its container: the map
    has the declared size, the persistent layer has no more lines than
    the map has rows, and the player, the two exits of the tunnel and
    the four enemies are on cells of the map. *)
Definition update_in_bounds (width height : Z) (s : Game) : bool :=
  grid_wfb width height (game_map s)
  && (Z.of_nat (List.length (game_vec s)) <=? height)
  && in_array width height (p_pos (pacman s))
  && in_array width height (fst (portal_2 (pacman s)),
                            wrap64 (snd (portal_2 (pacman s)) + 1))
  && in_array width height (fst (portal_1 (pacman s)),
                            wrap64 (snd (portal_1 (pacman s)) - 1))
  && forallb (fun g => in_array width height (e_pos g)) (ghosts s).

(** ** Proof automation *)

(** Case analysis on the comparison of a character with a literal. *)
Ltac case_char c lit :=
  destruct (Ascii.eqb_spec c lit); [subst c |].

(** Inversion of a sequencing that ended well. *)
Ltac bind_inv H :=
  match type of H with
  | bind ?m _ = Ok _ =>
      let E := fresh "E" in
      destruct m eqn:E; cbn [bind] in H; [| discriminate H]
  end.

(** Case analysis on every test of the goal. *)
Ltac split_ifs :=
  repeat match goal with
         | |- context [if ?b then _ else _] => destruct b eqn:?
         end.

(** The value of a result, or [a] for an error. *)
Definition value_or {A : Type} (r : result A) (a : A) : A :=
  match r with
  | Ok x => x
  | Err _ => a
  end.

Definition all_scatter (s : Game) : Prop :=
  map mode (ghosts s) = [SCATTER; SCATTER; SCATTER; SCATTER].

(** What the persistent layer [vec] shows on the cell [at_]: its
    character there, or a blank where it has none. *)
Definition layer_char (vec : list (list ascii)) (at_ : coord) : ascii :=
  match at2 vec (fst at_) (snd at_) with
  | Ok ch => ch
  | Err _ => " "
  end.

(** Every draw is one of the indices 0 to 3 of [directions], as
    [std::uniform_int_distribution<>(0, 3)] delivers them. *)
Definition draws_in_range (draws : list Z) : bool :=
  forallb (fun r => (0 <=? r) && (r <? 4)) draws.

(** Every index of [directions] occurs among the draws. *)
Definition draws_cover (draws : list Z) : bool :=
  forallb (fun i => existsb (Z.eqb i) draws) [0; 1; 2; 3].

(** No keystroke of the list is [q]. *)
Definition no_quit (keys : list (option ascii)) : bool :=
  forallb (fun key => match key with
                      | Some k => negb (Ascii.eqb k "q")
                      | None => true
                      end) keys.

(** The game is in the state in which [main] prints the win or the loss
    message instead of reading a direction. *)
Definition won_or_lost (s : Game) : bool :=
  (score (pacman s) =? max_score (pacman s)) || is_over (pacman s).

(** All characters of all lines are in the loader's set. *)
Definition clean_file (lines : list (list ascii)) : bool :=
  forallb (forallb (found_in loader_valid_chars)) lines.

(** What [update_map] leaves on the cell [cell] of the map, read off the
    order of its assignments: the glyph of the last enemy written
    there, else the player's glyph, else the persistent layer as it was
    when [update_map] began.  [s] is the state before, [s'] the state
    after. *)
Definition shown (s s' : Game) (cell : coord) : ascii :=
  if coord_eqb cell (e_pos (ghost4 s)) then icon (ghost4 s)
  else if coord_eqb cell (e_pos (ghost3 s)) then icon (ghost3 s)
  else if coord_eqb cell (e_pos (ghost2 s)) then icon (ghost2 s)
  else if coord_eqb cell (e_pos (ghost1 s)) then icon (ghost1 s)
  else if coord_eqb cell (p_pos (pacman s')) then player_glyph (pacman s')
  else layer_char (game_vec s) cell.

(** How a mode can change in one step of the loop: it stays, or it
    becomes [NORMAL] or [FRIGHTENED]. *)
Definition mode_step (m' m : ENEMY_MODE) : Prop :=
  m' = m \/ m' = NORMAL \/ m' = FRIGHTENED.

Definition modes_step (s' s : Game) : Prop :=
  mode_step (mode (ghost1 s')) (mode (ghost1 s))
  /\ mode_step (mode (ghost2 s')) (mode (ghost2 s))
  /\ mode_step (mode (ghost3 s')) (mode (ghost3 s))
  /\ mode_step (mode (ghost4 s')) (mode (ghost4 s)).

(** The state of a game whose map file is all blanks except for walls on
    the cells [walls], at the first test of the loop. *)
Definition game_with_walls (walls : list coord) : Game :=
  let blank := repeat (repeat " " (Z.to_nat HEIGHT)) (Z.to_nat WIDTH) in
  value_or (initial_game (Some (map_with_walls walls)) blank)
           (game_on [] (WIDTH / 2, HEIGHT / 2)).

(** Walls that shut in the player and the four enemies of [main] on
    their start cells. *)
Definition cages : list coord :=
  [(7, 16); (8, 15); (8, 17); (9, 14); (9, 15); (9, 16);
   (10, 13); (10, 17); (11, 14); (11, 15); (11, 16);
   (15, 20); (17, 20); (16, 19); (16, 21)].

(** Whether the persistent layer [vec] holds the character [ch] on the
    cell [at_]. *)
Definition holds (ch : ascii) (vec : list (list ascii)) (at_ : coord) : bool :=
  match at2 vec (fst at_) (snd at_) with
  | Ok x => Ascii.eqb x ch
  | Err _ => false
  end.

(** The cell the player stands on when the iteration that starts in [s]
    calls [update_map]: the position after the moves of that iteration,
    the one whose character lines 499-505 test. *)
Definition cell_at_update (key : option ascii) (draws : list Z) (s : Game)
    : coord :=
  match every_tenth_frame draws (before_moves key s) with
  | Ok (s2, _) => p_pos (pacman s2)
  | Err _ => p_pos (pacman s)
  end.

(** The cells the player stands on at the successive calls of
    [update_map] of a run of the loop. *)
Fixpoint visited (keys : list (option ascii)) (draws : list Z) (s : Game)
    : list coord :=
  match keys with
  | [] => []
  | key :: keys' =>
      if game_is_running s then
        match tick key draws s with
        | Ok (s', draws') =>
            cell_at_update key draws s :: visited keys' draws' s'
        | Err _ => []
        end
      else []
  end.

(** [cells] without repetitions. *)
Fixpoint distinct (cells : list coord) : list coord :=
  match cells with
  | [] => []
  | c :: cells' =>
      if existsb (coord_eqb c) cells' then distinct cells'
      else c :: distinct cells'
  end.

(** Number of different cells among [cells] on which the layer [vec]
    holds the character [ch]. *)
Definition cells_holding (ch : ascii) (vec : list (list ascii))
    (cells : list coord) : Z :=
  Z.of_nat (List.length (filter (holds ch vec) (distinct cells))).

(* ================================================================== *)
(** * Properties *)

Lemma DIRECTION_eqb_eq a b : DIRECTION_eqb a b = true <-> a = b.
Proof. destruct a, b; simpl; split; congruence. Qed.

Lemma ENEMY_MODE_eqb_eq a b : ENEMY_MODE_eqb a b = true <-> a = b.
Proof. destruct a, b; simpl; split; congruence. Qed.

Lemma coord_eqb_eq a b : coord_eqb a b = true <-> a = b.
Proof.
  destruct a as [a1 a2], b as [b1 b2]; unfold coord_eqb; simpl.
  rewrite andb_true_iff, !Z.eqb_eq. split.
  - intros [-> ->]; reflexivity.
  - intros H; injection H; auto.
Qed.


(** ** Chase targets *)

Lemma calculate_target_clyde_normal width height pacman blinky e :
  mode e = NORMAL -> character e = CLYDE ->
  calculate_target width height pacman blinky e = e.
Proof.
  intros Hm Hc. unfold calculate_target.
  destruct (p_pos pacman). rewrite Hm, Hc. reflexivity.
Qed.

(** C2.  Clyde on his start cell, the player on the start cell, ten tiles
    away.  The scatter period leaves Clyde's target on his corner
    (30, 1); once in [NORMAL] mode [calculate_target] does not touch it,
    so the target is the corner although the distance exceeds 8, where
    the claim (and the comment in the source) ask for the player's
    cell. *)
Theorem clyde_chase_target_is_never_computed :
  let scattering := calculate_target HEIGHT WIDTH initial_pacman
                      (initial_ghost BLINKY) (initial_ghost CLYDE) in
  let clyde := set_mode scattering NORMAL in
  let clyde' := calculate_target HEIGHT WIDTH initial_pacman
                                 (initial_ghost BLINKY) clyde in
  manhattanDistance (e_pos clyde) (p_pos initial_pacman) = 10
  /\ p_pos initial_pacman = (16, 20)
  /\ target clyde' = (30, 1)
  /\ target clyde' <> p_pos initial_pacman.
Proof.
  vm_compute. repeat split; congruence.
Qed.

Lemma calculate_target_pinky_normal width height pacman blinky e :
  mode e = NORMAL -> character e = PINKY ->
  target (calculate_target width height pacman blinky e) =
  let '(pr, pc) := p_pos pacman in
  match p_direction pacman with
  | UP => (wrap64 (pr - 4), wrap64 (pc - 4))
  | LEFT => (wrap64 (pr - 4), pc)
  | DOWN => (pr, wrap64 (pc + 4))
  | RIGHT => (wrap64 (pr + 4), pc)
  end.
Proof.
  intros Hm Hc. unfold calculate_target.
  destruct (p_pos pacman). rewrite Hm, Hc.
  destruct (p_direction pacman); reflexivity.
Qed.

(** C3.  The player on the start cell (16, 20).  Facing left, four steps
    of [player::move] lead to (16, 16), but Pinky's target is (12, 20),
    the cell four steps ahead of a player facing up.  Likewise the target
    for a player facing down is the cell four steps to the right, and for
    a player facing right the cell four steps down. *)
Theorem pinky_target_is_not_ahead_of_the_player :
  let pinky := set_mode (initial_ghost PINKY) NORMAL in
  let facing d := set_p_direction initial_pacman d in
  let aim d := target (calculate_target HEIGHT WIDTH (facing d)
                                        (initial_ghost BLINKY) pinky) in
  tiles_ahead 4 (facing LEFT) = (16, 16)
  /\ aim LEFT = (12, 20) /\ aim LEFT = tiles_ahead 4 (facing UP)
  /\ tiles_ahead 4 (facing DOWN) = (20, 20)
  /\ aim DOWN = (16, 24) /\ aim DOWN = tiles_ahead 4 (facing RIGHT)
  /\ tiles_ahead 4 (facing RIGHT) = (16, 24)
  /\ aim RIGHT = (20, 20) /\ aim RIGHT = tiles_ahead 4 (facing DOWN)
  /\ aim UP = (12, 16).
Proof.
  vm_compute. repeat split.
Qed.

(** The same targets read with the table [directions] of [enemy::move],
    in which the step called [LEFT] changes the first coordinate: there
    the target for [LEFT], [DOWN] and [RIGHT] is four steps along the
    entry of that name. *)
Lemma pinky_target_in_the_table_of_the_enemy :
  let pinky := set_mode (initial_ghost PINKY) NORMAL in
  let facing d := set_p_direction initial_pacman d in
  let aim d := target (calculate_target HEIGHT WIDTH (facing d)
                                        (initial_ghost BLINKY) pinky) in
  let along v := (wrap64 (16 + 4 * fst v), wrap64 (20 + 4 * snd v)) in
  forallb (fun v => coord_eqb (aim (getDirection v)) (along v))
          [(0, 1); (wrap64 (-1), 0); (1, 0)] = true
  /\ map getDirection [(0, 1); (wrap64 (-1), 0); (1, 0)] = [DOWN; LEFT; RIGHT].
Proof.
  vm_compute. split; reflexivity.
Qed.

(** ** The player's probe *)

Lemma index_out_of_bounds {A : Type} (l : list A) (i : Z) :
  Z.of_nat (List.length l) <= i -> index l i = Err OutOfBounds.
Proof.
  intros H. unfold index.
  destruct (Z.leb_spec (Z.of_nat (List.length l)) i); [| lia].
  rewrite orb_true_r. reflexivity.
Qed.

Lemma player_move_up_from_row_0 game_map p c :
  p_pos p = (0, c) -> p_direction p = UP ->
  Z.of_nat (List.length game_map) < SIZE_MOD ->
  player_probe p = (SIZE_MOD - 1, c)
  /\ player_move game_map p = Err OutOfBounds.
Proof.
  intros Hp Hd Hlen.
  assert (E : player_probe p = (SIZE_MOD - 1, c)).
  { unfold player_probe. rewrite Hp, Hd. reflexivity. }
  split; [exact E |].
  unfold player_move. rewrite E. unfold at2.
  rewrite index_out_of_bounds by lia. reflexivity.
Qed.

Lemma player_move_left_from_column_0 game_map p r :
  p_pos p = (r, 0) -> p_direction p = LEFT ->
  Forall (fun row => Z.of_nat (List.length row) < SIZE_MOD) game_map ->
  player_probe p = (r, SIZE_MOD - 1)
  /\ player_move game_map p = Err OutOfBounds.
Proof.
  intros Hp Hd Hrows.
  assert (E : player_probe p = (r, SIZE_MOD - 1)).
  { unfold player_probe. rewrite Hp, Hd. reflexivity. }
  split; [exact E |].
  unfold player_move. rewrite E. unfold at2, index at 1.
  destruct ((r <? 0) || (Z.of_nat (List.length game_map) <=? r)); [reflexivity |].
  destruct (nth_error game_map (Z.to_nat r)) as [row |] eqn:Hrow; [| reflexivity].
  cbn [bind]. rewrite index_out_of_bounds; [reflexivity |].
  apply nth_error_In in Hrow.
  rewrite Forall_forall in Hrows. specialize (Hrows _ Hrow). lia.
Qed.

(** C6.  On the 32 x 40 map of [main], a player on row 0 facing up makes
    [player::move] read row [2^64 - 1], and a player on column 0 facing
    left makes it read column [2^64 - 1]: the index has wrapped and the
    cell is outside the array. *)
Theorem player_move_reads_outside_the_map :
  let blank := repeat (repeat " " (Z.to_nat HEIGHT)) (Z.to_nat WIDTH) in
  let top := set_p_pos initial_pacman (0, 20) in
  let leftmost := set_p_direction (set_p_pos initial_pacman (16, 0)) LEFT in
  in_array HEIGHT WIDTH (p_pos top) = true
  /\ player_probe top = (18446744073709551615, 20)
  /\ in_array HEIGHT WIDTH (player_probe top) = false
  /\ player_move blank top = Err OutOfBounds
  /\ in_array HEIGHT WIDTH (p_pos leftmost) = true
  /\ player_probe leftmost = (16, 18446744073709551615)
  /\ in_array HEIGHT WIDTH (player_probe leftmost) = false
  /\ player_move blank leftmost = Err OutOfBounds.
Proof.
  vm_compute. repeat split.
Qed.

(** ** Machine integers and array accesses *)

Lemma to_int_range z : - 2 ^ 31 <= to_int z < 2 ^ 31.
Proof.
  unfold to_int.
  pose proof (Z.mod_pos_bound (z + 2 ^ 31) (2 ^ 32) ltac:(lia)). lia.
Qed.

Lemma to_int_small z : - 2 ^ 31 <= z < 2 ^ 31 -> to_int z = z.
Proof.
  intros H. unfold to_int. rewrite Z.mod_small; lia.
Qed.

Lemma to_int_add_l a b : to_int (to_int a + b) = to_int (a + b).
Proof.
  unfold to_int.
  replace ((a + 2 ^ 31) mod 2 ^ 32 - 2 ^ 31 + b + 2 ^ 31)
    with ((a + 2 ^ 31) mod 2 ^ 32 + b) by lia.
  rewrite Zplus_mod_idemp_l. f_equal. f_equal. lia.
Qed.

Lemma to_int_add_l2 a b c : to_int (to_int a + b + c) = to_int (a + b + c).
Proof.
  rewrite <- Z.add_assoc, to_int_add_l. f_equal. lia.
Qed.

Lemma wrap64_small z : 0 <= z < SIZE_MOD -> wrap64 z = z.
Proof. intros H. unfold wrap64. apply Z.mod_small. exact H. Qed.

Lemma manhattanDistance_exact p q :
  Z.abs (to_int (fst p) - to_int (fst q))
  + Z.abs (to_int (snd p) - to_int (snd q)) < 2 ^ 31 ->
  manhattanDistance p q =
  Z.abs (to_int (fst p) - to_int (fst q))
  + Z.abs (to_int (snd p) - to_int (snd q)).
Proof.
  intros H. unfold manhattanDistance, abs_int.
  set (dx := to_int (fst p) - to_int (fst q)) in *.
  set (dy := to_int (snd p) - to_int (snd q)) in *.
  rewrite (to_int_small dx) by lia.
  rewrite (to_int_small dy) by lia.
  rewrite (to_int_small (Z.abs dx)) by lia.
  rewrite (to_int_small (Z.abs dy)) by lia.
  rewrite to_int_small by lia.
  apply wrap64_small. unfold SIZE_MOD. lia.
Qed.

Lemma index_in_range {A : Type} (l : list A) (i : Z) :
  0 <= i < Z.of_nat (List.length l) ->
  exists a, index l i = Ok a /\ nth_error l (Z.to_nat i) = Some a.
Proof.
  intros H. unfold index.
  destruct (Z.ltb_spec i 0); [lia |].
  destruct (Z.leb_spec (Z.of_nat (List.length l)) i); [lia |]. simpl.
  destruct (nth_error l (Z.to_nat i)) as [a |] eqn:E.
  - exists a. split; reflexivity.
  - apply nth_error_None in E. lia.
Qed.

Lemma index_Ok_inv {A : Type} (l : list A) (i : Z) (a : A) :
  index l i = Ok a ->
  0 <= i < Z.of_nat (List.length l) /\ nth_error l (Z.to_nat i) = Some a.
Proof.
  unfold index. intros H.
  destruct (Z.ltb_spec i 0); [discriminate |].
  destruct (Z.leb_spec (Z.of_nat (List.length l)) i); [discriminate |].
  simpl in H.
  destruct (nth_error l (Z.to_nat i)); [| discriminate].
  injection H as ->. split; [lia | reflexivity].
Qed.

Lemma at2_in_array width height g at_ :
  grid_wf width height g -> in_array width height at_ = true ->
  exists c, at2 g (fst at_) (snd at_) = Ok c.
Proof.
  intros [Hh Hw] Hin. unfold in_array in Hin.
  rewrite !andb_true_iff in Hin. destruct Hin as [[[H1 H2] H3] H4].
  apply Z.leb_le in H1, H3. apply Z.ltb_lt in H2, H4.
  destruct (index_in_range g (fst at_)) as [row [E Hn]]; [lia |].
  apply nth_error_In in Hn. rewrite Forall_forall in Hw.
  specialize (Hw _ Hn).
  destruct (index_in_range row (snd at_)) as [c [E' _]]; [lia |].
  exists c. unfold at2. rewrite E. cbn [bind]. exact E'.
Qed.

Lemma nth_error_snoc_last {A : Type} (l : list A) (d : A) :
  nth_error (l ++ [d]) (List.length l) = Some d.
Proof.
  rewrite nth_error_app2 by lia. rewrite Nat.sub_diag. reflexivity.
Qed.

Lemma nth_error_snoc_cases {A : Type} (l : list A) (d : A) (j : nat) (x : A) :
  nth_error (l ++ [d]) j = Some x ->
  ((j < List.length l)%nat /\ nth_error l j = Some x)
  \/ (j = List.length l /\ x = d).
Proof.
  intros H. destruct (Nat.lt_ge_cases j (List.length l)) as [Hj | Hj].
  - left. rewrite nth_error_app1 in H by exact Hj. split; assumption.
  - right. rewrite nth_error_app2 in H by exact Hj.
    destruct (j - List.length l)%nat as [| k] eqn:Ek.
    + injection H as <-. split; [lia | reflexivity].
    + destruct k; discriminate.
Qed.

(** ** The pursuit step of [enemy::move] *)

Section Pursuit.

Variables (game_map : Grid) (width height : Z) (e : enemy).
Hypothesis wf : grid_wf width height game_map.
Hypothesis agree : checks_agree width height e = true.

Let dist (dir : coord) : Z := manhattanDistance (destination e dir) (target e).

Let taken (dir : coord) : choice :=
  mk_choice (dist dir) (destination e dir) (getDirection dir).

(** What one iteration does to the three locals. *)
Let step (acc : choice) (dir : coord) : choice :=
  if eligible game_map width height e dir
     && (dist dir <? shortestPathLength acc)
  then taken dir else acc.

Lemma may_step_eligible dir :
  In dir directions ->
  may_step game_map width height e dir
  = Ok (eligible game_map width height e dir).
Proof.
  intros Hin. unfold may_step, eligible, passable_for_enemy.
  unfold checks_agree in agree. rewrite forallb_forall in agree.
  specialize (agree _ Hin). apply eqb_prop in agree.
  destruct (destination e dir) as [x y] eqn:Hd. cbn [fst snd] in *.
  destruct (isValidPosition x y width height); [| reflexivity].
  destruct (at2_in_array width height game_map (x, y) wf) as [c Hc];
    [symmetry; exact agree |].
  cbn [fst snd] in Hc. rewrite Hc. reflexivity.
Qed.

Lemma try_direction_step acc dir :
  In dir directions ->
  try_direction game_map width height e acc dir = Ok (step acc dir).
Proof.
  intros Hin. unfold try_direction, step.
  rewrite (may_step_eligible dir Hin). cbn [bind].
  destruct (eligible game_map width height e dir); [| reflexivity].
  cbn [andb]. fold (dist dir).
  destruct (dist dir <? shortestPathLength acc); reflexivity.
Qed.

Lemma scan_directions_fold dirs acc :
  incl dirs directions ->
  scan_directions game_map width height e acc dirs
  = Ok (fold_left step dirs acc).
Proof.
  revert acc. induction dirs as [| dir dirs IH]; intros acc Hincl.
  - reflexivity.
  - cbn [scan_directions fold_left].
    rewrite try_direction_step by (apply Hincl; left; reflexivity).
    cbn [bind]. apply IH. intros d Hd. apply Hincl. right. exact Hd.
Qed.

(** The invariant of the loop after the entries [seen]. *)
Let inv (start : choice) (seen : list coord) (acc : choice) : Prop :=
  (acc = start /\ forall d, In d seen -> eligible game_map width height e d = false)
  \/ exists i d,
      nth_error seen i = Some d
      /\ eligible game_map width height e d = true
      /\ acc = taken d
      /\ forall j d',
          nth_error seen j = Some d' ->
          eligible game_map width height e d' = true ->
          dist d <= dist d' /\ ((j < i)%nat -> dist d < dist d').

Lemma fold_step_inv start seen :
  (forall d, In d seen -> eligible game_map width height e d = true ->
             dist d < shortestPathLength start) ->
  inv start seen (fold_left step seen start).
Proof.
  induction seen as [| d seen IH] using rev_ind; intros Hfit.
  - left. split; [reflexivity | intros d []].
  - rewrite fold_left_app. cbn [fold_left].
    assert (Hfit' : forall d0, In d0 seen ->
              eligible game_map width height e d0 = true ->
              dist d0 < shortestPathLength start).
    { intros d0 H0. apply Hfit. apply in_or_app. left. exact H0. }
    specialize (IH Hfit').
    set (acc := fold_left step seen start) in *.
    unfold step at 1.
    destruct (eligible game_map width height e d) eqn:El; cbn [andb].
    + assert (Hd : dist d < shortestPathLength start).
      { apply Hfit; [apply in_or_app; right; left; reflexivity | exact El]. }
      destruct IH as [[Hacc Hnone] | [i [d0 [Hi [El0 [Hacc Hmin]]]]]].
      * (* the first eligible entry *)
        rewrite Hacc.
        destruct (Z.ltb_spec (dist d) (shortestPathLength start)); [| lia].
        right. exists (List.length seen), d.
        split; [apply nth_error_snoc_last |].
        split; [exact El |]. split; [reflexivity |].
        intros j d' Hj El'.
        destruct (nth_error_snoc_cases _ _ _ _ Hj) as [[Hlt Hj'] | [-> ->]].
        -- apply nth_error_In in Hj'. rewrite (Hnone _ Hj') in El'. discriminate.
        -- split; lia.
      * (* compared with the best so far *)
        assert (Hilt : (i < List.length seen)%nat).
        { apply nth_error_Some. rewrite Hi. discriminate. }
        rewrite Hacc. cbn [shortestPathLength taken].
        destruct (Z.ltb_spec (dist d) (dist d0)) as [Hlt | Hge].
        -- right. exists (List.length seen), d.
           split; [apply nth_error_snoc_last |].
           split; [exact El |]. split; [reflexivity |].
           intros j d' Hj El'.
           destruct (nth_error_snoc_cases _ _ _ _ Hj) as [[Hjl Hj'] | [-> ->]].
           ++ destruct (Hmin _ _ Hj' El') as [Hle _]. split; lia.
           ++ split; lia.
        -- right. exists i, d0.
           split; [rewrite nth_error_app1 by exact Hilt; exact Hi |].
           split; [exact El0 |]. split; [reflexivity |].
           intros j d' Hj El'.
           destruct (nth_error_snoc_cases _ _ _ _ Hj) as [[Hjl Hj'] | [-> ->]].
           ++ exact (Hmin _ _ Hj' El').
           ++ split; [exact Hge | lia].
    + (* an entry that is not eligible changes nothing *)
      destruct IH as [[Hacc Hnone] | [i [d0 [Hi [El0 [Hacc Hmin]]]]]].
      * left. split; [exact Hacc |].
        intros d1 H1. apply in_app_or in H1. destruct H1 as [H1 | [<- | []]].
        -- apply Hnone. exact H1.
        -- exact El.
      * assert (Hilt : (i < List.length seen)%nat).
        { apply nth_error_Some. rewrite Hi. discriminate. }
        right. exists i, d0.
        split; [rewrite nth_error_app1 by exact Hilt; exact Hi |].
        split; [exact El0 |]. split; [exact Hacc |].
        intros j d' Hj El'.
        destruct (nth_error_snoc_cases _ _ _ _ Hj) as [[Hjl Hj'] | [-> ->]].
        -- exact (Hmin _ _ Hj' El').
        -- rewrite El in El'. discriminate.
Qed.

(** The loop over the four directions, from the initial locals. *)
Lemma scan_directions_spec :
  distance_fits e (target e) = true ->
  exists c,
    scan_directions game_map width height e
      (mk_choice UINT_MAX (e_pos e) LEFT) directions = Ok c
    /\ ((exists i dir,
           first_minimal game_map width height e (target e) i dir
           /\ nextPos c = destination e dir
           /\ new_move c = getDirection dir)
        \/ ((forall dir, In dir directions ->
               eligible game_map width height e dir = false)
            /\ nextPos c = e_pos e /\ new_move c = LEFT)).
Proof.
  intros Hfit.
  rewrite scan_directions_fold by apply incl_refl.
  eexists. split; [reflexivity |].
  set (start := mk_choice UINT_MAX (e_pos e) LEFT).
  assert (Hlt : forall d, In d directions ->
            eligible game_map width height e d = true ->
            dist d < shortestPathLength start).
  { intros d Hd _. unfold distance_fits in Hfit.
    rewrite forallb_forall in Hfit. specialize (Hfit _ Hd).
    apply Z.ltb_lt in Hfit. unfold dist.
    rewrite manhattanDistance_exact by exact Hfit.
    cbn [shortestPathLength start]. unfold UINT_MAX. lia. }
  destruct (fold_step_inv start directions Hlt)
    as [[Hacc Hnone] | [i [d [Hi [El [Hacc Hmin]]]]]].
  - right. rewrite Hacc. split; [exact Hnone | split; reflexivity].
  - left. exists i, d. rewrite Hacc. split; [| split; reflexivity].
    split; [exact Hi | split; [exact El | exact Hmin]].
Qed.

End Pursuit.

Lemma calculate_target_only_sets_target width height pacman blinky e :
  calculate_target width height pacman blinky e
  = set_target e (target (calculate_target width height pacman blinky e)).
Proof.
  unfold calculate_target. destruct e as [p i m c md pm t]. cbn.
  destruct (p_pos pacman) as [pr pc].
  destruct md; [destruct c | destruct c | ]; try reflexivity;
    destruct (p_direction pacman); reflexivity.
Qed.

(** C1, as the code has it.  For an enemy that is not frightened, on a
    map where [isValidPosition] and the array bounds agree around the
    enemy and the distances fit an [int]: [enemy::move] tries the steps
    in the order up, down, left, right and takes the first one among the
    eligible steps of least Manhattan distance to the target; when no
    step is eligible the enemy stays where it is and [prev_move] becomes
    [LEFT]. *)
Theorem enemy_move_pursuit game_map width height pacman blinky draws e :
  grid_wf width height game_map ->
  mode e <> FRIGHTENED ->
  checks_agree width height e = true ->
  distance_fits e (target (calculate_target width height pacman blinky e)) = true ->
  map getDirection directions = [UP; DOWN; LEFT; RIGHT]
  /\ exists e',
      enemy_move game_map width height pacman blinky draws e = Ok (e', draws)
      /\ target e' = target (calculate_target width height pacman blinky e)
      /\ ((exists i dir,
             first_minimal game_map width height e (target e') i dir
             /\ e_pos e' = destination e dir
             /\ prev_move e' = getDirection dir)
          \/ ((forall dir, In dir directions ->
                 eligible game_map width height e dir = false)
              /\ e_pos e' = e_pos e
              /\ prev_move e' = LEFT)).
Proof.
  intros Hwf Hmode Hagree Hfit.
  split; [reflexivity |].
  unfold enemy_move.
  destruct (ENEMY_MODE_eqb (mode e) FRIGHTENED) eqn:Hm.
  { apply ENEMY_MODE_eqb_eq in Hm. contradiction. }
  rewrite (calculate_target_only_sets_target width height pacman blinky e).
  set (t := target (calculate_target width height pacman blinky e)) in *.
  destruct (scan_directions_spec game_map width height (set_target e t)
              Hwf Hagree Hfit) as [c [Hscan Hc]].
  rewrite Hscan. cbn [bind].
  eexists. split; [reflexivity |]. split; [reflexivity |].
  cbn [target e_pos prev_move set_e_pos set_prev_move set_target].
  destruct Hc as [[i [dir [Hfm [Hn Hd]]]] | [Hnone [Hn Hd]]].
  - left. exists i, dir. split; [exact Hfm |]. split; assumption.
  - right. split; [exact Hnone |]. split; assumption.
Qed.

(** C1, as the claim has it, fails.  An enemy at the end of a blind
    alley which it entered by the step called [UP]: walls on three
    sides, and the only open neighbour is the one it came from.  No step
    is eligible, the position is kept, but [prev_move] is [LEFT] after
    the move. *)
Lemma enemy_without_eligible_step_forgets_prev_move :
  let alley := map_with_walls [(8, 15); (7, 16); (9, 16)] in
  let e := initial_ghost BLINKY in
  forallb (fun dir => negb (eligible alley HEIGHT WIDTH e dir)) directions = true
  /\ mode e = SCATTER
  /\ prev_move e = UP
  /\ passable_for_enemy alley (destination e (0, 1)) = true
  /\ exists e',
      enemy_move alley HEIGHT WIDTH initial_pacman e [] e = Ok (e', [])
      /\ e_pos e' = e_pos e
      /\ prev_move e' = LEFT
      /\ prev_move e' <> prev_move e.
Proof.
  cbv zeta. split; [vm_compute; reflexivity |].
  split; [reflexivity |]. split; [reflexivity |].
  split; [vm_compute; reflexivity |].
  eexists. split; [vm_compute; reflexivity |].
  cbn. repeat split. discriminate.
Qed.

(** On the map of [main], 32 rows of 40 columns, [isValidPosition]
    tests the row against 40 and the column against 32.  An enemy in
    column 31 is refused the free cell in column 32, which is on the
    map; an enemy in row 31 has the cell in row 32 accepted, which is
    not, and the map is read outside the array. *)
Lemma isValidPosition_swaps_the_bounds :
  let blank := repeat (repeat " " 40%nat) 32%nat in
  let east := set_e_pos (initial_ghost BLINKY) (8, 31) in
  let south := set_e_pos (initial_ghost BLINKY) (31, 5) in
  in_array HEIGHT WIDTH (destination east (0, 1)) = true
  /\ passable_for_enemy blank (destination east (0, 1)) = true
  /\ eligible blank HEIGHT WIDTH east (0, 1) = false
  /\ checks_agree HEIGHT WIDTH east = false
  /\ in_array HEIGHT WIDTH (destination south (1, 0)) = false
  /\ may_step blank HEIGHT WIDTH south (1, 0) = Err OutOfBounds
  /\ enemy_move blank HEIGHT WIDTH initial_pacman south [] south
     = Err OutOfBounds.
Proof.
  vm_compute. repeat split.
Qed.

Lemma grid_wf_repeat (c : ascii) (w h : nat) :
  grid_wf (Z.of_nat w) (Z.of_nat h) (repeat (repeat c w) h).
Proof.
  split.
  - rewrite repeat_length. reflexivity.
  - apply Forall_forall. intros row Hrow.
    apply repeat_spec in Hrow. subst row.
    rewrite repeat_length. reflexivity.
Defined.

(** Blinky's first move of a game on an empty map: the scatter corner is
    (1, 38), and the step called [DOWN] (one column to the right) is the
    first of least distance. *)
Lemma enemy_move_pursuit_witness :
  let blank := repeat (repeat " " 40%nat) 32%nat in
  let e := initial_ghost BLINKY in
  exists e',
    enemy_move blank HEIGHT WIDTH initial_pacman e [] e = Ok (e', [])
    /\ target e' = (1, 38)
    /\ ((exists i dir,
           first_minimal blank HEIGHT WIDTH e (target e') i dir
           /\ e_pos e' = destination e dir
           /\ prev_move e' = getDirection dir)
        \/ ((forall dir, In dir directions ->
               eligible blank HEIGHT WIDTH e dir = false)
            /\ e_pos e' = e_pos e
            /\ prev_move e' = LEFT)).
Proof.
  cbv zeta.
  apply (enemy_move_pursuit (repeat (repeat " " 40%nat) 32%nat) HEIGHT WIDTH
           initial_pacman (initial_ghost BLINKY) [] (initial_ghost BLINKY)).
  - exact (grid_wf_repeat " " 40 32).
  - discriminate.
  - vm_compute. reflexivity.
  - vm_compute. reflexivity.
Defined.

(** ** The map loader *)

Lemma note_char_frame row i c p :
  p_pos (note_char row i c p) = p_pos p
  /\ p_direction (note_char row i c p) = p_direction p
  /\ current_anim_frame (note_char row i c p) = current_anim_frame p
  /\ score (note_char row i c p) = score p
  /\ is_over (note_char row i c p) = is_over p.
Proof.
  unfold note_char.
  case_char c "."; [repeat split |].
  case_char c "@"; [repeat split |].
  case_char c "["; [repeat split |].
  case_char c "]"; repeat split.
Qed.

Lemma note_char_max_score row i c p :
  max_score (note_char row i c p)
  = if Ascii.eqb c "." then to_int (max_score p + 10)
    else if Ascii.eqb c "@" then to_int (max_score p + 50)
    else max_score p.
Proof.
  unfold note_char.
  case_char c "."; [reflexivity |].
  case_char c "@"; [reflexivity |].
  case_char c "["; [reflexivity |].
  case_char c "]"; reflexivity.
Qed.

Lemma note_char_portal_1 row i c p :
  portal_1 (note_char row i c p)
  = if Ascii.eqb c "]" then (row, i) else portal_1 p.
Proof.
  unfold note_char.
  case_char c "."; [reflexivity |].
  case_char c "@"; [reflexivity |].
  case_char c "["; [reflexivity |].
  case_char c "]"; reflexivity.
Qed.

Lemma note_char_portal_2 row i c p :
  portal_2 (note_char row i c p)
  = if Ascii.eqb c "[" then (row, i) else portal_2 p.
Proof.
  unfold note_char.
  case_char c "."; [reflexivity |].
  case_char c "@"; [reflexivity |].
  case_char c "["; [reflexivity |].
  case_char c "]"; reflexivity.
Qed.

Lemma count_in_cons c x buff :
  count_in c (x :: buff) = (if Ascii.eqb x c then 1 else 0) + count_in c buff.
Proof.
  unfold count_in. cbn [count_occ].
  destruct (ascii_dec x c) as [E | E].
  - subst x. rewrite Ascii.eqb_refl. lia.
  - apply Ascii.eqb_neq in E. rewrite E. lia.
Qed.

Lemma occurrences_cons c buff vec :
  occurrences c (buff :: vec) = count_in c buff + occurrences c vec.
Proof.
  unfold occurrences, count_in. cbn [List.concat].
  rewrite count_occ_app. lia.
Qed.

Lemma scan_line_spec row buff : forall i line p,
  let r := scan_line row i buff line p in
  fst r = line ++ filter (found_in loader_valid_chars) buff
  /\ to_int (max_score (snd r))
     = to_int (max_score p + 10 * count_in "." buff + 50 * count_in "@" buff)
  /\ (is_int (max_score p) -> is_int (max_score (snd r)))
  /\ portal_1 (snd r)
     = or_else (option_map (fun k => (row, k)) (last_in_line "]" i buff))
               (portal_1 p)
  /\ portal_2 (snd r)
     = or_else (option_map (fun k => (row, k)) (last_in_line "[" i buff))
               (portal_2 p)
  /\ p_pos (snd r) = p_pos p /\ score (snd r) = score p
  /\ is_over (snd r) = is_over p /\ p_direction (snd r) = p_direction p
  /\ current_anim_frame (snd r) = current_anim_frame p.
Proof.
  induction buff as [| c buff IH]; intros i line p; cbv zeta.
  - cbn [scan_line fst snd filter last_in_line option_map or_else].
    rewrite app_nil_r. unfold count_in. cbn [count_occ Z.of_nat].
    split; [reflexivity |]. split; [f_equal; lia |].
    split; [tauto |]. repeat split.
  - cbn [scan_line].
    specialize (IH (i + 1)
                   (if found_in loader_valid_chars c then line ++ [c] else line)
                   (note_char row i c p)).
    cbv zeta in IH.
    destruct IH as (Hl & Hm & Hint & H1 & H2 & Hp & Hs & Ho & Hd & Ha).
    destruct (note_char_frame row i c p) as (Fp & Fd & Fa & Fs & Fo).
    split; [| split; [| split; [| split; [| split]]]].
    + rewrite Hl. cbn [filter].
      destruct (found_in loader_valid_chars c); [| reflexivity].
      rewrite <- app_assoc. reflexivity.
    + rewrite Hm, note_char_max_score, !count_in_cons.
      case_char c "."; [| case_char c "@"]; cbn [Ascii.eqb Bool.eqb andb].
      * rewrite to_int_add_l2. f_equal. lia.
      * rewrite to_int_add_l2. f_equal. lia.
      * f_equal; lia.
    + intros Hi. apply Hint. rewrite note_char_max_score.
      destruct (Ascii.eqb c "."); [apply to_int_range |].
      destruct (Ascii.eqb c "@"); [apply to_int_range | exact Hi].
    + rewrite H1, note_char_portal_1. cbn [last_in_line].
      destruct (last_in_line "]" (i + 1) buff); [reflexivity |].
      destruct (Ascii.eqb c "]"); reflexivity.
    + rewrite H2, note_char_portal_2. cbn [last_in_line].
      destruct (last_in_line "[" (i + 1) buff); [reflexivity |].
      destruct (Ascii.eqb c "["); reflexivity.
    + repeat split; congruence.
Qed.

Lemma scan_lines_spec lines : forall answer p,
  let r := scan_lines lines answer p in
  fst r = answer ++ map (filter (found_in loader_valid_chars)) lines
  /\ to_int (max_score (snd r))
     = to_int (max_score p + 10 * occurrences "." lines
               + 50 * occurrences "@" lines)
  /\ (is_int (max_score p) -> is_int (max_score (snd r)))
  /\ portal_1 (snd r)
     = or_else (last_in_file "]" (Z.of_nat (List.length answer)) lines)
               (portal_1 p)
  /\ portal_2 (snd r)
     = or_else (last_in_file "[" (Z.of_nat (List.length answer)) lines)
               (portal_2 p)
  /\ p_pos (snd r) = p_pos p /\ score (snd r) = score p
  /\ is_over (snd r) = is_over p /\ p_direction (snd r) = p_direction p
  /\ current_anim_frame (snd r) = current_anim_frame p.
Proof.
  induction lines as [| buff lines IH]; intros answer p; cbv zeta.
  - cbn [scan_lines fst snd map last_in_file or_else].
    rewrite app_nil_r. unfold occurrences. cbn [List.concat count_occ Z.of_nat].
    split; [reflexivity |]. split; [f_equal; lia |].
    split; [tauto |]. repeat split.
  - cbn [scan_lines].
    pose proof (scan_line_spec (Z.of_nat (List.length answer)) buff 0 [] p) as L.
    cbv zeta in L.
    destruct (scan_line (Z.of_nat (List.length answer)) 0 buff [] p)
      as [line p'] eqn:E.
    cbn [fst snd] in L.
    destruct L as (Ll & Lm & Li & L1 & L2 & Lp & Ls & Lo & Ld & La).
    specialize (IH (answer ++ [line]) p'). cbv zeta in IH.
    destruct IH as (Hl & Hm & Hi & H1 & H2 & Hp & Hs & Ho & Hd & Ha).
    assert (Hlen : Z.of_nat (List.length (answer ++ [line]))
                   = Z.of_nat (List.length answer) + 1).
    { rewrite length_app. cbn [List.length]. lia. }
    rewrite Hlen in H1, H2.
    split; [| split; [| split; [| split; [| split]]]].
    + rewrite Hl, Ll. cbn [map app]. rewrite <- app_assoc. reflexivity.
    + rewrite Hm, !occurrences_cons.
      rewrite <- (to_int_add_l2 (max_score p')), Lm, to_int_add_l2.
      f_equal. lia.
    + intros H. apply Hi, Li, H.
    + rewrite H1, L1. cbn [last_in_file].
      destruct (last_in_file "]" (Z.of_nat (List.length answer) + 1) lines);
        reflexivity.
    + rewrite H2, L2. cbn [last_in_file].
      destruct (last_in_file "[" (Z.of_nat (List.length answer) + 1) lines);
        reflexivity.
    + repeat split; congruence.
Qed.

(** C9, as the code has it.  Loading keeps the recognised characters of
    every line, adds 10 to [max_score] for every [.] and 50 for every
    [@] of the file, and leaves in [portal_1] the place of the last
    closing bracket of the file and in [portal_2] the place of the last
    opening bracket (row, and index in the line as read); a portal whose
    bracket does not occur keeps its value. *)
Theorem get_map_str_spec lines player_ :
  is_int (max_score player_) ->
  exists vec player',
    get_map_str (Some lines) player_ = Ok (vec, player')
    /\ vec = map (filter (found_in loader_valid_chars)) lines
    /\ max_score player'
       = to_int (max_score player_ + 10 * occurrences "." lines
                 + 50 * occurrences "@" lines)
    /\ portal_1 player' = or_else (last_in_file "]" 0 lines) (portal_1 player_)
    /\ portal_2 player' = or_else (last_in_file "[" 0 lines) (portal_2 player_).
Proof.
  intros Hint. unfold get_map_str.
  pose proof (scan_lines_spec lines [] player_) as H. cbv zeta in H.
  destruct (scan_lines lines [] player_) as [vec p'].
  cbn [fst snd List.length Z.of_nat app] in H.
  destruct H as (Hl & Hm & Hi & H1 & H2 & _).
  exists vec, p'. split; [reflexivity |].
  split; [exact Hl |].
  split; [rewrite <- Hm; symmetry; apply to_int_small, Hi, Hint |].
  split; assumption.
Qed.

Lemma get_map_str_spec_witness :
  exists vec player',
    get_map_str (Some [list_ascii_of_string "[.@ .]"]) initial_pacman
    = Ok (vec, player')
    /\ vec = [list_ascii_of_string "[.@ .]"]
    /\ max_score player' = 70
    /\ portal_1 player' = (0, 5)
    /\ portal_2 player' = (0, 0).
Proof.
  apply (get_map_str_spec [list_ascii_of_string "[.@ .]"] initial_pacman).
  unfold is_int. cbn. lia.
Defined.

(** C9, as the claim has it, fails.  A line with two tunnels: the first
    closing bracket has index 1 and the first opening bracket index 0,
    but the loader leaves the indices 5 and 4 of the later pair.  With
    two lines, the brackets of the second line are the ones recorded. *)
Lemma later_bracket_replaces_earlier :
  let buff := list_ascii_of_string "[]..[]" in
  first_in_line "]" 0 buff = Some 1
  /\ first_in_line "[" 0 buff = Some 0
  /\ (exists vec p,
        get_map_str (Some [buff]) initial_pacman = Ok (vec, p)
        /\ portal_1 p = (0, 5) /\ portal_2 p = (0, 4))
  /\ (exists vec p,
        get_map_str (Some [list_ascii_of_string "[  ]";
                           list_ascii_of_string " [] "]) initial_pacman
        = Ok (vec, p)
        /\ portal_1 p = (1, 2) /\ portal_2 p = (1, 1)).
Proof.
  cbv zeta. split; [reflexivity |]. split; [reflexivity |].
  split; eexists; eexists; (split; [vm_compute; reflexivity |]);
    split; reflexivity.
Qed.

(** ** Collisions *)






(** The second [if] of the collision code writes the mode of ghost 4: a
    frightened Pinky that is eaten stays frightened, and a frightened
    Clyde standing on the same cell is made [NORMAL] without being sent
    away. *)
Lemma eaten_pinky_keeps_her_mode :
  let p := initial_pacman in
  let scared t := set_e_pos (set_icon (set_mode (initial_ghost t) FRIGHTENED) "X")
                            (p_pos p) in
  let r := resolve_collisions p (initial_ghost BLINKY) (scared PINKY)
                              (initial_ghost INKY) (scared CLYDE) in
  mode (snd (fst (fst (snd r)))) = FRIGHTENED
  /\ e_pos (snd (fst (fst (snd r)))) = (8, 16)
  /\ mode (snd (snd r)) = NORMAL
  /\ e_pos (snd (snd r)) = p_pos p
  /\ icon (snd (snd r)) = "X"
  /\ is_over (fst r) = false.
Proof.
  vm_compute. repeat split.
Qed.

(** ** The parts of [update_map] *)

Lemma update_map_inv s s' :
  update_map s = Ok s' ->
  exists m s1 s2,
    overlay (game_vec s) (blank_map (game_map s)) = Ok m
    /\ eat_or_teleport (set_game_map s m) = Ok s1
    /\ draw_actors s1 = Ok s2
    /\ s' = collide s2.
Proof.
  unfold update_map. intros H.
  bind_inv H. bind_inv H. bind_inv H.
  injection H as <-.
  match goal with
  | E0 : eat_or_teleport (set_game_map s ?m) = Ok ?s1,
    E1 : draw_actors ?s1 = Ok ?s2 |- _ =>
      exists m, s1, s2;
      split; [reflexivity | split; [exact E0 | split; [exact E1 | reflexivity]]]
  end.
Qed.

Lemma draw_actors_frame s s' :
  draw_actors s = Ok s' -> exists m, s' = set_game_map s m.
Proof.
  unfold draw_actors. intros H.
  repeat bind_inv H. injection H as <-. eauto.
Qed.

Lemma collide_frame s :
  game_vec (collide s) = game_vec s
  /\ frightened_countdown (collide s) = frightened_countdown s
  /\ frameCount (collide s) = frameCount s
  /\ secs (collide s) = secs s
  /\ game_is_running (collide s) = game_is_running s
  /\ game_map (collide s) = game_map s
  /\ score (pacman (collide s)) = score (pacman s)
  /\ max_score (pacman (collide s)) = max_score (pacman s)
  /\ p_pos (pacman (collide s)) = p_pos (pacman s)
  /\ portal_1 (pacman (collide s)) = portal_1 (pacman s)
  /\ portal_2 (pacman (collide s)) = portal_2 (pacman s).
Proof.
  unfold collide, resolve_collisions.
  repeat match goal with
         | |- context [if ?b then _ else _] => destruct b
         end; cbn; repeat split.
Qed.

Lemma index_of_nth_error {A : Type} (l : list A) (i : Z) (a : A) :
  0 <= i -> nth_error l (Z.to_nat i) = Some a -> index l i = Ok a.
Proof.
  intros Hi Hn.
  assert (Hlt : (Z.to_nat i < List.length l)%nat).
  { apply nth_error_Some. rewrite Hn. discriminate. }
  destruct (index_in_range l i) as [a' [E Hn']]; [lia |].
  rewrite Hn in Hn'. injection Hn' as <-. exact E.
Qed.

Lemma replace_nth_length {A : Type} (l : list A) n a :
  List.length (replace_nth l n a) = List.length l.
Proof.
  revert n. induction l as [| x l IH]; intros [| n]; cbn; auto.
Qed.

Lemma nth_error_replace_nth {A : Type} (l : list A) n m a :
  nth_error (replace_nth l n a) m
  = if Nat.eqb n m
    then match nth_error l m with Some _ => Some a | None => None end
    else nth_error l m.
Proof.
  revert n m. induction l as [| x l IH]; intros [| n] [| m]; cbn; auto.
  - destruct (Nat.eqb n m); reflexivity.
Qed.

Lemma count_in_replace_nth z (l : list ascii) n x a :
  nth_error l n = Some x ->
  count_in z (replace_nth l n a)
  = count_in z l - (if Ascii.eqb x z then 1 else 0)
    + (if Ascii.eqb a z then 1 else 0).
Proof.
  revert n. induction l as [| y l IH]; intros [| n] H; cbn in H; try discriminate.
  - injection H as ->. cbn [replace_nth]. rewrite !count_in_cons. lia.
  - cbn [replace_nth]. rewrite !count_in_cons, (IH _ H). lia.
Qed.

Lemma occurrences_replace_nth z (vec : list (list ascii)) n row row' :
  nth_error vec n = Some row ->
  occurrences z (replace_nth vec n row')
  = occurrences z vec - count_in z row + count_in z row'.
Proof.
  revert n. induction vec as [| y vec IH]; intros [| n] H; cbn in H;
    try discriminate.
  - injection H as ->. cbn [replace_nth]. rewrite !occurrences_cons. lia.
  - cbn [replace_nth]. rewrite !occurrences_cons, (IH _ H). lia.
Qed.

(** Writing [y] over a cell that holds [x]. *)
Lemma assign2_spec vec r c x y :
  at2 vec r c = Ok x ->
  exists vec',
    assign2 vec r c y = Ok vec'
    /\ (forall z, occurrences z vec'
                  = occurrences z vec - (if Ascii.eqb x z then 1 else 0)
                    + (if Ascii.eqb y z then 1 else 0))
    /\ (forall r' c' ch, at2 vec' r' c' = Ok ch ->
                         ch = y \/ at2 vec r' c' = Ok ch)
    /\ at2 vec' r c = Ok y.
Proof.
  unfold at2. intros H. bind_inv H.
  apply index_Ok_inv in E. destruct E as [Hr Hrow].
  apply index_Ok_inv in H. destruct H as [Hc Hx].
  unfold assign2.
  destruct (index_in_range vec r Hr) as [row [E1 Hrow']].
  rewrite Hrow in Hrow'. injection Hrow' as <-.
  rewrite E1. cbn [bind]. unfold assign.
  destruct (Z.ltb_spec c 0); [lia |].
  destruct (Z.leb_spec (Z.of_nat (List.length a)) c); [lia |].
  destruct (Z.ltb_spec r 0); [lia |].
  destruct (Z.leb_spec (Z.of_nat (List.length vec)) r); [lia |].
  cbn [orb bind].
  eexists. split; [reflexivity |]. split; [| split].
  - intros z.
    rewrite (occurrences_replace_nth z vec _ a _ Hrow).
    rewrite (count_in_replace_nth z a _ x y Hx). lia.
  - intros r' c' ch H'. bind_inv H'.
    apply index_Ok_inv in E. destruct E as [Hr' Hrow'].
    apply index_Ok_inv in H'. destruct H' as [Hc' Hch].
    rewrite nth_error_replace_nth in Hrow'.
    destruct (Nat.eqb_spec (Z.to_nat r) (Z.to_nat r')) as [Er | Er].
    + rewrite <- Er, Hrow in Hrow'. injection Hrow' as <-.
      rewrite nth_error_replace_nth in Hch.
      destruct (Nat.eqb_spec (Z.to_nat c) (Z.to_nat c')) as [Ec | Ec].
      * destruct (nth_error a (Z.to_nat c')); [| discriminate].
        injection Hch as <-. left. reflexivity.
      * right. assert (r' = r) by lia. subst r'.
        rewrite E1. cbn [bind].
        apply index_of_nth_error; [lia | exact Hch].
    + right. rewrite (index_of_nth_error vec r' a0) by (lia || assumption).
      cbn [bind]. apply index_of_nth_error; [lia | exact Hch].
  - rewrite (index_of_nth_error _ r (replace_nth a (Z.to_nat c) y)).
    + cbn [bind]. apply index_of_nth_error; [lia |].
      rewrite nth_error_replace_nth, Nat.eqb_refl, Hx. reflexivity.
    + lia.
    + rewrite nth_error_replace_nth, Nat.eqb_refl, Hrow. reflexivity.
Qed.

Lemma index_Err_of_nth_error {A : Type} (l : list A) (i : Z) :
  nth_error l (Z.to_nat i) = None -> exists e, index l i = Err e.
Proof.
  intros H. unfold index.
  destruct ((i <? 0) || (Z.of_nat (List.length l) <=? i)); [eauto |].
  rewrite H. eauto.
Qed.

Lemma overlay_row_nth line : forall row j ch,
  nth_error (overlay_row line row) j = Some ch ->
  match nth_error line j with
  | Some x => ch = x
  | None => nth_error row j = Some ch
  end.
Proof.
  induction line as [| x line IH]; intros row j ch H.
  - destruct j; destruct row; exact H.
  - destruct row as [| y row].
    + cbn in H. destruct j; discriminate.
    + destruct j as [| j]; cbn in *.
      * injection H as <-. reflexivity.
      * apply IH. exact H.
Qed.

Lemma overlay_nth vec : forall g m i row',
  overlay vec g = Ok m ->
  nth_error m i = Some row' ->
  match nth_error vec i with
  | Some line => exists row, nth_error g i = Some row
                             /\ row' = overlay_row line row
  | None => nth_error g i = Some row'
  end.
Proof.
  induction vec as [| line vec IH]; intros g m i row' H Hn.
  - destruct g; cbn in H; injection H as <-; destruct i; exact Hn.
  - destruct g as [| row g]; cbn in H; [discriminate |].
    bind_inv H. injection H as <-.
    destruct i as [| i]; cbn in Hn.
    + injection Hn as <-. cbn. exists row. split; reflexivity.
    + cbn [nth_error]. apply (IH g a i row' E Hn).
Qed.

Lemma blank_map_nth g i row j ch :
  nth_error (blank_map g) i = Some row ->
  nth_error row j = Some ch -> ch = " ".
Proof.
  unfold blank_map. intros Hrow Hch.
  rewrite nth_error_map in Hrow.
  destruct (nth_error g i) as [row0 |]; [| discriminate].
  injection Hrow as <-. rewrite nth_error_map in Hch.
  destruct (nth_error row0 j); [| discriminate].
  injection Hch as <-. reflexivity.
Qed.

(** After the two loop nests, a cell of the map holds the character of
    the persistent layer at the same place, or a blank where the layer
    has no character. *)
Lemma overlay_cell vec g m r c ch :
  overlay vec (blank_map g) = Ok m ->
  at2 m r c = Ok ch ->
  at2 vec r c = Ok ch \/ (ch = " " /\ exists e, at2 vec r c = Err e).
Proof.
  intros Ho H. unfold at2 in H. bind_inv H.
  apply index_Ok_inv in E. destruct E as [Hr Hrow].
  apply index_Ok_inv in H. destruct H as [Hc Hch].
  pose proof (overlay_nth _ _ _ _ _ Ho Hrow) as Hv.
  unfold at2.
  destruct (nth_error vec (Z.to_nat r)) as [line |] eqn:Hline.
  - destruct Hv as [row [Hg ->]].
    rewrite (index_of_nth_error vec r line) by (lia || assumption).
    cbn [bind].
    pose proof (overlay_row_nth _ _ _ _ Hch) as Hl.
    destruct (nth_error line (Z.to_nat c)) as [x |] eqn:Hx.
    + subst x. left. apply index_of_nth_error; [lia | exact Hx].
    + right. split; [exact (blank_map_nth _ _ _ _ _ Hg Hl) |].
      apply index_Err_of_nth_error. exact Hx.
  - right. split; [exact (blank_map_nth _ _ _ _ _ Hv Hch) |].
    destruct (index_Err_of_nth_error vec r Hline) as [e He].
    exists e. rewrite He. reflexivity.
Qed.

Lemma eat_or_teleport_spec s s1 :
  eat_or_teleport s = Ok s1 ->
  let p := pacman s in
  let p1 := pacman s1 in
  exists ch,
    at2 (game_map s) (fst (p_pos p)) (snd (p_pos p)) = Ok ch
    /\ (game_map s1 = game_map s
        /\ ghost1 s1 = ghost1 s /\ ghost2 s1 = ghost2 s
        /\ ghost3 s1 = ghost3 s /\ ghost4 s1 = ghost4 s
        /\ game_is_running s1 = game_is_running s
        /\ frameCount s1 = frameCount s /\ secs s1 = secs s)
    /\ (max_score p1 = max_score p /\ portal_1 p1 = portal_1 p
        /\ portal_2 p1 = portal_2 p /\ is_over p1 = is_over p
        /\ p_direction p1 = p_direction p
        /\ current_anim_frame p1 = current_anim_frame p)
    /\ (ch = "." ->
        assign2 (game_vec s) (fst (p_pos p)) (snd (p_pos p)) " "
        = Ok (game_vec s1)
        /\ score p1 = to_int (score p + 10)
        /\ p_pos p1 = p_pos p
        /\ frightened_countdown s1 = frightened_countdown s)
    /\ (ch = "@" ->
        assign2 (game_vec s) (fst (p_pos p)) (snd (p_pos p)) " "
        = Ok (game_vec s1)
        /\ score p1 = to_int (score p + 50)
        /\ p_pos p1 = p_pos p
        /\ frightened_countdown s1 = 10)
    /\ (ch <> "." -> ch <> "@" ->
        game_vec s1 = game_vec s
        /\ score p1 = score p
        /\ frightened_countdown s1 = frightened_countdown s
        /\ p_pos p1
           = if coord_eqb (p_pos p) (portal_1 p)
             then (fst (portal_2 p), wrap64 (snd (portal_2 p) + 1))
             else if coord_eqb (p_pos p) (portal_2 p)
                  then (fst (portal_1 p), wrap64 (snd (portal_1 p) - 1))
                  else p_pos p).
Proof.
  unfold eat_or_teleport, coord_eqb. intros H. cbv zeta.
  destruct (p_pos (pacman s)) as [r c] eqn:Hpos. cbn [fst snd].
  bind_inv H. exists a. split; [reflexivity |].
  case_char a ".".
  { bind_inv H. injection H as <-. cbn.
    repeat split; intros; try congruence; try discriminate. }
  case_char a "@".
  { bind_inv H. injection H as <-. cbn.
    repeat split; intros; try congruence; try discriminate. }
  destruct ((r =? fst (portal_1 (pacman s))) && (c =? snd (portal_1 (pacman s)))).
  { injection H as <-. cbn.
    repeat split; intros; try congruence; try discriminate. }
  destruct ((r =? fst (portal_2 (pacman s))) && (c =? snd (portal_2 (pacman s)))).
  { injection H as <-. cbn.
    repeat split; intros; try congruence; try discriminate. }
  injection H as <-. cbn.
  repeat split; intros; try congruence; try discriminate.
Qed.

(** What one call of [update_map] does to the player, the persistent
    layer and the countdown. *)
Lemma update_map_effect s s' :
  update_map s = Ok s' ->
  let p := pacman s in
  let p' := pacman s' in
  let r := fst (p_pos p) in
  let c := snd (p_pos p) in
  (max_score p' = max_score p /\ portal_1 p' = portal_1 p
   /\ portal_2 p' = portal_2 p /\ secs s' = secs s
   /\ frameCount s' = frameCount s
   /\ game_is_running s' = game_is_running s)
  /\ ((at2 (game_vec s) r c = Ok "."
       /\ assign2 (game_vec s) r c " " = Ok (game_vec s')
       /\ score p' = to_int (score p + 10)
       /\ p_pos p' = p_pos p
       /\ frightened_countdown s' = frightened_countdown s)
      \/ (at2 (game_vec s) r c = Ok "@"
          /\ assign2 (game_vec s) r c " " = Ok (game_vec s')
          /\ score p' = to_int (score p + 50)
          /\ p_pos p' = p_pos p
          /\ frightened_countdown s' = 10)
      \/ (pellet_under_player s = false
          /\ game_vec s' = game_vec s
          /\ score p' = score p
          /\ frightened_countdown s' = frightened_countdown s
          /\ p_pos p'
             = if coord_eqb (p_pos p) (portal_1 p)
               then (fst (portal_2 p), wrap64 (snd (portal_2 p) + 1))
               else if coord_eqb (p_pos p) (portal_2 p)
                    then (fst (portal_1 p), wrap64 (snd (portal_1 p) - 1))
                    else p_pos p)).
Proof.
  intros H. cbv zeta.
  destruct (update_map_inv _ _ H) as (m & s1 & s2 & Ho & He & Hd & ->).
  destruct (eat_or_teleport_spec _ _ He)
    as (ch & Hch & Hg & Hp & Hdot & Hat & Hother).
  cbn [pacman game_map game_vec set_game_map frightened_countdown
       ghost1 ghost2 ghost3 ghost4 game_is_running frameCount secs] in *.
  destruct (draw_actors_frame _ _ Hd) as [m' ->].
  destruct (collide_frame (set_game_map s1 m'))
    as (Cv & Cf & Cfr & Cs & Cr & _ & Csc & Cm & Cp & C1 & C2).
  cbn [pacman game_vec set_game_map frightened_countdown
       game_is_running frameCount secs] in *.
  rewrite Cv, Cf, Cfr, Cs, Cr, Csc, Cm, Cp, C1, C2.
  destruct Hg as (_ & _ & _ & _ & _ & Gr & Gf & Gs).
  destruct Hp as (Pm & P1 & P2 & _).
  split; [repeat split; congruence |].
  pose proof (overlay_cell _ _ _ _ _ _ Ho Hch) as Hcell.
  case_char ch ".".
  { left. destruct (Hdot eq_refl) as (A1 & A2 & A3 & A4).
    destruct Hcell as [Hv | [Hb _]]; [| discriminate].
    repeat split; assumption. }
  case_char ch "@".
  { right. left. destruct (Hat eq_refl) as (A1 & A2 & A3 & A4).
    destruct Hcell as [Hv | [Hb _]]; [| discriminate].
    repeat split; assumption. }
  right. right. destruct (Hother n n0) as (A1 & A2 & A3 & A4).
  split; [| repeat split; assumption].
  unfold pellet_under_player, holds_pellet.
  destruct Hcell as [Hv | [_ [e Hv]]]; rewrite Hv; [| reflexivity].
  apply Ascii.eqb_neq in n, n0. rewrite n, n0. reflexivity.
Qed.

(** ** Portals *)

Lemma wrap64_succ_pred x : is_size_t x -> wrap64 (wrap64 (x + 1) - 1) = x.
Proof.
  intros H. unfold wrap64. rewrite Zminus_mod_idemp_l.
  replace (x + 1 - 1) with x by lia. apply Z.mod_small. exact H.
Qed.

Lemma wrap64_pred_succ x : is_size_t x -> wrap64 (wrap64 (x - 1) + 1) = x.
Proof.
  intros H. unfold wrap64. rewrite Zplus_mod_idemp_l.
  replace (x - 1 + 1) with x by lia. apply Z.mod_small. exact H.
Qed.

Lemma teleport_step s s' :
  update_map s = Ok s' ->
  pellet_under_player s = false ->
  let p := pacman s in
  let p' := pacman s' in
  portal_1 p' = portal_1 p /\ portal_2 p' = portal_2 p
  /\ (p_pos p = portal_1 p ->
      p_pos p' = (fst (portal_2 p), wrap64 (snd (portal_2 p) + 1)))
  /\ (p_pos p = portal_2 p -> p_pos p <> portal_1 p ->
      p_pos p' = (fst (portal_1 p), wrap64 (snd (portal_1 p) - 1))).
Proof.
  intros H Hnp. cbv zeta.
  destruct (update_map_effect _ _ H) as [(_ & H1 & H2 & _) Hcases].
  split; [exact H1 |]. split; [exact H2 |].
  assert (Hpos : p_pos (pacman s')
                 = if coord_eqb (p_pos (pacman s)) (portal_1 (pacman s))
                   then (fst (portal_2 (pacman s)),
                         wrap64 (snd (portal_2 (pacman s)) + 1))
                   else if coord_eqb (p_pos (pacman s)) (portal_2 (pacman s))
                        then (fst (portal_1 (pacman s)),
                              wrap64 (snd (portal_1 (pacman s)) - 1))
                        else p_pos (pacman s)).
  { unfold pellet_under_player, holds_pellet in Hnp.
    destruct Hcases as [(Hv & _) | [(Hv & _) | (_ & _ & _ & _ & Hp)]].
    - rewrite Hv in Hnp. discriminate.
    - rewrite Hv in Hnp. discriminate.
    - exact Hp. }
  split.
  - intros E. rewrite Hpos.
    rewrite (proj2 (coord_eqb_eq _ _) E). reflexivity.
  - intros E2 N1. rewrite Hpos.
    destruct (coord_eqb (p_pos (pacman s)) (portal_1 (pacman s))) eqn:E1.
    + apply coord_eqb_eq in E1. contradiction.
    + rewrite (proj2 (coord_eqb_eq _ _) E2). reflexivity.
Qed.

(** ** The loop body, part by part *)

Lemma enemy_move_frame game_map width height pacman blinky draws g g' draws' :
  enemy_move game_map width height pacman blinky draws g = Ok (g', draws') ->
  mode g' = mode g /\ icon g' = icon g /\ character g' = character g.
Proof.
  unfold enemy_move. intros H.
  destruct (ENEMY_MODE_eqb (mode g) FRIGHTENED).
  - bind_inv H. destruct a as [[np nm] rest].
    injection H as <- _. repeat split.
  - rewrite calculate_target_only_sets_target in H.
    bind_inv H. injection H as <- _. repeat split.
Qed.

Lemma player_move_frame game_map p p' :
  player_move game_map p = Ok p' ->
  score p' = score p /\ max_score p' = max_score p
  /\ portal_1 p' = portal_1 p /\ portal_2 p' = portal_2 p
  /\ is_over p' = is_over p.
Proof.
  unfold player_move. intros H.
  destruct (player_probe p) as [r c].
  bind_inv H. destruct (player_has_no_collision a);
    injection H as <-; repeat split.
Qed.

(** The move phase touches positions, animation, previous moves and
    targets only. *)
Lemma move_actors_frame draws s m draws' :
  move_actors draws s = Ok (m, draws') ->
  (game_vec m = game_vec s
   /\ frightened_countdown m = frightened_countdown s
   /\ frameCount m = frameCount s /\ secs m = secs s
   /\ game_is_running m = game_is_running s)
  /\ (score (pacman m) = score (pacman s)
      /\ max_score (pacman m) = max_score (pacman s)
      /\ portal_1 (pacman m) = portal_1 (pacman s)
      /\ portal_2 (pacman m) = portal_2 (pacman s)
      /\ is_over (pacman m) = is_over (pacman s))
  /\ map mode (ghosts m) = map mode (ghosts s)
  /\ map icon (ghosts m) = map icon (ghosts s).
Proof.
  unfold move_actors. intros H.
  bind_inv H.
  destruct (player_move_frame _ _ _ E) as (Ps & Pm & P1 & P2 & Po).
  bind_inv H. destruct a0 as [a1 d1].
  bind_inv H. destruct a0 as [b1 d2].
  bind_inv H. destruct a0 as [c1 d3].
  bind_inv H. destruct a0 as [e1 d4].
  injection H as <- _.
  destruct (enemy_move_frame _ _ _ _ _ _ _ _ _ E0) as (A1 & A2 & _).
  destruct (enemy_move_frame _ _ _ _ _ _ _ _ _ E1) as (B1 & B2 & _).
  destruct (enemy_move_frame _ _ _ _ _ _ _ _ _ E2) as (C1 & C2 & _).
  destruct (enemy_move_frame _ _ _ _ _ _ _ _ _ E3) as (D1 & D2 & _).
  split; [repeat split |]. split.
  - cbn [pacman set_pacman set_ghosts].
    split_ifs; cbn; repeat split; assumption.
  - unfold ghosts. cbn [ghost1 ghost2 ghost3 ghost4 set_ghosts map].
    split; congruence.
Qed.

Lemma advance_timers_frame s :
  game_vec (advance_timers s) = game_vec s
  /\ pacman (advance_timers s) = pacman s
  /\ game_is_running (advance_timers s) = game_is_running s
  /\ frameCount (advance_timers s) = frameCount s.
Proof.
  unfold advance_timers, map_ghosts, restore_icons.
  destruct (Z.eqb_spec (frameCount s) 0) as [E | E].
  - cbn [andb orb]. split_ifs; cbn; rewrite ?E; repeat split.
  - cbn [andb orb]. split_ifs; cbn; repeat split.
Qed.

(** The countdown loses one on the frame on which [frameCount] is 0, and
    on no other frame; the test [frameCount == 60] adds nothing once
    [wrap_frame] has run. *)
Lemma advance_timers_countdown s :
  frameCount s <> 60 ->
  0 <= frightened_countdown s < 2 ^ 31 ->
  frightened_countdown (advance_timers s)
  = if (frameCount s =? 0) && negb (frightened_countdown s =? 0)
    then frightened_countdown s - 1
    else frightened_countdown s.
Proof.
  intros H60 Hfc. unfold advance_timers, map_ghosts, restore_icons.
  destruct (Z.eqb_spec (frameCount s) 60) as [E60 | _]; [contradiction |].
  rewrite orb_false_r.
  destruct (frameCount s =? 0); cbn [andb];
    [| destruct (secs s =? 7); reflexivity].
  destruct (negb (secs s =? 7));
    cbn [frightened_countdown set_frameCount set_secs
         set_frightened_countdown];
    destruct (Z.eqb_spec (frightened_countdown s) 0) as [E0 | E0];
    cbn [negb]; try reflexivity;
    rewrite to_int_small by lia;
    split_ifs; reflexivity.
Qed.

(** When the countdown reaches 0 the glyphs come back; the modes are
    reset in the branch that counts seconds, and in the other branch
    [secs] is 7. *)
Lemma advance_timers_expiry s :
  frameCount s <> 60 ->
  0 <= frightened_countdown s < 2 ^ 31 ->
  frightened_countdown s <> 0 ->
  frightened_countdown (advance_timers s) = 0 ->
  own_icons (advance_timers s)
  /\ (all_normal (advance_timers s) \/ secs (advance_timers s) = 7).
Proof.
  intros H60 Hfc Hnz H0.
  pose proof (advance_timers_countdown s H60 Hfc) as Hc. rewrite H0 in Hc.
  revert H0. unfold advance_timers, map_ghosts, restore_icons.
  cbn [frightened_countdown set_frameCount set_secs set_frightened_countdown].
  destruct (Z.eqb_spec (frameCount s) 60) as [E60 | _]; [contradiction |].
  rewrite orb_false_r.
  destruct (Z.eqb_spec (frightened_countdown s) 0) as [E0 | _];
    [contradiction |].
  destruct (frameCount s =? 0); cbn [andb negb] in *; [| lia].
  rewrite to_int_small by lia.
  destruct (Z.eqb_spec (frightened_countdown s - 1) 0) as [E1 | E1];
    [| lia].
  destruct (Z.eqb_spec (secs s) 7) as [E7 | E7]; cbn [negb]; intros _.
  - split; [reflexivity |]. right. exact E7.
  - split; [reflexivity |]. left. reflexivity.
Qed.

Lemma begin_frame_frame s :
  game_vec (begin_frame s) = game_vec s
  /\ frightened_countdown (begin_frame s) = frightened_countdown s
  /\ secs (begin_frame s) = secs s
  /\ pacman (begin_frame s) = pacman s
  /\ frameCount (begin_frame s) = to_int (frameCount s + 1).
Proof.
  unfold begin_frame, map_ghosts. split_ifs; cbn; repeat split.
Qed.

Lemma poll_input_frame key s :
  (game_vec (poll_input key s) = game_vec s
   /\ frightened_countdown (poll_input key s) = frightened_countdown s
   /\ secs (poll_input key s) = secs s
   /\ frameCount (poll_input key s) = frameCount s)
  /\ (score (pacman (poll_input key s)) = score (pacman s)
      /\ max_score (pacman (poll_input key s)) = max_score (pacman s)
      /\ portal_1 (pacman (poll_input key s)) = portal_1 (pacman s)
      /\ portal_2 (pacman (poll_input key s)) = portal_2 (pacman s)
      /\ is_over (pacman (poll_input key s)) = is_over (pacman s)).
Proof.
  unfold poll_input, quit_on_q, steer.
  destruct key as [k |]; split_ifs; cbn; repeat split; assumption.
Qed.

Lemma wrap_frame_frame s :
  game_vec (wrap_frame s) = game_vec s
  /\ frightened_countdown (wrap_frame s) = frightened_countdown s
  /\ secs (wrap_frame s) = secs s
  /\ pacman (wrap_frame s) = pacman s
  /\ frameCount (wrap_frame s)
     = (if frameCount s =? 60 then 0 else frameCount s).
Proof.
  unfold wrap_frame. destruct (frameCount s =? 60); cbn; repeat split.
Qed.

Lemma before_moves_frame key s :
  let s1 := before_moves key s in
  (game_vec s1 = game_vec s
   /\ frightened_countdown s1 = frightened_countdown s
   /\ secs s1 = secs s)
  /\ (score (pacman s1) = score (pacman s)
      /\ max_score (pacman s1) = max_score (pacman s)
      /\ portal_1 (pacman s1) = portal_1 (pacman s)
      /\ portal_2 (pacman s1) = portal_2 (pacman s)
      /\ is_over (pacman s1) = is_over (pacman s))
  /\ frameCount s1 = (if to_int (frameCount s + 1) =? 60 then 0
                      else to_int (frameCount s + 1)).
Proof.
  cbv zeta. unfold before_moves.
  destruct (wrap_frame_frame (poll_input key (begin_frame s)))
    as (Wv & Wc & Ws & Wp & Wf).
  destruct (poll_input_frame key (begin_frame s))
    as ((Pv & Pc & Ps & Pf) & (Psc & Pm & P1 & P2 & Po)).
  destruct (begin_frame_frame s) as (Bv & Bc & Bs & Bp & Bf).
  rewrite Wv, Wc, Ws, Wp, Wf, Pv, Pc, Ps, Pf, Psc, Pm, P1, P2, Po,
    Bv, Bc, Bs, Bp, Bf.
  repeat split.
Qed.

(** Lines 599-615: with a nonzero countdown all four enemies are
    frightened and drawn as [X]; with a zero countdown the glyphs are
    kept, and the modes are kept or, from the seventh second on, all
    [NORMAL]. *)
Lemma before_moves_modes key s :
  let s1 := before_moves key s in
  (frightened_countdown s <> 0 -> all_frightened s1)
  /\ (frightened_countdown s = 0 ->
      map icon (ghosts s1) = map icon (ghosts s)
      /\ (secs s = 7 -> all_normal s1)
      /\ (all_normal s -> all_normal s1)).
Proof.
  cbv zeta.
  assert (G : forall t,
             ghosts (wrap_frame (poll_input key t)) = ghosts t).
  { intros t. unfold wrap_frame, poll_input, quit_on_q, steer.
    destruct key as [k |]; split_ifs; reflexivity. }
  unfold before_moves, all_frightened, all_normal. rewrite G.
  unfold begin_frame, map_ghosts. cbv zeta.
  cbn [secs set_frameCount].
  destruct (Z.eqb_spec (secs s) 7) as [E7 | E7];
    cbn [frightened_countdown set_ghosts set_frameCount];
    destruct (Z.eqb_spec (frightened_countdown s) 0) as [E0 | E0];
    cbn [negb]; (split; [intros Hnz | intros Hz]); try contradiction.
  - repeat split.
  - split; reflexivity.
  - split; [reflexivity |]. split; [intros H7; contradiction |].
    exact (fun H => H).
  - split; reflexivity.
Qed.

Lemma every_tenth_frame_spec draws s s2 draws' :
  every_tenth_frame draws s = Ok (s2, draws') ->
  (game_vec s2 = game_vec s /\ frameCount s2 = frameCount s)
  /\ (score (pacman s2) = score (pacman s)
      /\ max_score (pacman s2) = max_score (pacman s)
      /\ portal_1 (pacman s2) = portal_1 (pacman s)
      /\ portal_2 (pacman s2) = portal_2 (pacman s)
      /\ is_over (pacman s2) = is_over (pacman s))
  /\ (frameCount s <> 60 -> 0 <= frightened_countdown s < 2 ^ 31 ->
      frightened_countdown s2
      = (if (frameCount s =? 0) && negb (frightened_countdown s =? 0)
         then frightened_countdown s - 1
         else frightened_countdown s)
      /\ (frightened_countdown s <> 0 -> frightened_countdown s2 = 0 ->
          own_icons s2 /\ (all_normal s2 \/ secs s2 = 7))).
Proof.
  unfold every_tenth_frame. intros H.
  destruct (Z.eqb_spec (Z.rem (frameCount s) 10) 0) as [E | E].
  - bind_inv H. destruct a as [m d]. injection H as <- <-.
    destruct (move_actors_frame _ _ _ _ E0)
      as ((Mv & Mc & Mf & Ms & Mr) & (Psc & Pm & P1 & P2 & Po) & Mm & Mi).
    destruct (advance_timers_frame m) as (Av & Ap & Ar & Af).
    rewrite Av, Ap, Af.
    split; [split; congruence |].
    split; [repeat split; assumption |].
    intros H60 Hfc. rewrite <- Mf in H60. rewrite <- Mc in Hfc.
    rewrite <- Mf, <- Mc.
    split; [apply advance_timers_countdown; assumption |].
    apply advance_timers_expiry; assumption.
  - injection H as <- <-.
    split; [split; reflexivity |].
    split; [repeat split |].
    intros H60 Hfc.
    destruct (Z.eqb_spec (frameCount s) 0) as [E0 | E0].
    + rewrite E0 in E. cbn in E. contradiction.
    + cbn [andb]. split; [reflexivity |].
      intros Hnz Hz. contradiction.
Qed.

Lemma tick_inv key draws s s' draws' :
  tick key draws s = Ok (s', draws') ->
  exists s2,
    every_tenth_frame draws (before_moves key s) = Ok (s2, draws')
    /\ update_map s2 = Ok s'.
Proof.
  unfold tick. intros H. bind_inv H. destruct a as [s2 d].
  bind_inv H. injection H as <- <-.
  exists s2. split; [reflexivity | exact E0].
Qed.

Lemma collide_ghosts s :
  (own_icons s -> own_icons (collide s))
  /\ (all_normal s -> all_normal (collide s)).
Proof.
  unfold own_icons, all_normal, collide, resolve_collisions, ghosts.
  split; intros H; injection H as H1 H2 H3 H4;
    split_ifs; cbn; rewrite ?H1, ?H2, ?H3, ?H4; reflexivity.
Qed.

Lemma update_map_ghosts s s' :
  update_map s = Ok s' ->
  (own_icons s -> own_icons s')
  /\ (all_normal s -> all_normal s').
Proof.
  intros H.
  destruct (update_map_inv _ _ H) as (m & s1 & s2 & Ho & He & Hd & ->).
  destruct (eat_or_teleport_spec _ _ He)
    as (ch & _ & (_ & G1 & G2 & G3 & G4 & _) & _).
  destruct (draw_actors_frame _ _ Hd) as [m' ->].
  assert (G : ghosts (set_game_map s1 m') = ghosts s).
  { unfold ghosts. cbn. cbn in G1, G2, G3, G4. congruence. }
  destruct (collide_ghosts (set_game_map s1 m')) as [Ci Cn].
  unfold own_icons, all_normal in *. rewrite G in Ci, Cn.
  split; assumption.
Qed.

(** ** Frightened mode *)

(** C10.  In an iteration that starts with a nonzero countdown, the
    state handed to the move phase, and after it to [update_map] with
    its collision code, has all four enemies in [FRIGHTENED] mode with
    the glyph [X], whatever their modes were before -- in particular
    [NORMAL] for an enemy eaten in the previous iteration.  Each enemy
    then moves by the random walk. *)
Theorem frightened_mode_is_forced key draws s :
  frightened_countdown s <> 0 ->
  all_frightened (before_moves key s)
  /\ tick key draws s
     = (' (s2, draws') <- every_tenth_frame draws (before_moves key s) ;;
        s3 <- update_map s2 ;; Ok (s3, draws'))
  /\ forall g game_map width height pacman blinky d,
      In g (ghosts (before_moves key s)) ->
      enemy_move game_map width height pacman blinky d g
      = (' (np, nm, rest) <-
           wander game_map width height g [false; false; false; false] d ;;
         Ok (set_e_pos (set_prev_move g nm) np, rest)).
Proof.
  intros Hnz.
  destruct (before_moves_modes key s) as [Hf _]. specialize (Hf Hnz).
  split; [exact Hf |]. split; [reflexivity |].
  intros g gm w h p bl d Hin.
  destruct Hf as [Hm _]. unfold ghosts in *. cbn [map] in Hm.
  injection Hm as M1 M2 M3 M4.
  unfold enemy_move.
  destruct Hin as [<- | [<- | [<- | [<- | []]]]];
    rewrite ?M1, ?M2, ?M3, ?M4; reflexivity.
Qed.

(** The player on a power pellet together with a frightened ghost 1:
    [update_map] arms the countdown and makes the eaten ghost [NORMAL];
    in the next iteration it is frightened again before anything
    moves. *)
Lemma frightened_mode_is_forced_witness :
  let s := after_update_map
             (with_scared_ghost1 (0, 0) 3 (game_on ["@"%string] (0, 0))) in
  mode (ghost1 s) = NORMAL
  /\ frightened_countdown s = 10
  /\ all_frightened (before_moves None s).
Proof.
  cbv zeta. split; [vm_compute; reflexivity |].
  split; [vm_compute; reflexivity |].
  apply (frightened_mode_is_forced None []
           (after_update_map
              (with_scared_ghost1 (0, 0) 3 (game_on ["@"%string] (0, 0))))).
  vm_compute. discriminate.
Defined.

(** What [update_map] takes out of the persistent layer. *)
Lemma update_map_layer s s' :
  update_map s = Ok s' ->
  (occurrences "." (game_vec s') = occurrences "." (game_vec s) - 1
   /\ occurrences "@" (game_vec s') = occurrences "@" (game_vec s)
   /\ score (pacman s') = to_int (score (pacman s) + 10)
   /\ frightened_countdown s' = frightened_countdown s
   /\ holds_pellet (game_vec s) (p_pos (pacman s)) = true
   /\ holds_pellet (game_vec s') (p_pos (pacman s)) = false
   \/ occurrences "." (game_vec s') = occurrences "." (game_vec s)
      /\ occurrences "@" (game_vec s') = occurrences "@" (game_vec s) - 1
      /\ score (pacman s') = to_int (score (pacman s) + 50)
      /\ frightened_countdown s' = 10
      /\ holds_pellet (game_vec s) (p_pos (pacman s)) = true
      /\ holds_pellet (game_vec s') (p_pos (pacman s)) = false
   \/ game_vec s' = game_vec s
      /\ score (pacman s') = score (pacman s)
      /\ frightened_countdown s' = frightened_countdown s)
  /\ forall cell, holds_pellet (game_vec s) cell = false ->
                  holds_pellet (game_vec s') cell = false.
Proof.
  intros H.
  destruct (update_map_effect _ _ H) as [_ Hcases]. cbv zeta in Hcases.
  assert (Hkeep : forall x vec',
            at2 (game_vec s) (fst (p_pos (pacman s)))
                (snd (p_pos (pacman s))) = Ok x ->
            assign2 (game_vec s) (fst (p_pos (pacman s)))
                    (snd (p_pos (pacman s))) " " = Ok vec' ->
            (forall z, occurrences z vec'
                       = occurrences z (game_vec s)
                         - (if Ascii.eqb x z then 1 else 0)
                         + (if Ascii.eqb " " z then 1 else 0))
            /\ holds_pellet vec' (p_pos (pacman s)) = false
            /\ forall cell, holds_pellet (game_vec s) cell = false ->
                            holds_pellet vec' cell = false).
  { intros x vec' Hx Ha.
    destruct (assign2_spec _ _ _ x " " Hx) as (v & Hv & Hocc & Hcells & Hnew).
    rewrite Ha in Hv. injection Hv as <-.
    split; [exact Hocc |]. split.
    - unfold holds_pellet. rewrite Hnew. reflexivity.
    - intros cell Hc. unfold holds_pellet in *.
      destruct (at2 vec' (fst cell) (snd cell)) as [ch |] eqn:Ech;
        [| reflexivity].
      destruct (Hcells _ _ _ Ech) as [-> | Hold]; [reflexivity |].
      rewrite Hold in Hc. exact Hc. }
  destruct Hcases as [(Hv & Ha & Hs & _ & Hc)
                     | [(Hv & Ha & Hs & _ & Hc) | (_ & Hg & Hs & Hc & _)]].
  - destruct (Hkeep _ _ Hv Ha) as (Hocc & Hgone & Hperm).
    split; [| exact Hperm]. left.
    rewrite (Hocc "."), (Hocc "@"). cbn [Ascii.eqb Bool.eqb andb].
    unfold holds_pellet at 1. rewrite Hv.
    repeat split; try assumption; lia.
  - destruct (Hkeep _ _ Hv Ha) as (Hocc & Hgone & Hperm).
    split; [| exact Hperm]. right. left.
    rewrite (Hocc "."), (Hocc "@"). cbn [Ascii.eqb Bool.eqb andb].
    unfold holds_pellet at 1. rewrite Hv.
    repeat split; try assumption; lia.
  - split; [| intros cell Hcell; rewrite Hg; exact Hcell].
    right. right. repeat split; assumption.
Qed.

(** ** The frightened countdown *)

(** C8, as the code has it.  Eating a power pellet sets the countdown to
    10.  Otherwise an iteration takes one off a nonzero countdown when
    [frameCount] comes round to 0, which happens on one iteration in 60,
    and leaves it alone on every other iteration; the comparison of
    [frameCount] with 60 in the timer code is never true.  In the
    iteration in which the countdown reaches 0 the glyphs are restored,
    and at the start of the next iteration all enemies are [NORMAL]. *)
Theorem frightened_countdown_schedule key draws s s' draws' :
  tick key draws s = Ok (s', draws') ->
  0 <= frameCount s < 60 ->
  0 <= frightened_countdown s < 2 ^ 31 ->
  frameCount s' = (frameCount s + 1) mod 60
  /\ frameCount (before_moves key s) <> 60
  /\ (power_pellets_eaten s s' = 1 /\ frightened_countdown s' = 10
      \/ power_pellets_eaten s s' = 0
         /\ frightened_countdown s'
            = if (frameCount s' =? 0) && negb (frightened_countdown s =? 0)
              then frightened_countdown s - 1
              else frightened_countdown s)
  /\ (frightened_countdown s <> 0 -> frightened_countdown s' = 0 ->
      own_icons s'
      /\ forall key', all_normal (before_moves key' s')
                      /\ own_icons (before_moves key' s')).
Proof.
  intros H Hf Hc.
  destruct (tick_inv _ _ _ _ _ H) as (s2 & He & Hu).
  destruct (before_moves_frame key s) as ((Bv & Bc & Bs) & _ & Bf).
  cbv zeta in Bv, Bc, Bs, Bf.
  rewrite to_int_small in Bf by lia.
  assert (Hframe : frameCount (before_moves key s) = (frameCount s + 1) mod 60).
  { rewrite Bf. destruct (Z.eqb_spec (frameCount s + 1) 60) as [E | E].
    - rewrite E. reflexivity.
    - rewrite Z.mod_small by lia. reflexivity. }
  assert (H60 : frameCount (before_moves key s) <> 60).
  { rewrite Hframe.
    pose proof (Z.mod_pos_bound (frameCount s + 1) 60 ltac:(lia)). lia. }
  destruct (every_tenth_frame_spec _ _ _ _ He) as ((Ev & Ef) & _ & Et).
  rewrite <- Bc in Hc. destruct (Et H60 Hc) as [Ecount Eexp].
  rewrite Bc in Ecount, Eexp.
  destruct (update_map_effect _ _ Hu) as [(_ & _ & _ & Us & Uf & _) _].
  destruct (update_map_layer _ _ Hu) as [Hlayer _].
  destruct (update_map_ghosts _ _ Hu) as [Gi Gn].
  assert (Hfs' : frameCount s' = frameCount (before_moves key s))
    by congruence.
  split; [congruence |]. split; [exact H60 |].
  unfold power_pellets_eaten. rewrite <- Bv, <- Ev, Hfs'.
  split.
  - destruct Hlayer as [(_ & Ha & _ & Hk & _)
                       | [(_ & Ha & _ & Hk & _) | (Hg & _ & Hk)]].
    + right. split; [lia | congruence].
    + left. split; [lia | exact Hk].
    + right. split; [rewrite Hg; lia | congruence].
  - intros Hnz Hz.
    assert (Hz2 : frightened_countdown s2 = 0).
    { destruct Hlayer as [(_ & _ & _ & Hk & _)
                         | [(_ & _ & _ & Hk & _) | (_ & _ & Hk)]];
        congruence. }
    destruct (Eexp Hnz Hz2) as [Oi On].
    split; [exact (Gi Oi) |].
    intros key'.
    destruct (before_moves_modes key' s') as [_ Hzero].
    destruct (Hzero Hz) as (Hicons & H7 & Hkeep).
    split.
    + destruct On as [On | On].
      * exact (Hkeep (Gn On)).
      * apply H7. congruence.
    + unfold own_icons in *. rewrite Hicons. exact (Gi Oi).
Qed.

(** C8, as the claim has it, fails.  [frameCount] is 59 and the
    countdown 10; the next iteration is the one on which the frame
    counter reaches 60 and is set back to 0.  It takes one off the
    countdown, not two, with [secs] at 7 as well as before; 60
    iterations later the countdown is still 9. *)
Lemma countdown_loses_one_per_second :
  let draws := List.concat (repeat [0; 1; 2; 3] 30) in
  let late := game_at_frame 59 7 10 in
  let early := game_at_frame 59 3 10 in
  tick None draws late = Ok (after_tick None draws late)
  /\ frameCount (before_moves None late) = 0
  /\ frightened_countdown (fst (after_tick None draws late)) = 9
  /\ tick None draws early = Ok (after_tick None draws early)
  /\ frightened_countdown (fst (after_tick None draws early)) = 9
  /\ run (repeat None 60) draws late
     = Ok (after_run (repeat None 60) draws late)
  /\ frameCount (fst (after_run (repeat None 60) draws late)) = 59
  /\ frightened_countdown (fst (after_run (repeat None 60) draws late)) = 9
  /\ frightened_countdown (fst (after_run (repeat None 61) draws late)) = 8.
Proof.
  cbv zeta.
  repeat match goal with
         | |- _ /\ _ => split
         end; vm_compute; reflexivity.
Qed.

(** The last second of a frightened period that began before the
    seventh second: the countdown goes from 1 to 0, and the enemies
    start the next iteration in [NORMAL] mode with their own glyphs. *)
Lemma frightened_countdown_schedule_witness :
  let s := game_at_frame 59 3 1 in
  let s' := fst (after_tick None [0; 1; 2; 3; 0; 1; 2; 3] s) in
  frameCount s' = 0
  /\ frightened_countdown s' = 0
  /\ all_normal (before_moves None s')
  /\ own_icons (before_moves None s').
Proof.
  cbv zeta.
  assert (H : tick None [0; 1; 2; 3; 0; 1; 2; 3] (game_at_frame 59 3 1)
              = Ok (after_tick None [0; 1; 2; 3; 0; 1; 2; 3]
                               (game_at_frame 59 3 1)))
    by (vm_compute; reflexivity).
  destruct (after_tick None [0; 1; 2; 3; 0; 1; 2; 3] (game_at_frame 59 3 1))
    as [s' d'] eqn:E.
  assert (Hz : frightened_countdown s' = 0).
  { replace s' with (fst (after_tick None [0; 1; 2; 3; 0; 1; 2; 3]
                                     (game_at_frame 59 3 1)))
      by (rewrite E; reflexivity).
    vm_compute. reflexivity. }
  destruct (frightened_countdown_schedule None _ _ _ _ H) as (Hf & _ & _ & Hx).
  - vm_compute. split; [discriminate | reflexivity].
  - vm_compute. split; [discriminate | reflexivity].
  - cbn [fst]. split; [exact Hf |]. split; [exact Hz |].
    apply Hx; [vm_compute; discriminate | exact Hz].
Defined.

(** ** The score *)

Lemma count_in_filter c buff :
  found_in loader_valid_chars c = true ->
  count_in c (filter (found_in loader_valid_chars) buff) = count_in c buff.
Proof.
  intros Hc. induction buff as [| x buff IH]; [reflexivity |].
  cbn [filter]. destruct (found_in loader_valid_chars x) eqn:Hx.
  - rewrite !count_in_cons, IH. reflexivity.
  - rewrite count_in_cons, IH.
    destruct (Ascii.eqb_spec x c) as [-> | _]; [congruence | lia].
Qed.

Lemma occurrences_filter c lines :
  found_in loader_valid_chars c = true ->
  occurrences c (map (filter (found_in loader_valid_chars)) lines)
  = occurrences c lines.
Proof.
  intros Hc. induction lines as [| buff lines IH]; [reflexivity |].
  cbn [map]. rewrite !occurrences_cons, IH, count_in_filter by exact Hc.
  reflexivity.
Qed.

Lemma occurrences_nonneg c vec : 0 <= occurrences c vec.
Proof. unfold occurrences. lia. Qed.

(** The state a game starts in. *)
Lemma initial_game_spec lines grid s0 :
  initial_game (Some lines) grid = Ok s0 ->
  points_left lines < 2 ^ 31 ->
  score (pacman s0) = 0
  /\ max_score (pacman s0) = points_left lines
  /\ points_left (game_vec s0) = points_left lines.
Proof.
  unfold initial_game, get_map_str. cbn [bind]. intros H Hfit.
  pose proof (scan_lines_spec lines [] initial_pacman) as L. cbv zeta in L.
  destruct (scan_lines lines [] initial_pacman) as [vec p].
  cbn [fst snd app] in L.
  destruct L as (Lv & Lm & Li & _ & _ & _ & Ls & _).
  injection H as <-. cbn [pacman score max_score game_vec].
  pose proof (occurrences_nonneg "." lines).
  pose proof (occurrences_nonneg "@" lines).
  unfold points_left in *.
  assert (Hint : is_int (max_score p)).
  { apply Li. unfold is_int. cbn. lia. }
  split; [exact Ls |]. split.
  - rewrite <- (to_int_small (max_score p)) by exact Hint.
    rewrite Lm. cbn [max_score initial_pacman].
    apply to_int_small. lia.
  - rewrite Lv, !occurrences_filter by reflexivity. reflexivity.
Qed.

Lemma index_replace_nth {A : Type} (l : list A) n a i :
  index (replace_nth l n a) i
  = match index l i with
    | Ok x => if Nat.eqb n (Z.to_nat i) then Ok a else Ok x
    | Err e => Err e
    end.
Proof.
  unfold index. rewrite replace_nth_length.
  destruct ((i <? 0) || (Z.of_nat (List.length l) <=? i)); [reflexivity |].
  rewrite nth_error_replace_nth.
  destruct (nth_error l (Z.to_nat i)); destruct (Nat.eqb n (Z.to_nat i));
    reflexivity.
Qed.

Lemma assign2_inv (g : Grid) r c x g' :
  assign2 g r c x = Ok g' ->
  exists row,
    index g r = Ok row
    /\ 0 <= r < Z.of_nat (List.length g)
    /\ 0 <= c < Z.of_nat (List.length row)
    /\ nth_error g (Z.to_nat r) = Some row
    /\ g' = replace_nth g (Z.to_nat r) (replace_nth row (Z.to_nat c) x).
Proof.
  unfold assign2. intros H. bind_inv H. bind_inv H.
  exists a. split; [reflexivity |].
  apply index_Ok_inv in E. destruct E as [Hr Hrow].
  unfold assign in E0, H.
  destruct (Z.ltb_spec c 0); [discriminate |].
  destruct (Z.leb_spec (Z.of_nat (List.length a)) c); [discriminate |].
  destruct (Z.ltb_spec r 0); [discriminate |].
  destruct (Z.leb_spec (Z.of_nat (List.length g)) r); [discriminate |].
  cbn [orb] in E0, H. injection E0 as <-. injection H as <-.
  repeat split; try lia. exact Hrow.
Qed.

(** Reading after one assignment. *)
Lemma at2_assign2 (g : Grid) r c x g' r' c' :
  assign2 g r c x = Ok g' ->
  at2 g' r' c'
  = match at2 g r' c' with
    | Ok y => if coord_eqb (r', c') (r, c) then Ok x else Ok y
    | Err e => Err e
    end.
Proof.
  intros H.
  destruct (assign2_inv _ _ _ _ _ H) as (row & Hidx & Hr & Hc & Hn & ->).
  unfold at2, coord_eqb. cbn [fst snd].
  rewrite index_replace_nth.
  destruct (index g r') as [row' | e] eqn:Er'; [| reflexivity].
  apply index_Ok_inv in Er'. destruct Er' as [Hr' Hn'].
  destruct (Nat.eqb_spec (Z.to_nat r) (Z.to_nat r')) as [E | E]; cbn [bind].
  - assert (r' = r) by lia. subst r'.
    rewrite Hn in Hn'. injection Hn' as <-.
    rewrite Z.eqb_refl. cbn [andb].
    rewrite index_replace_nth.
    destruct (index row c') as [y | e] eqn:Ec'; [| reflexivity].
    apply index_Ok_inv in Ec'. destruct Ec' as [Hc' _].
    destruct (Nat.eqb_spec (Z.to_nat c) (Z.to_nat c')) as [E' | E'];
      destruct (Z.eqb_spec c' c); try reflexivity; lia.
  - destruct (Z.eqb_spec r' r) as [-> | _]; [contradiction |].
    cbn [andb]. destruct (index row' c'); reflexivity.
Qed.

(** One iteration changes the score and the persistent layer only
    through [update_map]. *)
Lemma tick_layer key draws s s' draws' :
  tick key draws s = Ok (s', draws') ->
  max_score (pacman s') = max_score (pacman s)
  /\ (pellets_eaten s s' = 1 /\ power_pellets_eaten s s' = 0
      /\ score (pacman s') = to_int (score (pacman s) + 10)
      \/ pellets_eaten s s' = 0 /\ power_pellets_eaten s s' = 1
         /\ score (pacman s') = to_int (score (pacman s) + 50)
      \/ game_vec s' = game_vec s /\ score (pacman s') = score (pacman s))
  /\ (forall cell, holds_pellet (game_vec s) cell = false ->
                   holds_pellet (game_vec s') cell = false)
  /\ (score (pacman s') <> score (pacman s) ->
      exists cell, holds_pellet (game_vec s) cell = true
                   /\ holds_pellet (game_vec s') cell = false).
Proof.
  intros H.
  destruct (tick_inv _ _ _ _ _ H) as (s2 & He & Hu).
  destruct (before_moves_frame key s) as ((Bv & _) & (Bs & Bm & _) & _).
  cbv zeta in Bv, Bs, Bm.
  destruct (every_tenth_frame_spec _ _ _ _ He) as ((Ev & _) & (Es & Em & _) & _).
  destruct (update_map_effect _ _ Hu) as [(Um & _) _].
  destruct (update_map_layer _ _ Hu) as [Hlayer Hperm].
  assert (Hv : game_vec s2 = game_vec s) by congruence.
  assert (Hs : score (pacman s2) = score (pacman s)) by congruence.
  unfold pellets_eaten, power_pellets_eaten.
  rewrite Hv, Hs in *.
  split; [congruence |].
  destruct Hlayer as [(Hd & Ha & Hsc & _ & Hb & Hg)
                     | [(Hd & Ha & Hsc & _ & Hb & Hg) | (Hg & Hsc & _)]].
  - split; [left; repeat split; (lia || assumption) |].
    split; [exact Hperm |]. intros _. eauto.
  - split; [right; left; repeat split; (lia || assumption) |].
    split; [exact Hperm |]. intros _. eauto.
  - split; [right; right; split; assumption |].
    split; [exact Hperm |]. intros Hne. contradiction.
Qed.

(** The invariant of the loop: no negative score, and the score and the
    points left in the persistent layer add up to [max_score], which
    fits an [int]. *)
Lemma tick_keeps_account key draws s s' draws' :
  tick key draws s = Ok (s', draws') ->
  0 <= score (pacman s) ->
  score (pacman s) + points_left (game_vec s) = max_score (pacman s) ->
  max_score (pacman s) < 2 ^ 31 ->
  (0 <= score (pacman s')
   /\ score (pacman s') + points_left (game_vec s') = max_score (pacman s')
   /\ max_score (pacman s') < 2 ^ 31)
  /\ 0 <= pellets_eaten s s' /\ 0 <= power_pellets_eaten s s'
  /\ score (pacman s') - score (pacman s)
     = 10 * pellets_eaten s s' + 50 * power_pellets_eaten s s'.
Proof.
  intros H H0 Hsum Hmax.
  destruct (tick_layer _ _ _ _ _ H) as (Hm & Hcases & _).
  unfold pellets_eaten, power_pellets_eaten, points_left in *.
  pose proof (occurrences_nonneg "." (game_vec s')).
  pose proof (occurrences_nonneg "@" (game_vec s')).
  pose proof (occurrences_nonneg "." (game_vec s)).
  pose proof (occurrences_nonneg "@" (game_vec s)).
  rewrite Hm.
  destruct Hcases as [(Hd & Ha & Hs) | [(Hd & Ha & Hs) | (Hg & Hs)]].
  - rewrite to_int_small in Hs by lia. lia.
  - rewrite to_int_small in Hs by lia. lia.
  - rewrite Hg, Hs. lia.
Qed.

Lemma run_keeps_account keys : forall draws s s' draws',
  run keys draws s = Ok (s', draws') ->
  0 <= score (pacman s) ->
  score (pacman s) + points_left (game_vec s) = max_score (pacman s) ->
  max_score (pacman s) < 2 ^ 31 ->
  (0 <= score (pacman s')
   /\ score (pacman s') + points_left (game_vec s') = max_score (pacman s')
   /\ max_score (pacman s') < 2 ^ 31)
  /\ 0 <= pellets_eaten s s' /\ 0 <= power_pellets_eaten s s'
  /\ score (pacman s') - score (pacman s)
     = 10 * pellets_eaten s s' + 50 * power_pellets_eaten s s'
  /\ forall cell, holds_pellet (game_vec s) cell = false ->
                  holds_pellet (game_vec s') cell = false.
Proof.
  induction keys as [| key keys IH]; intros draws s s' draws' H H0 Hsum Hmax.
  - injection H as <- _. unfold pellets_eaten, power_pellets_eaten.
    repeat split; try assumption; try lia. intros cell Hc. exact Hc.
  - cbn [run] in H. destruct (game_is_running s).
    + bind_inv H. destruct a as [s1 d1].
      destruct (tick_keeps_account _ _ _ _ _ E H0 Hsum Hmax)
        as ((I0 & Isum & Imax) & Td & Ta & Ts).
      destruct (tick_layer _ _ _ _ _ E) as (_ & _ & Tperm & _).
      destruct (IH _ _ _ _ H I0 Isum Imax)
        as (J & Rd & Ra & Rs & Rperm).
      unfold pellets_eaten, power_pellets_eaten in *.
      split; [exact J |]. repeat split; try lia.
      intros cell Hc. apply Rperm, Tperm, Hc.
    + injection H as <- _. unfold pellets_eaten, power_pellets_eaten.
      repeat split; try assumption; try lia. intros cell Hc. exact Hc.
Qed.

(** ** The pellets the player eats *)

Lemma holds_pellet_split vec cell :
  holds_pellet vec cell = holds "." vec cell || holds "@" vec cell.
Proof.
  unfold holds_pellet, holds.
  destruct (at2 vec (fst cell) (snd cell)); reflexivity.
Qed.

Lemma holds_exclusive vec cell :
  holds "." vec cell = true -> holds "@" vec cell = false.
Proof.
  unfold holds. destruct (at2 vec (fst cell) (snd cell)) as [x |];
    [| reflexivity].
  intros H. apply Ascii.eqb_eq in H. subst x. reflexivity.
Qed.

Lemma coord_eqb_refl c : coord_eqb c c = true.
Proof. apply coord_eqb_eq. reflexivity. Qed.

(** What one call of [update_map] eats: the pellet or power pellet of
    the persistent layer on the player's cell, and nothing else. *)
Lemma update_map_eats s s' :
  update_map s = Ok s' ->
  (forall c, at2 (game_vec s') (fst c) (snd c)
             = if holds_pellet (game_vec s) (p_pos (pacman s))
                  && coord_eqb c (p_pos (pacman s))
               then Ok " " else at2 (game_vec s) (fst c) (snd c))
  /\ (forall ch, ch = "." \/ ch = "@" ->
        occurrences ch (game_vec s) - occurrences ch (game_vec s')
        = if holds ch (game_vec s) (p_pos (pacman s)) then 1 else 0)
  /\ score (pacman s')
     = (if holds "." (game_vec s) (p_pos (pacman s))
        then to_int (score (pacman s) + 10)
        else if holds "@" (game_vec s) (p_pos (pacman s))
             then to_int (score (pacman s) + 50)
             else score (pacman s)).
Proof.
  intros H.
  destruct (update_map_effect _ _ H) as [_ Hcases]. cbv zeta in Hcases.
  unfold pellet_under_player in Hcases.
  rewrite holds_pellet_split. unfold holds.
  rewrite holds_pellet_split in Hcases. unfold holds in Hcases.
  destruct (p_pos (pacman s)) as [pr pc]. cbn [fst snd] in *.
  assert (Hread : forall x vec' c,
            at2 (game_vec s) pr pc = Ok x ->
            assign2 (game_vec s) pr pc " " = Ok vec' ->
            at2 vec' (fst c) (snd c)
            = if coord_eqb c (pr, pc) then Ok " "
              else at2 (game_vec s) (fst c) (snd c)).
  { intros x vec' [r c] Hx Ha. cbn [fst snd].
    rewrite (at2_assign2 _ _ _ _ _ r c Ha).
    destruct (coord_eqb (r, c) (pr, pc)) eqn:E.
    - apply coord_eqb_eq in E. injection E as -> ->. rewrite Hx. reflexivity.
    - destruct (at2 (game_vec s) r c); reflexivity. }
  assert (Hcount : forall x vec' z,
            at2 (game_vec s) pr pc = Ok x ->
            assign2 (game_vec s) pr pc " " = Ok vec' ->
            occurrences z (game_vec s) - occurrences z vec'
            = (if Ascii.eqb x z then 1 else 0)
              - (if Ascii.eqb " " z then 1 else 0)).
  { intros x vec' z Hx Ha.
    destruct (assign2_spec _ _ _ x " " Hx) as (v & Hv & Hocc & _).
    rewrite Ha in Hv. injection Hv as <-. rewrite Hocc. lia. }
  destruct Hcases as [(Hv & Ha & Hs & _)
                     | [(Hv & Ha & Hs & _) | (Hp & Hg & Hs & _)]].
  - rewrite Hv. cbn [Ascii.eqb Bool.eqb andb orb].
    split; [intros c; exact (Hread _ _ c Hv Ha) |].
    split; [| exact Hs].
    intros ch [-> | ->]; rewrite (Hcount _ _ _ Hv Ha); reflexivity.
  - rewrite Hv. cbn [Ascii.eqb Bool.eqb andb orb].
    split; [intros c; exact (Hread _ _ c Hv Ha) |].
    split; [| exact Hs].
    intros ch [-> | ->]; rewrite (Hcount _ _ _ Hv Ha); reflexivity.
  - rewrite Hp, Hg. cbn [andb].
    apply orb_false_iff in Hp. destruct Hp as [Hd Ha].
    split; [reflexivity |].
    destruct (at2 (game_vec s) pr pc) as [x |].
    + rewrite Hd, Ha. split; [| exact Hs].
      intros ch [-> | ->]; rewrite ?Hd, ?Ha; lia.
    + split; [| exact Hs]. intros ch _. lia.
Qed.

(** One iteration eats what lies on the cell the player stands on when
    it calls [update_map]. *)
Lemma tick_eats key draws s s' draws' :
  tick key draws s = Ok (s', draws') ->
  (forall c, at2 (game_vec s') (fst c) (snd c)
             = if holds_pellet (game_vec s) (cell_at_update key draws s)
                  && coord_eqb c (cell_at_update key draws s)
               then Ok " " else at2 (game_vec s) (fst c) (snd c))
  /\ (forall ch, ch = "." \/ ch = "@" ->
        occurrences ch (game_vec s) - occurrences ch (game_vec s')
        = if holds ch (game_vec s) (cell_at_update key draws s)
          then 1 else 0)
  /\ score (pacman s')
     = (if holds "." (game_vec s) (cell_at_update key draws s)
        then to_int (score (pacman s) + 10)
        else if holds "@" (game_vec s) (cell_at_update key draws s)
             then to_int (score (pacman s) + 50)
             else score (pacman s)).
Proof.
  intros H.
  destruct (tick_inv _ _ _ _ _ H) as (s2 & He & Hu).
  destruct (before_moves_frame key s) as ((Bv & _) & (Bs & _) & _).
  cbv zeta in Bv, Bs.
  destruct (every_tenth_frame_spec _ _ _ _ He) as ((Ev & _) & (Es & _) & _).
  unfold cell_at_update. rewrite He.
  pose proof (update_map_eats _ _ Hu) as U.
  rewrite Ev, Bv, Es, Bs in U. exact U.
Qed.

Lemma existsb_coord_In c cells :
  existsb (coord_eqb c) cells = true <-> In c cells.
Proof.
  rewrite existsb_exists. split.
  - intros (x & Hin & E). apply coord_eqb_eq in E. subst x. exact Hin.
  - intros Hin. exists c. split; [exact Hin | apply coord_eqb_refl].
Qed.

Lemma distinct_In c cells : In c (distinct cells) <-> In c cells.
Proof.
  induction cells as [| x cells IH]; [reflexivity |].
  cbn [distinct]. destruct (existsb (coord_eqb x) cells) eqn:E.
  - rewrite IH. apply (proj1 (existsb_coord_In _ _)) in E. split.
    + intros Hin. right. exact Hin.
    + intros [<- | Hin]; assumption.
  - cbn [In]. rewrite IH. reflexivity.
Qed.

Lemma distinct_NoDup cells : NoDup (distinct cells).
Proof.
  induction cells as [| x cells IH]; [constructor |].
  cbn [distinct]. destruct (existsb (coord_eqb x) cells) eqn:E;
    [exact IH |].
  constructor; [| exact IH].
  intros Hin. apply (proj1 (distinct_In _ _)) in Hin.
  apply (proj2 (existsb_coord_In _ _)) in Hin. congruence.
Qed.

(** Counting with one cell taken out. *)
Lemma filter_without (h h' : coord -> bool) c0 l :
  (forall c, h' c = h c && negb (coord_eqb c c0)) ->
  ~ In c0 l -> filter h' l = filter h l.
Proof.
  intros Hh. induction l as [| x l IH]; intros Hnot; [reflexivity |].
  cbn [filter]. rewrite Hh.
  destruct (coord_eqb x c0) eqn:E.
  - apply coord_eqb_eq in E. subst x. exfalso. apply Hnot. left. reflexivity.
  - rewrite andb_true_r, IH; [reflexivity |].
    intros Hin. apply Hnot. right. exact Hin.
Qed.

Lemma filter_once (h h' : coord -> bool) c0 l :
  (forall c, h' c = h c && negb (coord_eqb c c0)) ->
  NoDup l -> In c0 l ->
  List.length (filter h l)
  = ((if h c0 then 1 else 0) + List.length (filter h' l))%nat.
Proof.
  intros Hh Hnd. induction Hnd as [| x l Hx Hnd IH]; intros Hin;
    [contradiction |].
  cbn [filter]. rewrite (Hh x).
  destruct (coord_eqb x c0) eqn:E.
  - apply coord_eqb_eq in E. subst x.
    rewrite andb_false_r, (filter_without h h' c0 l Hh Hx).
    destruct (h c0); reflexivity.
  - rewrite andb_true_r.
    destruct Hin as [-> | Hin]; [rewrite coord_eqb_refl in E; discriminate |].
    specialize (IH Hin).
    destruct (h x); cbn [List.length]; rewrite IH;
      destruct (h c0); reflexivity.
Qed.

Lemma cells_holding_cons ch vec vec' c0 cells :
  (forall c, holds ch vec' c = holds ch vec c && negb (coord_eqb c c0)) ->
  cells_holding ch vec (c0 :: cells)
  = (if holds ch vec c0 then 1 else 0) + cells_holding ch vec' cells.
Proof.
  intros Hh. unfold cells_holding. cbn [distinct].
  destruct (existsb (coord_eqb c0) cells) eqn:E.
  - apply (proj1 (existsb_coord_In _ _)) in E.
    apply (proj2 (distinct_In _ _)) in E.
    rewrite (filter_once _ _ c0 _ Hh (distinct_NoDup cells) E).
    destruct (holds ch vec c0); lia.
  - assert (Hnot : ~ In c0 (distinct cells)).
    { intros Hin. apply (proj1 (distinct_In _ _)) in Hin.
      apply (proj2 (existsb_coord_In _ _)) in Hin. congruence. }
    cbn [filter]. rewrite (filter_without _ _ c0 _ Hh Hnot).
    destruct (holds ch vec c0); cbn [List.length]; lia.
Qed.

(** A run of the loop eats the pellets of the cells the player stands
    on when [update_map] is called, each once, and no others. *)
Lemma run_eats keys : forall draws s s' draws',
  run keys draws s = Ok (s', draws') ->
  (forall c, at2 (game_vec s') (fst c) (snd c)
             = if holds_pellet (game_vec s) c
                  && existsb (coord_eqb c) (visited keys draws s)
               then Ok " " else at2 (game_vec s) (fst c) (snd c))
  /\ (forall ch, ch = "." \/ ch = "@" ->
        occurrences ch (game_vec s) - occurrences ch (game_vec s')
        = cells_holding ch (game_vec s) (visited keys draws s)).
Proof.
  assert (Hstop : forall s : Game,
            (forall c, at2 (game_vec s) (fst c) (snd c)
                       = if holds_pellet (game_vec s) c && false
                         then Ok " " else at2 (game_vec s) (fst c) (snd c))
            /\ (forall ch, ch = "." \/ ch = "@" ->
                  occurrences ch (game_vec s) - occurrences ch (game_vec s)
                  = cells_holding ch (game_vec s) [])).
  { intros s. split.
    - intros c. rewrite andb_false_r. reflexivity.
    - intros ch _. unfold cells_holding. cbn. lia. }
  induction keys as [| key keys IH]; intros draws s s' draws' H.
  - injection H as <- _. cbn [visited existsb]. apply Hstop.
  - cbn [run] in H. cbn [visited].
    destruct (game_is_running s);
      [| injection H as <- _; cbn [existsb]; apply Hstop].
    destruct (tick key draws s) as [[sa da] | e] eqn:E; [| discriminate].
    cbn [bind] in H.
    destruct (tick_eats _ _ _ _ _ E) as (Tcell & Tcount & _).
    destruct (IH _ _ _ _ H) as (Rcell & Rcount).
    set (c0 := cell_at_update key draws s) in *.
    assert (Hp : forall c,
              holds_pellet (game_vec sa) c
              = holds_pellet (game_vec s) c && negb (coord_eqb c c0)).
    { intros c. unfold holds_pellet at 1. rewrite Tcell.
      destruct (coord_eqb c c0) eqn:Ec.
      - apply coord_eqb_eq in Ec. subst c.
        destruct (holds_pellet (game_vec s) c0) eqn:Eh; cbn [andb negb];
          [reflexivity |].
        fold (holds_pellet (game_vec s) c0). exact Eh.
      - rewrite andb_false_r, andb_true_r. reflexivity. }
    assert (Hh : forall ch, ch = "." \/ ch = "@" -> forall c,
              holds ch (game_vec sa) c
              = holds ch (game_vec s) c && negb (coord_eqb c c0)).
    { intros ch Hch c. unfold holds at 1. rewrite Tcell.
      destruct (coord_eqb c c0) eqn:Ec.
      - apply coord_eqb_eq in Ec. subst c. rewrite andb_false_r.
        destruct (holds_pellet (game_vec s) c0) eqn:Eh; cbn [andb].
        + destruct Hch as [-> | ->]; reflexivity.
        + rewrite holds_pellet_split in Eh.
          apply orb_false_iff in Eh. destruct Eh as [Hd Ha].
          fold (holds ch (game_vec s) c0).
          destruct Hch as [-> | ->]; assumption.
      - rewrite andb_false_r, andb_true_r. reflexivity. }
    split.
    + intros c. rewrite Rcell, Hp, Tcell. cbn [existsb].
      destruct (coord_eqb c c0) eqn:Ec; cbn [negb orb].
      * rewrite andb_false_r, andb_true_r. cbn [andb].
        destruct (holds_pellet (game_vec s) c0) eqn:Eh.
        -- apply coord_eqb_eq in Ec. subst c. rewrite Eh. reflexivity.
        -- apply coord_eqb_eq in Ec. subst c. rewrite Eh. reflexivity.
      * rewrite !andb_true_r, andb_false_r. reflexivity.
    + intros ch Hch.
      rewrite (cells_holding_cons ch (game_vec s) (game_vec sa) c0 _
                 (Hh ch Hch)).
      rewrite <- (Rcount ch Hch), <- (Tcount ch Hch). lia.
Qed.

(** C5.  A game started by [main] on a map whose pellets are worth less
    than [2^31] points, at any two instants [s1] and, later, [s2] of its
    run.  The score at [s1] is 10 for every pellet and 50 for every
    power pellet eaten; the pellets (power pellets) eaten are the cells
    which held one at the start and on which the player has stood at a
    call of [update_map], each counted once; these cells are blank in
    the persistent layer and every other cell is as at the start.  The
    numbers eaten and the score do not decrease from [s1] to [s2]; the
    score is at most [max_score]; a cell without pellet at [s1] is
    without pellet at [s2].  An iteration adds 10 if the player then
    stands on a pellet of the layer, 50 on a power pellet and nothing
    otherwise, and after it that cell holds no pellet. *)
Theorem score_accounting lines grid keys1 keys2 draws s0 s1 d1 s2 d2 :
  initial_game (Some lines) grid = Ok s0 ->
  points_left lines < 2 ^ 31 ->
  run keys1 draws s0 = Ok (s1, d1) ->
  run keys2 d1 s1 = Ok (s2, d2) ->
  score (pacman s1)
  = 10 * pellets_eaten s0 s1 + 50 * power_pellets_eaten s0 s1
  /\ 0 <= pellets_eaten s0 s1 <= pellets_eaten s0 s2
  /\ 0 <= power_pellets_eaten s0 s1 <= power_pellets_eaten s0 s2
  /\ score (pacman s1) <= score (pacman s2)
  /\ score (pacman s1) <= max_score (pacman s1)
  /\ (forall cell, holds_pellet (game_vec s1) cell = false ->
                   holds_pellet (game_vec s2) cell = false)
  /\ pellets_eaten s0 s1
     = cells_holding "." (game_vec s0) (visited keys1 draws s0)
  /\ power_pellets_eaten s0 s1
     = cells_holding "@" (game_vec s0) (visited keys1 draws s0)
  /\ (forall cell,
        at2 (game_vec s1) (fst cell) (snd cell)
        = if holds_pellet (game_vec s0) cell
             && existsb (coord_eqb cell) (visited keys1 draws s0)
          then Ok " " else at2 (game_vec s0) (fst cell) (snd cell))
  /\ (forall key s3 d3,
        tick key d2 s2 = Ok (s3, d3) ->
        score (pacman s3)
        = score (pacman s2)
          + (if holds "." (game_vec s2) (cell_at_update key d2 s2) then 10
             else if holds "@" (game_vec s2) (cell_at_update key d2 s2)
                  then 50 else 0)
        /\ holds_pellet (game_vec s3) (cell_at_update key d2 s2) = false
        /\ (score (pacman s3) <> score (pacman s2) ->
            holds_pellet (game_vec s2) (cell_at_update key d2 s2) = true)).
Proof.
  intros Hinit Hfit Hrun1 Hrun2.
  destruct (initial_game_spec _ _ _ Hinit Hfit) as (Hs0 & Hm0 & Hp0).
  destruct (run_keeps_account _ _ _ _ _ Hrun1)
    as ((I0 & Isum & Imax) & Rd & Ra & Rs & _); try lia.
  destruct (run_keeps_account _ _ _ _ _ Hrun2 I0 Isum Imax)
    as ((J0 & Jsum & Jmax) & Sd & Sa & Ss & Sperm).
  destruct (run_eats _ _ _ _ _ Hrun1) as (Ecell & Ecount).
  pose proof (occurrences_nonneg "." (game_vec s1)).
  pose proof (occurrences_nonneg "@" (game_vec s1)).
  split; [unfold pellets_eaten, power_pellets_eaten, points_left in *; lia |].
  split; [unfold pellets_eaten, power_pellets_eaten, points_left in *; lia |].
  split; [unfold pellets_eaten, power_pellets_eaten, points_left in *; lia |].
  split; [unfold pellets_eaten, power_pellets_eaten, points_left in *; lia |].
  split; [unfold pellets_eaten, power_pellets_eaten, points_left in *; lia |].
  split; [exact Sperm |].
  split; [exact (Ecount "." (or_introl eq_refl)) |].
  split; [exact (Ecount "@" (or_intror eq_refl)) |].
  split; [exact Ecell |].
  intros key s3 d3 Ht.
  destruct (tick_keeps_account _ _ _ _ _ Ht J0 Jsum Jmax)
    as (_ & _ & _ & Ts).
  destruct (tick_eats _ _ _ _ _ Ht) as (Tcell & Tcount & _).
  pose proof (Tcount "." (or_introl eq_refl)) as Td.
  pose proof (Tcount "@" (or_intror eq_refl)) as Ta.
  unfold pellets_eaten, power_pellets_eaten in Ts.
  rewrite Td, Ta in Ts.
  pose proof (holds_exclusive (game_vec s2) (cell_at_update key d2 s2))
    as Hex.
  assert (Hafter :
            holds_pellet (game_vec s3) (cell_at_update key d2 s2) = false).
  { unfold holds_pellet at 1. rewrite Tcell, coord_eqb_refl, andb_true_r.
    destruct (holds_pellet (game_vec s2) (cell_at_update key d2 s2)) eqn:Eh;
      [reflexivity |].
    fold (holds_pellet (game_vec s2) (cell_at_update key d2 s2)).
    exact Eh. }
  rewrite (holds_pellet_split (game_vec s2)).
  destruct (holds "." (game_vec s2) (cell_at_update key d2 s2));
    [rewrite (Hex eq_refl) in Ts |];
    destruct (holds "@" (game_vec s2) (cell_at_update key d2 s2));
    (split; [lia |]); (split; [exact Hafter |]); intros Hne;
    try reflexivity; try discriminate; exfalso; lia.
Qed.

(** A map with one pellet, on the cell above the player's start cell.
    For five iterations the player stands on its start cell and the
    score is 0; the tenth iteration is the first with a move: the
    player steps onto the pellet and [update_map] awards it. *)
Lemma score_accounting_witness :
  let lines := map list_ascii_of_string
                 (repeat EmptyString 15 ++ ["                    ."%string]) in
  let blank := repeat (repeat " " (Z.to_nat HEIGHT)) (Z.to_nat WIDTH) in
  let s0 := game_on (repeat EmptyString 15 ++ ["                    ."%string])
                    (WIDTH / 2, HEIGHT / 2) in
  let s1 := fst (after_run (repeat None 5) [] s0) in
  let s2 := fst (after_run (repeat None 5) [] s1) in
  initial_game (Some lines) blank = Ok s0
  /\ score (pacman s1) = 0
  /\ score (pacman s2) = 10
  /\ score (pacman s1) <= score (pacman s2)
  /\ score (pacman s1) <= max_score (pacman s1)
  /\ pellets_eaten s0 s1
     = cells_holding "." (game_vec s0) (visited (repeat None 5) [] s0)
  /\ distinct (visited (repeat None 5) [] s0) = [(16, 20)]
  /\ distinct (visited (repeat None 10) [] s0) = [(16, 20); (15, 20)]
  /\ cells_holding "." (game_vec s0) (visited (repeat None 10) [] s0) = 1.
Proof.
  cbv zeta.
  set (names := repeat EmptyString 15 ++ ["                    ."%string]).
  set (s0 := game_on names (WIDTH / 2, HEIGHT / 2)).
  assert (Hinit : initial_game (Some (map list_ascii_of_string names))
                    (repeat (repeat " " (Z.to_nat HEIGHT)) (Z.to_nat WIDTH))
                  = Ok s0) by (vm_compute; reflexivity).
  assert (Hfit : points_left (map list_ascii_of_string names) < 2 ^ 31)
    by (vm_compute; reflexivity).
  assert (Hrun1 : run (repeat None 5) [] s0
                  = Ok (fst (after_run (repeat None 5) [] s0), []))
    by (vm_compute; reflexivity).
  assert (Hrun2 : run (repeat None 5) []
                      (fst (after_run (repeat None 5) [] s0))
                  = Ok (fst (after_run (repeat None 5) []
                               (fst (after_run (repeat None 5) [] s0))), []))
    by (vm_compute; reflexivity).
  destruct (score_accounting _ _ _ _ _ _ _ _ _ _ Hinit Hfit Hrun1 Hrun2)
    as (Hscore & _ & _ & Hmono & Hmax & _ & Hpe & _).
  split; [exact Hinit |].
  split; [vm_compute; reflexivity |].
  split; [vm_compute; reflexivity |].
  split; [exact Hmono |].
  split; [exact Hmax |].
  split; [exact Hpe |].
  split; [vm_compute; reflexivity |].
  split; vm_compute; reflexivity.
Defined.

(** ** [update_map] stays inside its containers *)

Lemma blank_map_wf width height g :
  grid_wf width height g -> grid_wf width height (blank_map g).
Proof.
  intros [Hh Hw]. unfold blank_map. split.
  - rewrite length_map. exact Hh.
  - apply Forall_forall. intros row Hrow.
    apply in_map_iff in Hrow. destruct Hrow as [row0 [<- Hin]].
    rewrite length_map. rewrite Forall_forall in Hw. exact (Hw _ Hin).
Qed.

Lemma overlay_row_length line : forall row,
  List.length (overlay_row line row) = List.length row.
Proof.
  induction line as [| c line IH]; intros [| x row]; cbn; auto.
Qed.

Lemma overlay_defined width vec : forall g,
  (List.length vec <= List.length g)%nat ->
  Forall (fun row => Z.of_nat (List.length row) = width) g ->
  exists m, overlay vec g = Ok m
            /\ List.length m = List.length g
            /\ Forall (fun row => Z.of_nat (List.length row) = width) m.
Proof.
  induction vec as [| line vec IH]; intros g Hlen Hw.
  - exists g. destruct g; repeat split; assumption.
  - destruct g as [| row g]; cbn in Hlen; [lia |].
    apply Forall_cons_iff in Hw. destruct Hw as [Hrow Hrest].
    destruct (IH g ltac:(lia) Hrest) as (m & Hm & Hl & Hf).
    exists (overlay_row line row :: m). cbn [overlay]. rewrite Hm.
    cbn [bind]. split; [reflexivity |]. split; [cbn; lia |].
    constructor; [rewrite overlay_row_length; exact Hrow | exact Hf].
Qed.

Lemma replace_nth_Forall {A : Type} (P : A -> Prop) (l : list A) n a :
  Forall P l -> P a -> Forall P (replace_nth l n a).
Proof.
  intros Hl Ha. revert n. induction Hl as [| x l Hx Hl IH]; intros [| n];
    cbn; constructor; auto.
Qed.

Lemma assign2_in_array width height g at_ c :
  grid_wf width height g -> in_array width height at_ = true ->
  exists g', assign2 g (fst at_) (snd at_) c = Ok g'
             /\ grid_wf width height g'.
Proof.
  intros Hwf Hin.
  destruct (at2_in_array _ _ _ _ Hwf Hin) as [x Hx].
  destruct (assign2_spec _ _ _ x c Hx) as (g' & Hg' & _).
  exists g'. split; [exact Hg' |].
  destruct Hwf as [Hh Hw].
  unfold assign2, at2 in *. bind_inv Hx.
  apply index_Ok_inv in E. destruct E as [Hr Hrow].
  cbn [bind] in Hg'. unfold assign in Hg'.
  apply index_Ok_inv in Hx. destruct Hx as [Hc _].
  destruct (Z.ltb_spec (snd at_) 0); [lia |].
  destruct (Z.leb_spec (Z.of_nat (List.length a)) (snd at_)); [lia |].
  destruct (Z.ltb_spec (fst at_) 0); [lia |].
  destruct (Z.leb_spec (Z.of_nat (List.length g)) (fst at_)); [lia |].
  cbn [orb bind] in Hg'. injection Hg' as <-.
  split.
  - rewrite replace_nth_length. exact Hh.
  - apply replace_nth_Forall; [exact Hw |].
    rewrite replace_nth_length.
    apply nth_error_In in Hrow. rewrite Forall_forall in Hw.
    exact (Hw _ Hrow).
Qed.

Lemma grid_wfb_wf width height g :
  grid_wfb width height g = true -> grid_wf width height g.
Proof.
  unfold grid_wfb, grid_wf. rewrite andb_true_iff, Z.eqb_eq, forallb_forall.
  intros [Hh Hw]. split; [exact Hh |].
  apply Forall_forall. intros row Hrow. apply Z.eqb_eq, Hw, Hrow.
Qed.

(** With every index inside its container [update_map] runs to its
    end. *)
Lemma update_map_defined width height s :
  update_in_bounds width height s = true -> exists s', update_map s = Ok s'.
Proof.
  unfold update_in_bounds. rewrite !andb_true_iff.
  intros [[[[[Hwf Hvec] Hp] Hx2] Hx1] Hg].
  apply grid_wfb_wf in Hwf. apply Z.leb_le in Hvec.
  unfold ghosts in Hg. cbn [forallb] in Hg. rewrite !andb_true_iff in Hg.
  destruct Hg as (G1 & G2 & G3 & G4 & _).
  pose proof (blank_map_wf _ _ _ Hwf) as [Bh Bw].
  destruct (overlay_defined width (game_vec s) (blank_map (game_map s)))
    as (m & Hm & Hl & Hf); [lia | exact Bw |].
  assert (Mwf : grid_wf width height m) by (split; [lia | exact Hf]).
  unfold update_map. rewrite Hm. cbn [bind].
  (* the pellet, or the portal *)
  assert (He : exists s1,
             eat_or_teleport (set_game_map s m) = Ok s1
             /\ game_map s1 = m
             /\ ghosts s1 = ghosts s
             /\ in_array width height (p_pos (pacman s1)) = true).
  { unfold eat_or_teleport.
    cbn [pacman game_map game_vec set_game_map].
    destruct (at2_in_array _ _ _ _ Mwf Hp) as [ch Hch].
    destruct (p_pos (pacman s)) as [r c] eqn:Hpos. cbn [fst snd] in *.
    rewrite Hch. cbn [bind].
    destruct (overlay_cell _ _ _ _ _ _ Hm Hch) as [Hv | [Hb _]].
    - destruct (assign2_spec _ _ _ ch " " Hv) as (vec' & Hvec' & _).
      rewrite Hvec'. cbn [bind].
      split_ifs; eexists; (split; [reflexivity |]); cbn;
        rewrite ?Hpos; repeat split; assumption.
    - subst ch. cbn [Ascii.eqb Bool.eqb andb].
      split_ifs; eexists; (split; [reflexivity |]); cbn;
        rewrite ?Hpos; repeat split; assumption. }
  destruct He as (s1 & Hs1 & Hmap & Hgh & Hp1).
  rewrite Hs1. cbn [bind].
  (* the five sprites *)
  unfold ghosts in Hgh. injection Hgh as E1 E2 E3 E4.
  unfold draw_actors. rewrite Hmap, E1, E2, E3, E4.
  destruct (assign2_in_array _ _ _ _ (player_glyph (pacman s1)) Mwf Hp1)
    as (m0 & -> & W0). cbn [bind].
  destruct (assign2_in_array _ _ _ _ (icon (ghost1 s)) W0 G1)
    as (m1 & -> & W1). cbn [bind].
  destruct (assign2_in_array _ _ _ _ (icon (ghost2 s)) W1 G2)
    as (m2 & -> & W2). cbn [bind].
  destruct (assign2_in_array _ _ _ _ (icon (ghost3 s)) W2 G3)
    as (m3 & -> & W3). cbn [bind].
  destruct (assign2_in_array _ _ _ _ (icon (ghost4 s)) W3 G4)
    as (m4 & -> & W4). cbn [bind].
  eexists. reflexivity.
Qed.

(** The last part of [update_map] is the collision code, run on the
    player as the pellet and portal code left it and on the enemies as
    they were. *)
Lemma update_map_collides s s' :
  update_map s = Ok s' ->
  exists p,
    p_pos p = p_pos (pacman s') /\ is_over p = is_over (pacman s)
    /\ (pacman s', (ghost1 s', ghost2 s', ghost3 s', ghost4 s'))
       = resolve_collisions p (ghost1 s) (ghost2 s) (ghost3 s) (ghost4 s).
Proof.
  intros H.
  destruct (update_map_inv _ _ H) as (m & s1 & s2 & Ho & He & Hd & ->).
  destruct (eat_or_teleport_spec _ _ He)
    as (ch & _ & (_ & G1 & G2 & G3 & G4 & _) & (_ & _ & _ & Po & _) & _).
  destruct (draw_actors_frame _ _ Hd) as [m' ->].
  cbn [ghost1 ghost2 ghost3 ghost4 pacman set_game_map] in *.
  exists (pacman s1).
  destruct (collide_frame (set_game_map s1 m'))
    as (_ & _ & _ & _ & _ & _ & _ & _ & Cp & _).
  cbn [pacman set_game_map] in Cp.
  split; [symmetry; exact Cp |]. split; [exact Po |].
  unfold collide. cbn [ghost1 ghost2 ghost3 ghost4 pacman set_game_map].
  rewrite G1, G2, G3, G4.
  destruct (resolve_collisions (pacman s1) (ghost1 s) (ghost2 s)
                               (ghost3 s) (ghost4 s))
    as [p [[[a b] c] d]].
  reflexivity.
Qed.

(** ** The tunnel *)

(** C7, as the code has it.  With every index inside its container, and
    when the persistent layer has no pellet and no power pellet on the
    player's cell, [update_map] moves a player on [portal_1] to the cell
    one column after [portal_2], and a player on [portal_2] (and not on
    [portal_1]) to the cell one column before [portal_1].  After the
    first, one step to the left is [portal_2]; the teleport from there
    ends one column before [portal_1], one step to the right of which is
    [portal_1] again. *)
Theorem update_map_teleports width height s :
  update_in_bounds width height s = true ->
  pellet_under_player s = false ->
  exists s',
    update_map s = Ok s'
    /\ portal_1 (pacman s') = portal_1 (pacman s)
    /\ portal_2 (pacman s') = portal_2 (pacman s)
    /\ (p_pos (pacman s) = portal_1 (pacman s) ->
        p_pos (pacman s')
        = (fst (portal_2 (pacman s)), wrap64 (snd (portal_2 (pacman s)) + 1)))
    /\ (p_pos (pacman s) = portal_2 (pacman s) ->
        p_pos (pacman s) <> portal_1 (pacman s) ->
        p_pos (pacman s')
        = (fst (portal_1 (pacman s)), wrap64 (snd (portal_1 (pacman s)) - 1)))
    /\ (p_pos (pacman s) = portal_1 (pacman s) ->
        portal_1 (pacman s) <> portal_2 (pacman s) ->
        is_size_t (snd (portal_1 (pacman s))) ->
        is_size_t (snd (portal_2 (pacman s))) ->
        p_pos (pacman (stepped LEFT s')) = portal_2 (pacman s)
        /\ (update_in_bounds width height (stepped LEFT s') = true ->
            pellet_under_player (stepped LEFT s') = false ->
            exists s'',
              update_map (stepped LEFT s') = Ok s''
              /\ p_pos (pacman s'')
                 = (fst (portal_1 (pacman s)),
                    wrap64 (snd (portal_1 (pacman s)) - 1))
              /\ p_pos (pacman (stepped RIGHT s'')) = portal_1 (pacman s))).
Proof.
  intros Hb Hnp.
  destruct (update_map_defined _ _ _ Hb) as [s' H].
  exists s'. split; [exact H |].
  destruct (teleport_step s s' H Hnp) as (K1 & K2 & T1 & T2).
  split; [exact K1 |]. split; [exact K2 |].
  split; [exact T1 |]. split; [exact T2 |].
  intros E N S1 S2.
  assert (Hback : p_pos (pacman (stepped LEFT s')) = portal_2 (pacman s)).
  { unfold stepped. cbn [pacman set_pacman p_pos set_p_pos].
    unfold player_probe. cbn [p_pos p_direction set_p_direction].
    rewrite (T1 E). rewrite wrap64_succ_pred by exact S2.
    destruct (portal_2 (pacman s)); reflexivity. }
  split; [exact Hback |].
  intros Hb' Hnp'.
  destruct (update_map_defined _ _ _ Hb') as [s'' H'].
  exists s''. split; [exact H' |].
  destruct (teleport_step _ _ H' Hnp') as (_ & _ & _ & T2').
  assert (P1 : portal_1 (pacman (stepped LEFT s')) = portal_1 (pacman s))
    by exact K1.
  assert (P2 : portal_2 (pacman (stepped LEFT s')) = portal_2 (pacman s))
    by exact K2.
  rewrite P1, P2 in T2'.
  assert (Hend : p_pos (pacman s'')
                 = (fst (portal_1 (pacman s)),
                    wrap64 (snd (portal_1 (pacman s)) - 1))).
  { apply T2'; [exact Hback |]. rewrite Hback. congruence. }
  split; [exact Hend |].
  unfold stepped. cbn [pacman set_pacman p_pos set_p_pos].
  unfold player_probe. cbn [p_pos p_direction set_p_direction].
  rewrite Hend. rewrite wrap64_pred_succ by exact S1.
  destruct (portal_1 (pacman s)); reflexivity.
Qed.

(** A tunnel row: the opening bracket in column 0 is [portal_2], the
    closing bracket in column 5 is [portal_1].  The player on the
    closing bracket comes out in column 1; stepping left onto the
    opening bracket, the player comes out in column 4. *)
Lemma update_map_teleports_witness :
  let s := game_on ["[    ]"%string] (0, 5) in
  let s' := after_update_map s in
  let s'' := after_update_map (stepped LEFT s') in
  p_pos (pacman s') = (0, 1)
  /\ p_pos (pacman (stepped LEFT s')) = (0, 0)
  /\ p_pos (pacman s'') = (0, 4)
  /\ p_pos (pacman (stepped RIGHT s'')) = (0, 5).
Proof.
  cbv zeta.
  assert (Hb : update_in_bounds HEIGHT WIDTH
                 (game_on ["[    ]"%string] (0, 5)) = true)
    by (vm_compute; reflexivity).
  assert (Hnp : pellet_under_player (game_on ["[    ]"%string] (0, 5)) = false)
    by (vm_compute; reflexivity).
  destruct (update_map_teleports _ _ _ Hb Hnp)
    as (s' & Hs' & _ & _ & T1 & _ & R).
  assert (E : after_update_map (game_on ["[    ]"%string] (0, 5)) = s').
  { unfold after_update_map. rewrite Hs'. reflexivity. }
  rewrite E.
  split; [exact (T1 eq_refl) |].
  destruct (R eq_refl) as [B F].
  - vm_compute. discriminate.
  - vm_compute. split; [discriminate | reflexivity].
  - vm_compute. split; [discriminate | reflexivity].
  - split; [exact B |].
    destruct F as (s'' & Hs'' & F1 & F2).
    + rewrite <- E. vm_compute. reflexivity.
    + rewrite <- E. vm_compute. reflexivity.
    + assert (E' : after_update_map (stepped LEFT s') = s'').
      { unfold after_update_map. rewrite Hs''. reflexivity. }
      rewrite E'. split; [exact F1 | exact F2].
Defined.

(** C7, as the claim has it, fails.  The loader drops the [x] of the
    line but records the index of the bracket in the line as read, so
    [portal_1] is (0, 1), where the persistent layer holds a pellet.  A
    player on [portal_1] eats the pellet and is not moved; the claim
    puts the player on (0, 5). *)
Lemma pellet_on_portal_delays_teleport :
  let s := game_on ["x]. ["%string] (0, 1) in
  let s' := after_update_map s in
  update_map s = Ok s'
  /\ game_vec s = [list_ascii_of_string "]. ["]
  /\ portal_1 (pacman s) = (0, 1)
  /\ portal_2 (pacman s) = (0, 4)
  /\ p_pos (pacman s) = portal_1 (pacman s)
  /\ p_pos (pacman s') = (0, 1)
  /\ score (pacman s') = 10
  /\ p_pos (pacman s')
     <> (fst (portal_2 (pacman s)), wrap64 (snd (portal_2 (pacman s)) + 1)).
Proof.
  cbv zeta. split; [vm_compute; reflexivity |].
  vm_compute. repeat split. discriminate.
Qed.

(* ================================================================== *)
(** * Further properties of the code *)

(** ** [enemy::manhattanDistance] *)

Lemma to_int_periodic a k : to_int (a + k * 2 ^ 32) = to_int a.
Proof.
  unfold to_int.
  replace (a + k * 2 ^ 32 + 2 ^ 31) with (a + 2 ^ 31 + k * 2 ^ 32) by lia.
  rewrite Z.mod_add by lia. reflexivity.
Qed.

Lemma to_int_repr z : exists k, to_int z = z + k * 2 ^ 32.
Proof.
  exists (- ((z + 2 ^ 31) / 2 ^ 32)). unfold to_int.
  rewrite Z.mod_eq by lia. lia.
Qed.

Lemma abs_to_int_opp z : Z.abs (to_int (- z)) = Z.abs (to_int z).
Proof.
  destruct (to_int_repr z) as [k Hk].
  pose proof (to_int_range z) as Hr.
  replace (- z) with (- to_int z + k * 2 ^ 32) by lia.
  rewrite to_int_periodic.
  destruct (Z.eq_dec (to_int z) (- 2 ^ 31)) as [E | E].
  - rewrite E. reflexivity.
  - rewrite to_int_small by lia. lia.
Qed.

(** X1.  The distance of [manhattanDistance] does not depend on the
    order of its two points, for all values of the coordinates, also
    those on which the conversion to [int] wraps; and the distance of a
    point to itself is 0. *)
Theorem manhattanDistance_symmetric p q :
  manhattanDistance p q = manhattanDistance q p
  /\ manhattanDistance p p = 0.
Proof.
  split.
  - unfold manhattanDistance, abs_int.
    replace (to_int (fst q) - to_int (fst p))
      with (- (to_int (fst p) - to_int (fst q))) by lia.
    replace (to_int (snd q) - to_int (snd p))
      with (- (to_int (snd p) - to_int (snd q))) by lia.
    rewrite !abs_to_int_opp. reflexivity.
  - unfold manhattanDistance, abs_int. rewrite !Z.sub_diag. reflexivity.
Qed.

(** ** Targets of the scatter mode and of Blinky *)

(** X2.  In [SCATTER] mode the target depends on the personality and on
    the two sizes only: not on the player, not on Blinky, not on the
    enemy's own position or former target.  In [NORMAL] mode Blinky's
    target is the player's cell, and in [FRIGHTENED] mode the target is
    not touched. *)
Theorem scatter_target_is_fixed width height pacman pacman' blinky blinky' e e' :
  (mode e = SCATTER -> mode e' = SCATTER -> character e = character e' ->
   target (calculate_target width height pacman blinky e)
   = target (calculate_target width height pacman' blinky' e'))
  /\ (mode e = NORMAL -> character e = BLINKY ->
      target (calculate_target width height pacman blinky e) = p_pos pacman)
  /\ (mode e = FRIGHTENED ->
      calculate_target width height pacman blinky e = e).
Proof.
  unfold calculate_target.
  destruct (p_pos pacman) as [pr pc] eqn:Hp.
  destruct (p_pos pacman') as [pr' pc'].
  split; [| split].
  - intros -> -> ->. destruct (character e'); reflexivity.
  - intros -> ->. reflexivity.
  - intros ->. reflexivity.
Qed.

Lemma scatter_target_is_fixed_witness :
  target (calculate_target HEIGHT WIDTH initial_pacman (initial_ghost BLINKY)
                           (initial_ghost INKY))
  = target (calculate_target HEIGHT WIDTH
              (set_p_pos initial_pacman (3, 4)) (initial_ghost PINKY)
              (set_e_pos (initial_ghost INKY) (20, 20))).
Proof.
  apply (scatter_target_is_fixed HEIGHT WIDTH initial_pacman
           (set_p_pos initial_pacman (3, 4)) (initial_ghost BLINKY)
           (initial_ghost PINKY) (initial_ghost INKY)
           (set_e_pos (initial_ghost INKY) (20, 20)));
    reflexivity.
Defined.

(** X3.  For a map of at least two rows and two columns the scatter
    corners of Blinky, Pinky and Clyde are cells of the map.  Inky's
    corner, [(width - 2, height - 2)], uses the width for the row: it is
    a cell of the map exactly when the two sizes differ by less than
    two. *)
Theorem scatter_corners width height pacman blinky e :
  2 <= width < SIZE_MOD -> 2 <= height < SIZE_MOD ->
  mode e = SCATTER ->
  let t := target (calculate_target width height pacman blinky e) in
  (character e <> INKY -> in_array width height t = true)
  /\ (character e = INKY ->
      (in_array width height t = true <-> Z.abs (width - height) < 2)).
Proof.
  intros Hw Hh Hm. cbv zeta. unfold calculate_target.
  destruct (p_pos pacman) as [pr pc]. rewrite Hm.
  unfold in_array.
  destruct (character e); cbn [target set_target fst snd];
    rewrite ?wrap64_small by (unfold SIZE_MOD in *; lia);
    (split; [intros Hc | intros Hc]); try congruence; try discriminate.
  - rewrite !andb_true_iff, !Z.leb_le, !Z.ltb_lt. lia.
  - rewrite !andb_true_iff, !Z.leb_le, !Z.ltb_lt. lia.
  - rewrite !andb_true_iff, !Z.leb_le, !Z.ltb_lt. lia.
  - rewrite !andb_true_iff, !Z.leb_le, !Z.ltb_lt. lia.
Qed.

(** On the map of [main], 32 rows of 40 columns, Inky's corner is
    (38, 30), below the last row. *)
Lemma scatter_corners_witness :
  let t := target (calculate_target HEIGHT WIDTH initial_pacman
                     (initial_ghost BLINKY) (initial_ghost INKY)) in
  t = (38, 30) /\ ~ (in_array HEIGHT WIDTH t = true).
Proof.
  cbv zeta. split; [reflexivity |].
  intros Hin.
  destruct (scatter_corners HEIGHT WIDTH initial_pacman (initial_ghost BLINKY)
              (initial_ghost INKY)) as [_ H].
  - unfold HEIGHT, SIZE_MOD. lia.
  - unfold WIDTH, SIZE_MOD. lia.
  - reflexivity.
  - apply (H eq_refl) in Hin. unfold HEIGHT, WIDTH in Hin. lia.
Defined.

(** ** One move of an enemy, in either mode *)

Lemma may_step_true game_map width height e dir :
  may_step game_map width height e dir = Ok true ->
  isValidPosition (fst (destination e dir)) (snd (destination e dir))
                  width height = true
  /\ passable_for_enemy game_map (destination e dir) = true
  /\ getDirection dir <> getOppositeDirection (prev_move e).
Proof.
  unfold may_step, passable_for_enemy.
  destruct (destination e dir) as [x y]. cbn [fst snd].
  destruct (isValidPosition x y width height); [| discriminate].
  intros H. bind_inv H. injection H as H.
  apply andb_true_iff in H. destruct H as [Hc Hd].
  split; [reflexivity |]. split; [exact Hc |].
  intros Heq. apply DIRECTION_eqb_eq in Heq. rewrite Heq in Hd. discriminate.
Qed.

Lemma scan_directions_choice game_map width height e dirs : forall acc c,
  scan_directions game_map width height e acc dirs = Ok c ->
  c = acc
  \/ exists dir,
      In dir dirs
      /\ may_step game_map width height e dir = Ok true
      /\ nextPos c = destination e dir
      /\ new_move c = getDirection dir.
Proof.
  induction dirs as [| d dirs IH]; intros acc c H.
  - injection H as <-. left. reflexivity.
  - cbn [scan_directions] in H. bind_inv H.
    destruct (IH _ _ H) as [-> | (dir & Hin & Hs & Hn & Hm)].
    + unfold try_direction in E. bind_inv E.
      destruct a0; [| injection E as <-; left; reflexivity].
      destruct (_ <? _); injection E as <-; [| left; reflexivity].
      right. exists d. split; [left; reflexivity |].
      split; [exact E0 |]. split; reflexivity.
    + right. exists dir. split; [right; exact Hin |]. auto.
Qed.

Lemma wander_choice game_map width height e draws : forall visited np nm rest,
  wander game_map width height e visited draws = Ok (np, nm, rest) ->
  (np = e_pos e /\ nm = LEFT)
  \/ exists dir,
      In dir directions
      /\ may_step game_map width height e dir = Ok true
      /\ np = destination e dir
      /\ nm = getDirection dir.
Proof.
  induction draws as [| r draws IH]; intros visited np nm rest H.
  - discriminate.
  - cbn [wander] in H. bind_inv H. bind_inv H. bind_inv H.
    destruct a1.
    + injection H as <- <- _. right. exists a0.
      apply index_Ok_inv in E0. destruct E0 as [_ Hn].
      apply nth_error_In in Hn. auto.
    + destruct (forallb (fun b => b) a).
      * injection H as <- <- _. left. split; reflexivity.
      * exact (IH _ _ _ _ H).
Qed.

(** X4.  Whatever its mode, an enemy whose [move] returns has either
    kept its cell, with [prev_move] set to [LEFT], or gone one step along
    an entry of [directions] to a cell that passes [isValidPosition] and
    is passable for an enemy, with [prev_move] the name of that step,
    which is never the reverse of the former [prev_move].  Mode, glyph
    and personality are as before. *)
Theorem enemy_move_one_step game_map width height pacman blinky draws e e' draws' :
  enemy_move game_map width height pacman blinky draws e = Ok (e', draws') ->
  (mode e' = mode e /\ icon e' = icon e /\ character e' = character e)
  /\ ((e_pos e' = e_pos e /\ prev_move e' = LEFT)
      \/ exists dir,
          In dir directions
          /\ e_pos e' = destination e dir
          /\ prev_move e' = getDirection dir
          /\ prev_move e' <> getOppositeDirection (prev_move e)
          /\ isValidPosition (fst (e_pos e')) (snd (e_pos e')) width height
             = true
          /\ passable_for_enemy game_map (e_pos e') = true).
Proof.
  intros H. split; [exact (enemy_move_frame _ _ _ _ _ _ _ _ _ H) |].
  unfold enemy_move in H.
  destruct (ENEMY_MODE_eqb (mode e) FRIGHTENED).
  - bind_inv H. destruct a as [[np nm] rest]. injection H as <- _.
    cbn [e_pos prev_move set_e_pos set_prev_move].
    destruct (wander_choice _ _ _ _ _ _ _ _ _ E)
      as [[-> ->] | (dir & Hin & Hs & -> & ->)].
    + left. split; reflexivity.
    + right. exists dir. destruct (may_step_true _ _ _ _ _ Hs) as (V & P & D).
      repeat split; assumption.
  - rewrite calculate_target_only_sets_target in H.
    set (t := target (calculate_target width height pacman blinky e)) in *.
    bind_inv H. injection H as <- _.
    cbn [e_pos prev_move set_e_pos set_prev_move set_target].
    destruct (scan_directions_choice _ _ _ _ _ _ _ E)
      as [-> | (dir & Hin & Hs & Hn & Hm)].
    + left. split; reflexivity.
    + right. exists dir. rewrite Hn, Hm.
      destruct (may_step_true _ _ _ _ _ Hs) as (V & P & D).
      repeat split; assumption.
Qed.

(** A frightened Blinky on an empty map, last moved up, and the draws
    1, 3: the draw 1 is the step down, the reverse of up, and is
    refused; the draw 3 is taken. *)
Lemma enemy_move_one_step_witness :
  let blank := repeat (repeat " " 40%nat) 32%nat in
  let e := set_mode (initial_ghost BLINKY) FRIGHTENED in
  let r := value_or (enemy_move blank HEIGHT WIDTH initial_pacman e [1; 3; 0] e)
                    (e, []) in
  snd r = [0]
  /\ mode (fst r) = FRIGHTENED
  /\ ((e_pos (fst r) = e_pos e /\ prev_move (fst r) = LEFT)
      \/ exists dir,
          In dir directions
          /\ e_pos (fst r) = destination e dir
          /\ prev_move (fst r) = getDirection dir
          /\ prev_move (fst r) <> getOppositeDirection (prev_move e)
          /\ isValidPosition (fst (e_pos (fst r))) (snd (e_pos (fst r)))
                             HEIGHT WIDTH = true
          /\ passable_for_enemy blank (e_pos (fst r)) = true).
Proof.
  cbv zeta.
  set (blank := repeat (repeat " " 40%nat) 32%nat).
  set (e := set_mode (initial_ghost BLINKY) FRIGHTENED).
  assert (H : enemy_move blank HEIGHT WIDTH initial_pacman e [1; 3; 0] e
              = Ok (fst (value_or (enemy_move blank HEIGHT WIDTH initial_pacman
                                              e [1; 3; 0] e) (e, [])),
                    [0]))
    by (vm_compute; reflexivity).
  destruct (enemy_move_one_step _ _ _ _ _ _ _ _ _ H) as [(Hm & _) Hstep].
  split; [vm_compute; reflexivity |].
  split; [rewrite Hm; reflexivity | exact Hstep].
Defined.

(** ** The random walk comes to an end *)

Lemma wander_consumes game_map width height e draws :
  forall visited np nm rest,
  wander game_map width height e visited draws = Ok (np, nm, rest) ->
  exists used, used <> [] /\ draws = used ++ rest.
Proof.
  induction draws as [| r draws IH]; intros visited np nm rest H.
  - discriminate.
  - cbn [wander] in H. bind_inv H. bind_inv H. bind_inv H.
    destruct a1.
    + injection H as _ _ <-. exists [r]. split; [discriminate | reflexivity].
    + destruct (forallb (fun b => b) a).
      * injection H as _ _ <-. exists [r]. split; [discriminate | reflexivity].
      * destruct (IH _ _ _ _ H) as (used & _ & ->).
        exists (r :: used). split; [discriminate | reflexivity].
Qed.

Lemma In_tail_of_other (i r : Z) (rest : list Z) :
  i <> r -> In i (r :: rest) -> In i rest.
Proof.
  intros Hne [E | Hin]; [congruence | exact Hin].
Qed.

Lemma wander_defined game_map width height e :
  grid_wf width height game_map ->
  checks_agree width height e = true ->
  forall draws a b c d,
    draws_in_range draws = true ->
    (a = true \/ In 0 draws) -> (b = true \/ In 1 draws) ->
    (c = true \/ In 2 draws) -> (d = true \/ In 3 draws) ->
    a && b && c && d = false ->
    exists r, wander game_map width height e [a; b; c; d] draws = Ok r.
Proof.
  intros Hwf Hagree.
  induction draws as [| r rest IH]; intros a b c d Hrange Ha Hb Hc Hd Hnot.
  - destruct Ha as [-> | []], Hb as [-> | []], Hc as [-> | []],
             Hd as [-> | []]. discriminate.
  - cbn [draws_in_range forallb] in Hrange.
    apply andb_true_iff in Hrange. destruct Hrange as [Hr Hrest].
    apply andb_true_iff in Hr. destruct Hr as [Hr0 Hr4].
    apply Z.leb_le in Hr0. apply Z.ltb_lt in Hr4.
    destruct (index_in_range directions r) as [dir [Hidx Hn]];
      [cbn; lia |].
    apply nth_error_In in Hn.
    cbn [wander].
    assert (Hcases : r = 0 \/ r = 1 \/ r = 2 \/ r = 3) by lia.
    destruct Hcases as [-> | [-> | [-> | ->]]].
    + change (assign [a; b; c; d] 0 true) with (Ok (A := list bool) [true; b; c; d]).
      cbn [bind]. rewrite Hidx. cbn [bind].
      rewrite (may_step_eligible _ _ _ _ Hwf Hagree dir Hn). cbn [bind].
      destruct (eligible game_map width height e dir);
        [eexists; reflexivity |].
      destruct (forallb (fun x => x) [true; b; c; d]) eqn:Hall;
        [eexists; reflexivity |].
      apply IH; try assumption.
      * left. reflexivity.
      * destruct Hb as [-> | Hb]; [left; reflexivity |].
        right. apply (In_tail_of_other 1 0); [lia | exact Hb].
      * destruct Hc as [-> | Hc]; [left; reflexivity |].
        right. apply (In_tail_of_other 2 0); [lia | exact Hc].
      * destruct Hd as [-> | Hd]; [left; reflexivity |].
        right. apply (In_tail_of_other 3 0); [lia | exact Hd].
      * destruct b, c, d; cbn in *; congruence.
    + change (assign [a; b; c; d] 1 true) with (Ok (A := list bool) [a; true; c; d]).
      cbn [bind]. rewrite Hidx. cbn [bind].
      rewrite (may_step_eligible _ _ _ _ Hwf Hagree dir Hn). cbn [bind].
      destruct (eligible game_map width height e dir);
        [eexists; reflexivity |].
      destruct (forallb (fun x => x) [a; true; c; d]) eqn:Hall;
        [eexists; reflexivity |].
      apply IH; try assumption.
      * destruct Ha as [-> | Ha]; [left; reflexivity |].
        right. apply (In_tail_of_other 0 1); [lia | exact Ha].
      * left. reflexivity.
      * destruct Hc as [-> | Hc]; [left; reflexivity |].
        right. apply (In_tail_of_other 2 1); [lia | exact Hc].
      * destruct Hd as [-> | Hd]; [left; reflexivity |].
        right. apply (In_tail_of_other 3 1); [lia | exact Hd].
      * destruct a, c, d; cbn in *; congruence.
    + change (assign [a; b; c; d] 2 true) with (Ok (A := list bool) [a; b; true; d]).
      cbn [bind]. rewrite Hidx. cbn [bind].
      rewrite (may_step_eligible _ _ _ _ Hwf Hagree dir Hn). cbn [bind].
      destruct (eligible game_map width height e dir);
        [eexists; reflexivity |].
      destruct (forallb (fun x => x) [a; b; true; d]) eqn:Hall;
        [eexists; reflexivity |].
      apply IH; try assumption.
      * destruct Ha as [-> | Ha]; [left; reflexivity |].
        right. apply (In_tail_of_other 0 2); [lia | exact Ha].
      * destruct Hb as [-> | Hb]; [left; reflexivity |].
        right. apply (In_tail_of_other 1 2); [lia | exact Hb].
      * left. reflexivity.
      * destruct Hd as [-> | Hd]; [left; reflexivity |].
        right. apply (In_tail_of_other 3 2); [lia | exact Hd].
      * destruct a, b, d; cbn in *; congruence.
    + change (assign [a; b; c; d] 3 true) with (Ok (A := list bool) [a; b; c; true]).
      cbn [bind]. rewrite Hidx. cbn [bind].
      rewrite (may_step_eligible _ _ _ _ Hwf Hagree dir Hn). cbn [bind].
      destruct (eligible game_map width height e dir);
        [eexists; reflexivity |].
      destruct (forallb (fun x => x) [a; b; c; true]) eqn:Hall;
        [eexists; reflexivity |].
      apply IH; try assumption.
      * destruct Ha as [-> | Ha]; [left; reflexivity |].
        right. apply (In_tail_of_other 0 3); [lia | exact Ha].
      * destruct Hb as [-> | Hb]; [left; reflexivity |].
        right. apply (In_tail_of_other 1 3); [lia | exact Hb].
      * destruct Hc as [-> | Hc]; [left; reflexivity |].
        right. apply (In_tail_of_other 2 3); [lia | exact Hc].
      * left. reflexivity.
      * destruct a, b, c; cbn in *; congruence.
Qed.

Lemma draws_cover_In draws i :
  draws_cover draws = true -> In i [0; 1; 2; 3] -> In i draws.
Proof.
  unfold draws_cover. rewrite forallb_forall. intros H Hi.
  specialize (H _ Hi). apply existsb_exists in H.
  destruct H as [x [Hx E]]. apply Z.eqb_eq in E. subst x. exact Hx.
Qed.

(** X5.  The loop of the frightened branch comes to an end: on a map
    where [isValidPosition] and the array bounds agree around the enemy,
    and with draws between 0 and 3 among which each of the four values
    occurs, [enemy::move] of a frightened enemy returns.  It has used at
    least one draw and a prefix of the draws only. *)
Theorem frightened_move_terminates game_map width height pacman blinky draws e :
  grid_wf width height game_map ->
  checks_agree width height e = true ->
  mode e = FRIGHTENED ->
  draws_in_range draws = true ->
  draws_cover draws = true ->
  exists e' used rest,
    enemy_move game_map width height pacman blinky draws e = Ok (e', rest)
    /\ used <> [] /\ draws = used ++ rest.
Proof.
  intros Hwf Hagree Hm Hrange Hcover.
  unfold enemy_move. rewrite Hm. cbn [ENEMY_MODE_eqb].
  destruct (wander_defined _ _ _ _ Hwf Hagree draws false false false false
              Hrange) as [[[np nm] rest] Hw].
  - right. apply (draws_cover_In _ _ Hcover). cbn. auto.
  - right. apply (draws_cover_In _ _ Hcover). cbn. auto.
  - right. apply (draws_cover_In _ _ Hcover). cbn. auto.
  - right. apply (draws_cover_In _ _ Hcover). cbn. auto.
  - reflexivity.
  - rewrite Hw. cbn [bind].
    destruct (wander_consumes _ _ _ _ _ _ _ _ _ Hw) as (used & Hne & Hd).
    eexists. exists used, rest. split; [reflexivity |]. split; assumption.
Qed.

(** A frightened Blinky shut in by four walls: every draw is refused,
    and the walk ends with the draw that completes the four values. *)
Lemma frightened_move_terminates_witness :
  let cell := map_with_walls [(8, 15); (8, 17); (7, 16); (9, 16)] in
  let e := set_mode (initial_ghost BLINKY) FRIGHTENED in
  exists e' used rest,
    enemy_move cell HEIGHT WIDTH initial_pacman e [2; 2; 0; 1; 0; 3; 1; 2] e
    = Ok (e', rest)
    /\ used <> [] /\ [2; 2; 0; 1; 0; 3; 1; 2] = used ++ rest.
Proof.
  cbv zeta.
  apply (frightened_move_terminates
           (map_with_walls [(8, 15); (8, 17); (7, 16); (9, 16)])
           HEIGHT WIDTH initial_pacman
           (set_mode (initial_ghost BLINKY) FRIGHTENED)
           [2; 2; 0; 1; 0; 3; 1; 2]
           (set_mode (initial_ghost BLINKY) FRIGHTENED)).
  - apply grid_wfb_wf. vm_compute. reflexivity.
  - vm_compute. reflexivity.
  - reflexivity.
  - vm_compute. reflexivity.
  - vm_compute. reflexivity.
Defined.

(** ** [player::move] inside the map *)

(** X6.  When the cell in front of the player is a cell of the map,
    [player::move] returns; the player is then on that cell if its
    character is one of [ .@[]BPIC], and has not moved otherwise.
    Nothing but the position changes, and the position changes by one
    cell at most (the cell is [player_probe]). *)
Theorem player_move_in_bounds width height game_map p :
  grid_wf width height game_map ->
  in_array width height (player_probe p) = true ->
  exists ch p',
    at2 game_map (fst (player_probe p)) (snd (player_probe p)) = Ok ch
    /\ player_move game_map p = Ok p'
    /\ p_pos p' = (if found_in " .@[]BPIC" ch then player_probe p else p_pos p)
    /\ p' = set_p_pos p (p_pos p').
Proof.
  intros Hwf Hin.
  destruct (at2_in_array _ _ _ _ Hwf Hin) as [ch Hch].
  unfold player_move. destruct (player_probe p) as [r c] eqn:Hp.
  cbn [fst snd] in *. rewrite Hch. cbn [bind].
  unfold player_has_no_collision. exists ch.
  destruct (found_in " .@[]BPIC" ch); eexists;
    (split; [reflexivity |]); (split; [reflexivity |]);
    (split; [reflexivity |]).
  - reflexivity.
  - destruct p; reflexivity.
Qed.

(** The player of [main] under a wall: the move is refused. *)
Lemma player_move_in_bounds_witness :
  let walled := map_with_walls [(15, 20)] in
  exists ch p',
    at2 walled 15 20 = Ok ch
    /\ player_move walled initial_pacman = Ok p'
    /\ p_pos p' = (if found_in " .@[]BPIC" ch then (15, 20) else (16, 20))
    /\ p' = set_p_pos initial_pacman (p_pos p').
Proof.
  cbv zeta.
  apply (player_move_in_bounds HEIGHT WIDTH (map_with_walls [(15, 20)])
                               initial_pacman).
  - apply grid_wfb_wf. vm_compute. reflexivity.
  - vm_compute. reflexivity.
Defined.

(** ** Loading a file of recognised characters *)

Lemma last_in_line_sound c buff : forall i k,
  last_in_line c i buff = Some k ->
  i <= k /\ nth_error buff (Z.to_nat (k - i)) = Some c.
Proof.
  induction buff as [| x buff IH]; intros i k H; [discriminate |].
  cbn [last_in_line] in H.
  destruct (last_in_line c (i + 1) buff) as [k' |] eqn:E.
  - injection H as <-. destruct (IH _ _ E) as [Hle Hn].
    split; [lia |].
    replace (Z.to_nat (k' - i)) with (S (Z.to_nat (k' - (i + 1)))) by lia.
    exact Hn.
  - destruct (Ascii.eqb_spec x c) as [-> | _]; [| discriminate].
    injection H as <-. split; [lia |].
    rewrite Z.sub_diag. reflexivity.
Qed.

Lemma last_in_line_None c buff : forall i,
  last_in_line c i buff = None -> ~ In c buff.
Proof.
  induction buff as [| x buff IH]; intros i H Hin; [exact Hin |].
  cbn [last_in_line] in H.
  destruct (last_in_line c (i + 1) buff) eqn:E; [discriminate |].
  destruct (Ascii.eqb_spec x c) as [-> | Hne]; [discriminate |].
  destruct Hin as [-> | Hin]; [congruence | exact (IH _ E Hin)].
Qed.

Lemma last_in_file_sound c lines : forall row r k,
  last_in_file c row lines = Some (r, k) ->
  row <= r /\ 0 <= k
  /\ exists buff,
      nth_error lines (Z.to_nat (r - row)) = Some buff
      /\ nth_error buff (Z.to_nat k) = Some c.
Proof.
  induction lines as [| buff lines IH]; intros row r k H; [discriminate |].
  cbn [last_in_file] in H.
  destruct (last_in_file c (row + 1) lines) as [at_ |] eqn:E.
  - injection H as ->. destruct (IH _ _ _ E) as (Hle & Hk & b & Hn & Hc).
    split; [lia |]. split; [exact Hk |]. exists b.
    replace (Z.to_nat (r - row)) with (S (Z.to_nat (r - (row + 1)))) by lia.
    split; assumption.
  - destruct (last_in_line c 0 buff) as [i |] eqn:El; [| discriminate].
    injection H as <- <-.
    destruct (last_in_line_sound _ _ _ _ El) as [Hle Hn].
    rewrite Z.sub_0_r in Hn.
    split; [lia |]. split; [exact Hle |]. exists buff.
    rewrite Z.sub_diag. split; [reflexivity | exact Hn].
Qed.

Lemma last_in_file_None c lines : forall row,
  last_in_file c row lines = None ->
  forall buff, In buff lines -> ~ In c buff.
Proof.
  induction lines as [| b lines IH]; intros row H buff Hin; [destruct Hin |].
  cbn [last_in_file] in H.
  destruct (last_in_file c (row + 1) lines) eqn:E; [discriminate |].
  destruct (last_in_line c 0 b) eqn:El; [discriminate |].
  destruct Hin as [<- | Hin].
  - exact (last_in_line_None _ _ _ El).
  - exact (IH _ E _ Hin).
Qed.

Lemma filter_all {A : Type} (f : A -> bool) (l : list A) :
  forallb f l = true -> filter f l = l.
Proof.
  induction l as [| x l IH]; [reflexivity |].
  cbn [forallb filter]. intros H. apply andb_true_iff in H.
  destruct H as [Hx Hl]. rewrite Hx, (IH Hl). reflexivity.
Qed.

Lemma clean_file_kept lines :
  clean_file lines = true ->
  map (filter (found_in loader_valid_chars)) lines = lines.
Proof.
  unfold clean_file. induction lines as [| buff lines IH]; [reflexivity |].
  cbn [forallb map]. intros H. apply andb_true_iff in H.
  destruct H as [Hb Hl]. rewrite (filter_all _ _ Hb), (IH Hl). reflexivity.
Qed.

(** X7.  A file all of whose characters are recognised is stored as it
    is, and its portals are where their brackets are: if a closing
    bracket occurs, the cell [portal_1] of the stored lines holds a
    closing bracket; if an opening bracket occurs, the cell [portal_2]
    holds an opening bracket; and a portal whose bracket does not occur
    is left as it was. *)
Theorem clean_file_portals lines player_ :
  clean_file lines = true ->
  exists player',
    get_map_str (Some lines) player_ = Ok (lines, player')
    /\ ((exists buff, In buff lines /\ In "]" buff) ->
        at2 lines (fst (portal_1 player')) (snd (portal_1 player')) = Ok "]")
    /\ ((exists buff, In buff lines /\ In "[" buff) ->
        at2 lines (fst (portal_2 player')) (snd (portal_2 player')) = Ok "[")
    /\ ((forall buff, In buff lines -> ~ In "]" buff) ->
        portal_1 player' = portal_1 player_)
    /\ ((forall buff, In buff lines -> ~ In "[" buff) ->
        portal_2 player' = portal_2 player_).
Proof.
  intros Hclean. unfold get_map_str.
  pose proof (scan_lines_spec lines [] player_) as H. cbv zeta in H.
  destruct (scan_lines lines [] player_) as [vec p'].
  cbn [fst snd List.length Z.of_nat app] in H.
  destruct H as (Hl & _ & _ & H1 & H2 & _).
  rewrite clean_file_kept in Hl by exact Hclean. subst vec.
  exists p'. split; [reflexivity |].
  assert (Hcell : forall c at_,
            last_in_file c 0 lines = Some at_ ->
            at2 lines (fst at_) (snd at_) = Ok c).
  { intros c [r k] E. cbn [fst snd].
    destruct (last_in_file_sound _ _ _ _ _ E) as (Hr & Hk & b & Hn & Hc).
    rewrite Z.sub_0_r in Hn. unfold at2.
    rewrite (index_of_nth_error lines r b) by assumption.
    cbn [bind]. apply index_of_nth_error; assumption. }
  split; [| split; [| split]].
  - intros (buff & Hin & Hc). rewrite H1.
    destruct (last_in_file "]" 0 lines) as [at_ |] eqn:E.
    + exact (Hcell _ _ E).
    + exfalso. exact (last_in_file_None _ _ _ E _ Hin Hc).
  - intros (buff & Hin & Hc). rewrite H2.
    destruct (last_in_file "[" 0 lines) as [at_ |] eqn:E.
    + exact (Hcell _ _ E).
    + exfalso. exact (last_in_file_None _ _ _ E _ Hin Hc).
  - intros Hno. rewrite H1.
    destruct (last_in_file "]" 0 lines) as [[r k] |] eqn:E; [| reflexivity].
    exfalso.
    destruct (last_in_file_sound _ _ _ _ _ E) as (_ & _ & b & Hn & Hc).
    apply nth_error_In in Hn, Hc. exact (Hno _ Hn Hc).
  - intros Hno. rewrite H2.
    destruct (last_in_file "[" 0 lines) as [[r k] |] eqn:E; [| reflexivity].
    exfalso.
    destruct (last_in_file_sound _ _ _ _ _ E) as (_ & _ & b & Hn & Hc).
    apply nth_error_In in Hn, Hc. exact (Hno _ Hn Hc).
Qed.

Lemma clean_file_portals_witness :
  let lines := map list_ascii_of_string
                 ["#######"%string; "[ .@. ]"%string; "#######"%string] in
  exists player',
    get_map_str (Some lines) initial_pacman = Ok (lines, player')
    /\ at2 lines (fst (portal_1 player')) (snd (portal_1 player')) = Ok "]"
    /\ at2 lines (fst (portal_2 player')) (snd (portal_2 player')) = Ok "[".
Proof.
  cbv zeta.
  destruct (clean_file_portals
              (map list_ascii_of_string
                 ["#######"%string; "[ .@. ]"%string; "#######"%string])
              initial_pacman) as (p' & Hload & H1 & H2 & _).
  - vm_compute. reflexivity.
  - exists p'. split; [exact Hload |]. split.
    + apply H1. exists (list_ascii_of_string "[ .@. ]").
      split; [right; left; reflexivity |].
      cbn. tauto.
    + apply H2. exists (list_ascii_of_string "[ .@. ]").
      split; [right; left; reflexivity |].
      cbn. tauto.
Defined.

(** ** What [update_map] writes *)

Lemma assign2_keeps_wf width height g r c x g' :
  grid_wf width height g -> assign2 g r c x = Ok g' ->
  grid_wf width height g'.
Proof.
  intros [Hh Hw] H.
  destruct (assign2_inv _ _ _ _ _ H) as (row & _ & _ & _ & Hn & ->).
  split.
  - rewrite replace_nth_length. exact Hh.
  - apply replace_nth_Forall; [exact Hw |].
    rewrite replace_nth_length. apply nth_error_In in Hn.
    rewrite Forall_forall in Hw. exact (Hw _ Hn).
Qed.

Lemma map_replace_nth {A B : Type} (f : A -> B) (l : list A) n x a :
  nth_error l n = Some x -> f a = f x ->
  map f (replace_nth l n a) = map f l.
Proof.
  revert n. induction l as [| y l IH]; intros [| n] H E; cbn in *;
    try discriminate.
  - injection H as ->. rewrite E. reflexivity.
  - rewrite (IH _ H E). reflexivity.
Qed.

Lemma assign2_keeps_shape (vec : list (list ascii)) r c x vec' :
  assign2 vec r c x = Ok vec' ->
  map (@List.length ascii) vec' = map (@List.length ascii) vec.
Proof.
  intros H.
  destruct (assign2_inv _ _ _ _ _ H) as (row & _ & _ & _ & Hn & ->).
  apply (map_replace_nth _ _ _ row); [exact Hn |].
  apply replace_nth_length.
Qed.

Lemma overlay_keeps_wf width vec : forall g m,
  overlay vec g = Ok m ->
  Forall (fun row => Z.of_nat (List.length row) = width) g ->
  List.length m = List.length g
  /\ Forall (fun row => Z.of_nat (List.length row) = width) m.
Proof.
  induction vec as [| line vec IH]; intros g m H Hw.
  - destruct g; injection H as <-; split; (reflexivity || assumption).
  - destruct g as [| row g]; cbn in H; [discriminate |].
    bind_inv H. injection H as <-.
    apply Forall_cons_iff in Hw. destruct Hw as [Hrow Hrest].
    destruct (IH _ _ E Hrest) as [Hl Hf].
    split; [cbn; lia |].
    constructor; [rewrite overlay_row_length; exact Hrow | exact Hf].
Qed.

Lemma draw_actors_inv s s' :
  draw_actors s = Ok s' ->
  exists m0 m1 m2 m3 m4,
    assign2 (game_map s) (fst (p_pos (pacman s))) (snd (p_pos (pacman s)))
            (player_glyph (pacman s)) = Ok m0
    /\ assign2 m0 (fst (e_pos (ghost1 s))) (snd (e_pos (ghost1 s)))
               (icon (ghost1 s)) = Ok m1
    /\ assign2 m1 (fst (e_pos (ghost2 s))) (snd (e_pos (ghost2 s)))
               (icon (ghost2 s)) = Ok m2
    /\ assign2 m2 (fst (e_pos (ghost3 s))) (snd (e_pos (ghost3 s)))
               (icon (ghost3 s)) = Ok m3
    /\ assign2 m3 (fst (e_pos (ghost4 s))) (snd (e_pos (ghost4 s)))
               (icon (ghost4 s)) = Ok m4
    /\ s' = set_game_map s m4.
Proof.
  unfold draw_actors. intros H.
  bind_inv H. bind_inv H. bind_inv H. bind_inv H. bind_inv H.
  injection H as <-.
  exists a, a0, a1, a2, a3. repeat split; assumption.
Qed.

(** X8.  [update_map] keeps the sizes of its two containers: a map of
    [height] rows of [width] characters is one afterwards, and every
    line of the persistent layer keeps its length. *)
Theorem update_map_keeps_sizes width height s s' :
  update_map s = Ok s' ->
  grid_wf width height (game_map s) ->
  grid_wf width height (game_map s')
  /\ map (@List.length ascii) (game_vec s')
     = map (@List.length ascii) (game_vec s).
Proof.
  intros H Hwf.
  destruct (update_map_inv _ _ H) as (m & s1 & s2 & Ho & He & Hd & ->).
  destruct (collide_frame s2) as (Cv & _ & _ & _ & _ & Cm & _).
  rewrite Cv, Cm.
  destruct (blank_map_wf _ _ _ Hwf) as [Bh Bw].
  destruct (overlay_keeps_wf _ _ _ _ Ho Bw) as [Ol Of].
  assert (Mwf : grid_wf width height m) by (split; [lia | exact Of]).
  destruct (eat_or_teleport_spec _ _ He)
    as (ch & _ & (Gm & _) & _ & Hdot & Hat & Hother).
  cbn [game_map game_vec pacman set_game_map] in *.
  destruct (draw_actors_inv _ _ Hd)
    as (m0 & m1 & m2 & m3 & m4 & A0 & A1 & A2 & A3 & A4 & ->).
  cbn [game_map game_vec set_game_map]. rewrite Gm in A0.
  split.
  - eapply assign2_keeps_wf; [| exact A4].
    eapply assign2_keeps_wf; [| exact A3].
    eapply assign2_keeps_wf; [| exact A2].
    eapply assign2_keeps_wf; [| exact A1].
    eapply assign2_keeps_wf; [exact Mwf | exact A0].
  - case_char ch "."; [| case_char ch "@"].
    + destruct (Hdot eq_refl) as (Ha & _).
      exact (assign2_keeps_shape _ _ _ _ _ Ha).
    + destruct (Hat eq_refl) as (Ha & _).
      exact (assign2_keeps_shape _ _ _ _ _ Ha).
    + destruct (Hother n n0) as (-> & _). reflexivity.
Qed.

Lemma update_map_keeps_sizes_witness :
  let s := game_on ["[ .@ ]"%string] (0, 2) in
  grid_wf HEIGHT WIDTH (game_map (after_update_map s))
  /\ map (@List.length ascii) (game_vec (after_update_map s)) = [6%nat].
Proof.
  cbv zeta.
  apply (update_map_keeps_sizes HEIGHT WIDTH (game_on ["[ .@ ]"%string] (0, 2))).
  - vm_compute. reflexivity.
  - apply grid_wfb_wf. vm_compute. reflexivity.
Defined.

Lemma coord_eqb_false_of_neq a b : a <> b -> coord_eqb a b = false.
Proof.
  intros H. destruct (coord_eqb a b) eqn:E; [| reflexivity].
  apply coord_eqb_eq in E. contradiction.
Qed.

(** X9.  The only cell of the persistent layer [update_map] can change
    is the player's: every other cell reads as before, and the player's
    cell is a blank if it held a pellet or a power pellet and reads as
    before otherwise.  An enemy on a pellet leaves it where it is. *)
Theorem update_map_layer_elsewhere s s' :
  update_map s = Ok s' ->
  (forall cell, cell <> p_pos (pacman s) ->
     at2 (game_vec s') (fst cell) (snd cell)
     = at2 (game_vec s) (fst cell) (snd cell))
  /\ layer_char (game_vec s') (p_pos (pacman s))
     = (if holds_pellet (game_vec s) (p_pos (pacman s)) then " "
        else layer_char (game_vec s) (p_pos (pacman s))).
Proof.
  intros H.
  destruct (update_map_effect _ _ H) as [_ Hcases]. cbv zeta in Hcases.
  assert (Heat : forall x,
            at2 (game_vec s) (fst (p_pos (pacman s)))
                (snd (p_pos (pacman s))) = Ok x ->
            Ascii.eqb x "." || Ascii.eqb x "@" = true ->
            assign2 (game_vec s) (fst (p_pos (pacman s)))
                    (snd (p_pos (pacman s))) " " = Ok (game_vec s') ->
            (forall cell, cell <> p_pos (pacman s) ->
               at2 (game_vec s') (fst cell) (snd cell)
               = at2 (game_vec s) (fst cell) (snd cell))
            /\ layer_char (game_vec s') (p_pos (pacman s))
               = (if holds_pellet (game_vec s) (p_pos (pacman s)) then " "
                  else layer_char (game_vec s) (p_pos (pacman s)))).
  { intros x Hx Hpel Ha. split.
    - intros cell Hne.
      rewrite (at2_assign2 _ _ _ _ _ (fst cell) (snd cell) Ha).
      destruct (at2 (game_vec s) (fst cell) (snd cell)); [| reflexivity].
      rewrite coord_eqb_false_of_neq; [reflexivity |].
      intros E. apply Hne. destruct cell, (p_pos (pacman s)). exact E.
    - unfold layer_char, holds_pellet.
      rewrite (at2_assign2 _ _ _ _ _ _ _ Ha), Hx, Hpel.
      rewrite (proj2 (coord_eqb_eq _ _) eq_refl). reflexivity. }
  destruct Hcases as [(Hv & Ha & _) | [(Hv & Ha & _) | (Hnp & Hg & _)]].
  - exact (Heat _ Hv eq_refl Ha).
  - exact (Heat _ Hv eq_refl Ha).
  - rewrite Hg. split; [reflexivity |].
    unfold pellet_under_player in Hnp. rewrite Hnp. reflexivity.
Qed.

(** A frightened ghost 1 stands on the pellet of the line, the player on
    the power pellet: after [update_map] the pellet is still there and
    the power pellet is gone. *)
Lemma update_map_layer_elsewhere_witness :
  let s := with_scared_ghost1 (0, 2) 0 (game_on ["[ .@ ]"%string] (0, 3)) in
  at2 (game_vec (after_update_map s)) 0 2 = Ok "."
  /\ layer_char (game_vec (after_update_map s)) (0, 3) = " ".
Proof.
  cbv zeta.
  destruct (update_map_layer_elsewhere
              (with_scared_ghost1 (0, 2) 0 (game_on ["[ .@ ]"%string] (0, 3)))
              (after_update_map
                 (with_scared_ghost1 (0, 2) 0
                    (game_on ["[ .@ ]"%string] (0, 3)))))
    as [Hrest Hcell].
  - vm_compute. reflexivity.
  - split.
    + assert (Hne : (0, 2) <> p_pos (pacman
                        (with_scared_ghost1 (0, 2) 0
                           (game_on ["[ .@ ]"%string] (0, 3)))))
        by (vm_compute; discriminate).
      pose proof (Hrest (0, 2) Hne) as E. cbn [fst snd] in E.
      rewrite E. vm_compute. reflexivity.
    + exact Hcell.
Defined.

Lemma collide_player s :
  pacman (collide s) = pacman s
  \/ pacman (collide s) = set_is_over (pacman s) true.
Proof.
  unfold collide, resolve_collisions.
  destruct (catches (ghost1 s) (pacman s) || catches (ghost2 s) (pacman s)
            || catches (ghost3 s) (pacman s) || catches (ghost4 s) (pacman s));
    [right | left]; split_ifs; reflexivity.
Qed.

(** X10.  The map after [update_map], cell by cell: on a cell of the map
    stands the glyph of the last enemy written there (ghost 4, else
    ghost 3, ghost 2, ghost 1, each where it stood and with the glyph it
    had when [update_map] began, also when the collision code has sent
    it away since), else the player's glyph on the player's cell, else
    the character the persistent layer had there, or a blank where the
    layer has none. *)
Theorem update_map_shows width height s s' :
  update_map s = Ok s' ->
  grid_wf width height (game_map s) ->
  forall cell,
    in_array width height cell = true ->
    at2 (game_map s') (fst cell) (snd cell) = Ok (shown s s' cell).
Proof.
  intros H Hwf cell Hin.
  destruct (update_map_inv _ _ H) as (m & s1 & s2 & Ho & He & Hd & ->).
  destruct (collide_frame s2)
    as (_ & _ & _ & _ & _ & Cm & _ & _ & Cp & _).
  destruct (blank_map_wf _ _ _ Hwf) as [Bh Bw].
  destruct (overlay_keeps_wf _ _ _ _ Ho Bw) as [Ol Of].
  assert (Mwf : grid_wf width height m) by (split; [lia | exact Of]).
  destruct (eat_or_teleport_spec _ _ He)
    as (ch & _ & (Gm & G1 & G2 & G3 & G4 & _)
        & (_ & _ & _ & _ & Pd & Pa) & _).
  cbn [game_map game_vec pacman set_game_map ghost1 ghost2 ghost3 ghost4] in *.
  destruct (draw_actors_inv _ _ Hd)
    as (m0 & m1 & m2 & m3 & m4 & A0 & A1 & A2 & A3 & A4 & ->).
  cbn [game_map pacman set_game_map] in *.
  rewrite Gm in A0. rewrite G1 in A1. rewrite G2 in A2.
  rewrite G3 in A3. rewrite G4 in A4.
  (* the cell before any sprite is written *)
  destruct (at2_in_array _ _ _ _ Mwf Hin) as [c0 Hc0].
  assert (Hlayer : c0 = layer_char (game_vec s) cell).
  { unfold layer_char.
    destruct (overlay_cell _ _ _ _ _ _ Ho Hc0) as [Hv | [-> [e Hv]]];
      rewrite Hv; reflexivity. }
  rewrite Cm.
  rewrite (at2_assign2 _ _ _ _ _ (fst cell) (snd cell) A4).
  rewrite (at2_assign2 _ _ _ _ _ (fst cell) (snd cell) A3).
  rewrite (at2_assign2 _ _ _ _ _ (fst cell) (snd cell) A2).
  rewrite (at2_assign2 _ _ _ _ _ (fst cell) (snd cell) A1).
  rewrite (at2_assign2 _ _ _ _ _ (fst cell) (snd cell) A0).
  rewrite Hc0. unfold shown. rewrite Cp.
  assert (Hglyph : player_glyph (pacman (collide (set_game_map s1 m4)))
                   = player_glyph (pacman s1)).
  { destruct (collide_player (set_game_map s1 m4)) as [-> | ->];
      reflexivity. }
  rewrite Hglyph.
  assert (Hpair : forall at_ : coord,
            coord_eqb (fst cell, snd cell) (fst at_, snd at_)
            = coord_eqb cell at_) by reflexivity.
  rewrite !Hpair.
  destruct (coord_eqb cell (p_pos (pacman s1)));
    destruct (coord_eqb cell (e_pos (ghost1 s)));
    destruct (coord_eqb cell (e_pos (ghost2 s)));
    destruct (coord_eqb cell (e_pos (ghost3 s)));
    destruct (coord_eqb cell (e_pos (ghost4 s)));
    rewrite ?Hlayer; reflexivity.
Qed.

(** Ghost 1 frightened on the player's cell: the cell shows its [X],
    although the collision code has sent it to (8, 16), where the map
    shows a blank. *)
Lemma update_map_shows_witness :
  let s := with_scared_ghost1 (0, 3) 5 (game_on ["[ .@ ]"%string] (0, 3)) in
  at2 (game_map (after_update_map s)) 0 3 = Ok "X"
  /\ e_pos (ghost1 (after_update_map s)) = (8, 16)
  /\ at2 (game_map (after_update_map s)) 8 16 = Ok " ".
Proof.
  cbv zeta.
  set (s := with_scared_ghost1 (0, 3) 5 (game_on ["[ .@ ]"%string] (0, 3))).
  assert (H : update_map s = Ok (after_update_map s))
    by (vm_compute; reflexivity).
  assert (Hwf : grid_wf HEIGHT WIDTH (game_map s))
    by (apply grid_wfb_wf; vm_compute; reflexivity).
  split; [| split].
  - pose proof (update_map_shows _ _ _ _ H Hwf (0, 3) eq_refl) as E.
    cbn [fst snd] in E. rewrite E. vm_compute. reflexivity.
  - vm_compute. reflexivity.
  - pose proof (update_map_shows _ _ _ _ H Hwf (8, 16) eq_refl) as E.
    cbn [fst snd] in E. rewrite E. vm_compute. reflexivity.
Defined.

(** ** The clock of the loop *)

Lemma advance_timers_secs s :
  secs (advance_timers s)
  = if (frameCount s =? 0) && negb (secs s =? 7)
    then to_int (secs s + 1) else secs s.
Proof.
  unfold advance_timers, map_ghosts, restore_icons.
  destruct ((frameCount s =? 0) && negb (secs s =? 7)).
  - cbn [frightened_countdown set_frameCount set_secs]. split_ifs; reflexivity.
  - split_ifs; reflexivity.
Qed.

Lemma every_tenth_frame_secs draws s s2 draws' :
  every_tenth_frame draws s = Ok (s2, draws') ->
  secs s2 = (if (frameCount s =? 0) && negb (secs s =? 7)
             then to_int (secs s + 1) else secs s)
  /\ game_is_running s2 = game_is_running s.
Proof.
  unfold every_tenth_frame. intros H.
  destruct (Z.eqb_spec (Z.rem (frameCount s) 10) 0) as [E | E].
  - bind_inv H. destruct a as [m d]. injection H as <- <-.
    destruct (move_actors_frame _ _ _ _ E0) as ((_ & _ & Mf & Ms & Mr) & _).
    destruct (advance_timers_frame m) as (_ & _ & Ar & _).
    rewrite advance_timers_secs, Mf, Ms, Ar. split; [reflexivity | exact Mr].
  - injection H as <- <-.
    destruct (Z.eqb_spec (frameCount s) 0) as [E0 | E0].
    + rewrite E0 in E. cbn in E. contradiction.
    + split; reflexivity.
Qed.

Lemma poll_input_running key s :
  game_is_running (poll_input key s)
  = match key with
    | Some k => if Ascii.eqb k "q" then false else game_is_running s
    | None => game_is_running s
    end.
Proof.
  unfold poll_input, quit_on_q, steer. destruct key as [k |].
  - case_char k "q".
    + cbn [Ascii.eqb Bool.eqb andb orb]. split_ifs; reflexivity.
    + split_ifs; reflexivity.
  - split_ifs; reflexivity.
Qed.

(** One iteration and the three counters of [main]. *)
Lemma tick_clock key draws s s' draws' :
  tick key draws s = Ok (s', draws') ->
  0 <= frameCount s < 60 -> 0 <= secs s <= 7 ->
  frameCount s' = (frameCount s + 1) mod 60
  /\ secs s' = (if (frameCount s' =? 0) && negb (secs s =? 7)
                then secs s + 1 else secs s)
  /\ game_is_running s'
     = match key with
       | Some k => if Ascii.eqb k "q" then false else game_is_running s
       | None => game_is_running s
       end.
Proof.
  intros H Hf Hs.
  destruct (tick_inv _ _ _ _ _ H) as (s2 & He & Hu).
  destruct (before_moves_frame key s) as ((_ & _ & Bs) & _ & Bf).
  cbv zeta in Bs, Bf. rewrite to_int_small in Bf by lia.
  assert (Hframe : frameCount (before_moves key s) = (frameCount s + 1) mod 60).
  { rewrite Bf. destruct (Z.eqb_spec (frameCount s + 1) 60) as [E | E].
    - rewrite E. reflexivity.
    - rewrite Z.mod_small by lia. reflexivity. }
  destruct (every_tenth_frame_spec _ _ _ _ He) as ((_ & Ef) & _).
  destruct (every_tenth_frame_secs _ _ _ _ He) as (Es & Er).
  destruct (update_map_effect _ _ Hu) as [(_ & _ & _ & Us & Uf & Ur) _].
  assert (Hrun : game_is_running (before_moves key s)
                 = game_is_running (poll_input key s)).
  { assert (B : game_is_running (begin_frame s) = game_is_running s).
    { unfold begin_frame, map_ghosts. split_ifs; reflexivity. }
    unfold before_moves, wrap_frame.
    destruct (frameCount (poll_input key (begin_frame s)) =? 60);
      cbn [game_is_running set_frameCount];
      rewrite !poll_input_running, B; reflexivity. }
  split; [congruence |]. split.
  - rewrite Us, Es, Uf, Ef, Bs.
    destruct ((frameCount (before_moves key s) =? 0) && negb (secs s =? 7))
      eqn:E; [| reflexivity].
    apply to_int_small. lia.
  - rewrite Ur, Er, Hrun. apply poll_input_running.
Qed.

Lemma run_clock keys : forall n draws s s' draws',
  run keys draws s = Ok (s', draws') ->
  0 <= n ->
  frameCount s = n mod 60 -> secs s = Z.min (n / 60) 7 ->
  game_is_running s = true ->
  no_quit keys = true ->
  frameCount s' = (n + Z.of_nat (List.length keys)) mod 60
  /\ secs s' = Z.min ((n + Z.of_nat (List.length keys)) / 60) 7
  /\ game_is_running s' = true.
Proof.
  induction keys as [| key keys IH];
    intros n draws s s' draws' H Hn Hf Hs Hr Hq.
  - injection H as <- _. cbn [List.length Z.of_nat]. rewrite Z.add_0_r.
    repeat split; assumption.
  - cbn [run] in H. rewrite Hr in H. bind_inv H. destruct a as [s1 d1].
    cbn [no_quit forallb] in Hq. apply andb_true_iff in Hq.
    destruct Hq as [Hkey Hkeys].
    pose proof (Z.mod_pos_bound n 60 ltac:(lia)) as Hb.
    pose proof (Z.div_mod n 60 ltac:(lia)) as Hdm.
    pose proof (Z.mod_pos_bound (n + 1) 60 ltac:(lia)) as Hb1.
    pose proof (Z.div_mod (n + 1) 60 ltac:(lia)) as Hdm1.
    assert (Hq0 : 0 <= n / 60) by (apply Z.div_pos; lia).
    destruct (tick_clock _ _ _ _ _ E) as (Tf & Ts & Tr); [lia | lia |].
    assert (Hf1 : frameCount s1 = (n + 1) mod 60).
    { rewrite Tf, Hf. rewrite Zplus_mod_idemp_l. reflexivity. }
    assert (Hs1 : secs s1 = Z.min ((n + 1) / 60) 7).
    { rewrite Ts, Hf1, Hs.
      destruct (Z.eqb_spec ((n + 1) mod 60) 0) as [E0 | E0];
        destruct (Z.eqb_spec (Z.min (n / 60) 7) 7) as [E7 | E7];
        cbn [andb negb]; lia. }
    assert (Hr1 : game_is_running s1 = true).
    { rewrite Tr, Hr. destruct key as [k |]; [| reflexivity].
      cbn in Hkey. destruct (Ascii.eqb k "q"); [discriminate | reflexivity]. }
    replace (n + Z.of_nat (List.length (key :: keys)))
      with (n + 1 + Z.of_nat (List.length keys))
      by (cbn [List.length]; lia).
    apply (IH (n + 1) d1 s1 s' draws' H); (lia || assumption).
Qed.

(** X11.  As long as [q] is not pressed, after [n] iterations of the
    loop of [main] the frame counter is [n mod 60] and [secs] the number
    of whole seconds played, up to 7, where it stops; the game is still
    running. *)
Theorem clock_of_the_loop map_file grid keys draws s0 s draws' :
  initial_game map_file grid = Ok s0 ->
  no_quit keys = true ->
  run keys draws s0 = Ok (s, draws') ->
  frameCount s = Z.of_nat (List.length keys) mod 60
  /\ secs s = Z.min (Z.of_nat (List.length keys) / 60) 7
  /\ game_is_running s = true.
Proof.
  intros Hinit Hq Hrun.
  assert (H0 : frameCount s0 = 0 /\ secs s0 = 0 /\ game_is_running s0 = true).
  { unfold initial_game in Hinit. bind_inv Hinit. destruct a as [vec p].
    injection Hinit as <-. repeat split. }
  destruct H0 as (Hf & Hs & Hr).
  apply (run_clock keys 0 draws s0 s draws' Hrun); try assumption.
  lia.
Qed.

(** Every actor shut in on its start cell, and 485 iterations without a
    keystroke: eight seconds and five frames, and [secs] is 7. *)
Lemma clock_of_the_loop_witness :
  let s := fst (after_run (repeat None 485) [] (game_with_walls cages)) in
  frameCount s = 5 /\ secs s = 7 /\ game_is_running s = true.
Proof.
  cbv zeta.
  apply (clock_of_the_loop (Some (map_with_walls cages))
           (repeat (repeat " " (Z.to_nat HEIGHT)) (Z.to_nat WIDTH))
           (repeat None 485) []
           (game_with_walls cages)
           (fst (after_run (repeat None 485) [] (game_with_walls cages)))
           []).
  - vm_compute. reflexivity.
  - vm_compute. reflexivity.
  - vm_compute. reflexivity.
Defined.

(** ** The scatter mode *)

Lemma mode_step_trans a b c : mode_step a b -> mode_step b c -> mode_step a c.
Proof.
  unfold mode_step. intros [-> | [-> | ->]] H; auto.
Qed.

Lemma modes_step_trans a b c : modes_step a b -> modes_step b c -> modes_step a c.
Proof.
  unfold modes_step. intros (A1 & A2 & A3 & A4) (B1 & B2 & B3 & B4).
  repeat split; eapply mode_step_trans; eassumption.
Qed.

Lemma modes_step_of_eq s' s :
  map mode (ghosts s') = map mode (ghosts s) -> modes_step s' s.
Proof.
  unfold ghosts. cbn [map]. intros H. injection H as H1 H2 H3 H4.
  unfold modes_step, mode_step. auto.
Qed.

Lemma before_moves_ghosts key s :
  ghosts (before_moves key s) = ghosts (begin_frame s).
Proof.
  unfold before_moves, wrap_frame, poll_input, quit_on_q, steer.
  destruct key as [k |]; split_ifs; reflexivity.
Qed.

Lemma begin_frame_modes s :
  modes_step (begin_frame s) s
  /\ (frightened_countdown s = 0 -> secs s <> 7 ->
      ghosts (begin_frame s) = ghosts s).
Proof.
  unfold begin_frame, map_ghosts, modes_step, mode_step, ghosts.
  cbn [secs set_frameCount].
  destruct (Z.eqb_spec (secs s) 7) as [E7 | E7];
    cbn [frightened_countdown set_ghosts set_frameCount];
    destruct (Z.eqb_spec (frightened_countdown s) 0) as [E0 | E0];
    cbn [negb ghost1 ghost2 ghost3 ghost4 set_ghosts set_frameCount mode
         set_mode set_icon];
    (split; [auto 10 | intros; try contradiction; reflexivity]).
Qed.

Lemma advance_timers_modes s :
  modes_step (advance_timers s) s
  /\ (frightened_countdown s = 0 -> ghosts (advance_timers s) = ghosts s).
Proof.
  unfold advance_timers, map_ghosts, restore_icons, modes_step, mode_step,
    ghosts.
  cbn [frightened_countdown set_frameCount set_secs].
  destruct (Z.eqb_spec (frightened_countdown s) 0) as [E0 | E0]; cbn [negb].
  - rewrite andb_false_r. split_ifs; cbn; auto 10.
  - split; [| intros; contradiction].
    split_ifs; cbn; auto 10.
Qed.

Lemma every_tenth_frame_modes draws s s2 draws' :
  every_tenth_frame draws s = Ok (s2, draws') ->
  modes_step s2 s
  /\ (frightened_countdown s = 0 ->
      map mode (ghosts s2) = map mode (ghosts s)).
Proof.
  unfold every_tenth_frame. intros H.
  destruct (Z.rem (frameCount s) 10 =? 0).
  - bind_inv H. destruct a as [m d]. injection H as <- <-.
    destruct (move_actors_frame _ _ _ _ E) as ((_ & Mc & _) & _ & Mm & _).
    destruct (advance_timers_modes m) as [Am Az].
    split.
    + eapply modes_step_trans; [exact Am |]. apply modes_step_of_eq, Mm.
    + intros Hz. rewrite Az by congruence. exact Mm.
  - injection H as <- <-. split; [| reflexivity].
    apply modes_step_of_eq. reflexivity.
Qed.

Lemma is_eaten_scatter g :
  mode g = SCATTER -> forall p, is_eaten g p = false.
Proof.
  intros H p. unfold is_eaten. rewrite H. apply andb_false_r.
Qed.

Lemma collide_modes s :
  modes_step (collide s) s
  /\ (all_scatter s -> ghosts (collide s) = ghosts s).
Proof.
  split.
  - unfold collide, resolve_collisions, modes_step, mode_step.
    split_ifs; cbn; auto 10.
  - unfold all_scatter, ghosts. cbn [map]. intros H.
    injection H as H1 H2 H3 H4.
    unfold collide, resolve_collisions.
    rewrite (is_eaten_scatter _ H1), (is_eaten_scatter _ H2),
      (is_eaten_scatter _ H3).
    cbv iota beta. rewrite (is_eaten_scatter _ H4). reflexivity.
Qed.

Lemma update_map_modes s s' :
  update_map s = Ok s' ->
  modes_step s' s /\ (all_scatter s -> all_scatter s').
Proof.
  intros H.
  destruct (update_map_inv _ _ H) as (m & s1 & s2 & Ho & He & Hd & ->).
  destruct (eat_or_teleport_spec _ _ He)
    as (ch & _ & (_ & G1 & G2 & G3 & G4 & _) & _).
  destruct (draw_actors_frame _ _ Hd) as [m' ->].
  cbn [ghost1 ghost2 ghost3 ghost4 set_game_map] in *.
  assert (G : ghosts (set_game_map s1 m') = ghosts s).
  { unfold ghosts. cbn. congruence. }
  destruct (collide_modes (set_game_map s1 m')) as [Cm Cs].
  split.
  - eapply modes_step_trans; [exact Cm |].
    apply modes_step_of_eq. rewrite G. reflexivity.
  - intros Hs. unfold all_scatter in *. rewrite Cs, G; [exact Hs |].
    unfold all_scatter. rewrite G. exact Hs.
Qed.

(** X12.  No step of the loop puts an enemy into [SCATTER] mode: an
    enemy that is in [SCATTER] mode after an iteration was in it
    before.  And while [secs] is not 7 and the countdown is 0 at the
    start of the iteration, four enemies in [SCATTER] mode stay in it. *)
Theorem scatter_is_never_entered key draws s s' draws' :
  tick key draws s = Ok (s', draws') ->
  (forall i g g',
     nth_error (ghosts s) i = Some g -> nth_error (ghosts s') i = Some g' ->
     mode g' = SCATTER -> mode g = SCATTER)
  /\ (all_scatter s -> frightened_countdown s = 0 -> secs s <> 7 ->
      all_scatter s').
Proof.
  intros H.
  destruct (tick_inv _ _ _ _ _ H) as (s2 & He & Hu).
  destruct (begin_frame_modes s) as [Bm Bz].
  destruct (every_tenth_frame_modes _ _ _ _ He) as [Em Ez].
  destruct (update_map_modes _ _ Hu) as [Um Us].
  assert (Hstep : modes_step s' s).
  { eapply modes_step_trans; [exact Um |].
    eapply modes_step_trans; [exact Em |].
    eapply modes_step_trans; [| exact Bm].
    apply modes_step_of_eq. rewrite before_moves_ghosts. reflexivity. }
  split.
  - intros i g g' Hg Hg' Hsc.
    destruct Hstep as (S1 & S2 & S3 & S4). unfold ghosts in Hg, Hg'.
    destruct i as [| [| [| [| i]]]]; cbn in Hg, Hg';
      try (destruct i; discriminate);
      injection Hg as <-; injection Hg' as <-;
      match goal with
      | S : mode_step (mode ?a) (mode ?b), Hm : mode ?a = SCATTER |- _ =>
          destruct S as [E | [E | E]]; congruence
      end.
  - intros Hs Hz H7. apply Us.
    destruct (before_moves_frame key s) as ((_ & Bc & _) & _).
    cbv zeta in Bc.
    unfold all_scatter in *.
    rewrite Ez by congruence.
    rewrite before_moves_ghosts, Bz by assumption. exact Hs.
Qed.

(** The first iteration of a game: the enemies were created in
    [SCATTER] mode and are in it afterwards. *)
Lemma scatter_is_never_entered_witness :
  all_scatter (fst (after_tick None [] (game_with_walls cages))).
Proof.
  destruct (scatter_is_never_entered None [] (game_with_walls cages)
              (fst (after_tick None [] (game_with_walls cages))) [])
    as [_ H].
  - vm_compute. reflexivity.
  - apply H.
    + vm_compute. reflexivity.
    + vm_compute. reflexivity.
    + vm_compute. discriminate.
Defined.

(** ** Losing, winning and leaving *)

Lemma update_map_player s s' :
  update_map s = Ok s' ->
  p_direction (pacman s') = p_direction (pacman s)
  /\ current_anim_frame (pacman s') = current_anim_frame (pacman s)
  /\ (is_over (pacman s) = true -> is_over (pacman s') = true).
Proof.
  intros H.
  destruct (update_map_inv _ _ H) as (m & s1 & s2 & Ho & He & Hd & ->).
  destruct (eat_or_teleport_spec _ _ He)
    as (ch & _ & _ & (_ & _ & _ & Po & Pd & Pa) & _).
  destruct (draw_actors_frame _ _ Hd) as [m' ->].
  cbn [pacman set_game_map] in *.
  destruct (collide_player (set_game_map s1 m')) as [-> | ->];
    cbn [pacman set_game_map p_direction current_anim_frame is_over
         set_is_over];
    repeat split; congruence.
Qed.

Lemma tick_is_over key draws s s' draws' :
  tick key draws s = Ok (s', draws') ->
  is_over (pacman s) = true -> is_over (pacman s') = true.
Proof.
  intros H Hover.
  destruct (tick_inv _ _ _ _ _ H) as (s2 & He & Hu).
  destruct (before_moves_frame key s) as (_ & (_ & _ & _ & _ & Bo) & _).
  destruct (every_tenth_frame_spec _ _ _ _ He) as (_ & (_ & _ & _ & _ & Eo) & _).
  destruct (update_map_player _ _ Hu) as (_ & _ & Uo).
  apply Uo. cbv zeta in Bo. congruence.
Qed.

(** X13.  A loss is final: once [is_over] is set, it is set after every
    further run of the loop, whatever is pressed and wherever the
    enemies go. *)
Theorem loss_is_final keys : forall draws s s' draws',
  run keys draws s = Ok (s', draws') ->
  is_over (pacman s) = true ->
  is_over (pacman s') = true.
Proof.
  induction keys as [| key keys IH]; intros draws s s' draws' H Hover.
  - injection H as <- _. exact Hover.
  - cbn [run] in H. destruct (game_is_running s).
    + bind_inv H. destruct a as [s1 d1].
      apply (IH _ _ _ _ H). exact (tick_is_over _ _ _ _ _ E Hover).
    + injection H as <- _. exact Hover.
Qed.

(** Blinky, not frightened, on the player's cell: lost after the first
    iteration, and still lost 30 iterations later. *)
Lemma loss_is_final_witness :
  let s0 := game_with_walls cages in
  let caught := set_ghosts s0 (set_e_pos (ghost1 s0) (p_pos (pacman s0)))
                           (ghost2 s0) (ghost3 s0) (ghost4 s0) in
  let s1 := fst (after_tick None [] caught) in
  is_over (pacman s1) = true
  /\ is_over (pacman (fst (after_run (repeat None 30) [] s1))) = true.
Proof.
  cbv zeta.
  set (s0 := game_with_walls cages).
  set (caught := set_ghosts s0 (set_e_pos (ghost1 s0) (p_pos (pacman s0)))
                            (ghost2 s0) (ghost3 s0) (ghost4 s0)).
  assert (H1 : is_over (pacman (fst (after_tick None [] caught))) = true)
    by (vm_compute; reflexivity).
  split; [exact H1 |].
  apply (loss_is_final (repeat None 30) []
           (fst (after_tick None [] caught))
           (fst (after_run (repeat None 30) []
                           (fst (after_tick None [] caught))))
           []).
  - vm_compute. reflexivity.
  - exact H1.
Defined.

(** X14.  In a game started by [main] on a map whose pellets are worth
    less than [2^31] points, the score equals [max_score], which is the
    test of the win, exactly when the persistent layer holds no pellet
    and no power pellet any more. *)
Theorem won_when_layer_is_empty lines grid keys draws s0 s draws' :
  initial_game (Some lines) grid = Ok s0 ->
  points_left lines < 2 ^ 31 ->
  run keys draws s0 = Ok (s, draws') ->
  score (pacman s) = max_score (pacman s)
  <-> occurrences "." (game_vec s) = 0 /\ occurrences "@" (game_vec s) = 0.
Proof.
  intros Hinit Hfit Hrun.
  destruct (initial_game_spec _ _ _ Hinit Hfit) as (Hs0 & Hm0 & Hp0).
  destruct (run_keeps_account _ _ _ _ _ Hrun)
    as ((I0 & Isum & Imax) & _); try lia.
  unfold points_left in Isum.
  pose proof (occurrences_nonneg "." (game_vec s)).
  pose proof (occurrences_nonneg "@" (game_vec s)).
  lia.
Qed.

(** The map with one pellet above the player: after ten iterations the
    pellet is eaten, the layer is empty and the score is [max_score]. *)
Lemma won_when_layer_is_empty_witness :
  let names := repeat EmptyString 15 ++ ["                    ."%string] in
  let s0 := game_on names (WIDTH / 2, HEIGHT / 2) in
  let s := fst (after_run (repeat None 10) [] s0) in
  occurrences "." (game_vec s) = 0
  /\ score (pacman s) = max_score (pacman s).
Proof.
  cbv zeta.
  set (names := repeat EmptyString 15 ++ ["                    ."%string]).
  set (s0 := game_on names (WIDTH / 2, HEIGHT / 2)).
  assert (Hinit : initial_game (Some (map list_ascii_of_string names))
                    (repeat (repeat " " (Z.to_nat HEIGHT)) (Z.to_nat WIDTH))
                  = Ok s0) by (vm_compute; reflexivity).
  assert (Hfit : points_left (map list_ascii_of_string names) < 2 ^ 31)
    by (vm_compute; reflexivity).
  assert (Hrun : run (repeat None 10) [] s0
                 = Ok (fst (after_run (repeat None 10) [] s0), []))
    by (vm_compute; reflexivity).
  split; [vm_compute; reflexivity |].
  apply (won_when_layer_is_empty _ _ _ _ _ _ _ Hinit Hfit Hrun).
  split; vm_compute; reflexivity.
Defined.

Lemma tick_running key draws s s' draws' :
  tick key draws s = Ok (s', draws') ->
  game_is_running s'
  = match key with
    | Some k => if Ascii.eqb k "q" then false else game_is_running s
    | None => game_is_running s
    end.
Proof.
  intros H.
  destruct (tick_inv _ _ _ _ _ H) as (s2 & He & Hu).
  destruct (every_tenth_frame_secs _ _ _ _ He) as (_ & Er).
  destruct (update_map_effect _ _ Hu) as [(_ & _ & _ & _ & _ & Ur) _].
  assert (B : game_is_running (begin_frame s) = game_is_running s).
  { unfold begin_frame, map_ghosts. split_ifs; reflexivity. }
  rewrite Ur, Er. unfold before_moves, wrap_frame.
  destruct (frameCount (poll_input key (begin_frame s)) =? 60);
    cbn [game_is_running set_frameCount];
    rewrite !poll_input_running, B; reflexivity.
Qed.

(** X15.  The key [q] ends the loop at the end of the iteration that
    reads it: whatever the state, the keystrokes that follow a [q] are
    not read, and when that iteration returns the game is not running
    any more. *)
Theorem quit_ends_the_loop keys draws s :
  run (Some "q" :: keys) draws s = run [Some "q"] draws s
  /\ (forall s' draws',
        game_is_running s = true ->
        run [Some "q"] draws s = Ok (s', draws') ->
        tick (Some "q") draws s = Ok (s', draws')
        /\ game_is_running s' = false).
Proof.
  split.
  - cbn [run]. destruct (game_is_running s); [| reflexivity].
    destruct (tick (Some "q") draws s) as [[s1 d1] | e] eqn:E;
      [| reflexivity].
    cbn [bind].
    pose proof (tick_running _ _ _ _ _ E) as Hr. cbn in Hr.
    destruct keys as [| key keys]; [reflexivity |].
    cbn [run]. rewrite Hr. reflexivity.
  - intros s' draws' Hr H. cbn [run] in H. rewrite Hr in H.
    destruct (tick (Some "q") draws s) as [[s1 d1] | e] eqn:E;
      [| discriminate].
    cbn [bind] in H. injection H as <- <-.
    split; [reflexivity |]. exact (tick_running _ _ _ _ _ E).
Qed.

Lemma quit_ends_the_loop_witness :
  let s := game_with_walls cages in
  run [Some "q"; Some "w"; None] [] s = run [Some "q"] [] s
  /\ game_is_running (fst (after_tick (Some "q") [] s)) = false.
Proof.
  cbv zeta.
  destruct (quit_ends_the_loop [Some "w"; None] [] (game_with_walls cages))
    as [Heq Hq].
  split; [exact Heq |].
  assert (H1 : game_is_running (game_with_walls cages) = true)
    by (vm_compute; reflexivity).
  assert (H2 : run [Some "q"] [] (game_with_walls cages)
               = Ok (fst (after_tick (Some "q") [] (game_with_walls cages)),
                     []))
    by (vm_compute; reflexivity).
  exact (proj2 (Hq _ _ H1 H2)).
Defined.

(** ** Steering and the animation *)

Lemma player_move_keeps game_map p p' :
  player_move game_map p = Ok p' ->
  p_direction p' = p_direction p
  /\ current_anim_frame p' = current_anim_frame p.
Proof.
  unfold player_move. intros H.
  destruct (player_probe p) as [r c].
  bind_inv H. destruct (player_has_no_collision a);
    injection H as <-; split; reflexivity.
Qed.

Lemma move_actors_player draws s m draws' :
  move_actors draws s = Ok (m, draws') ->
  p_direction (pacman m) = p_direction (pacman s)
  /\ current_anim_frame (pacman m)
     = (if to_int (current_anim_frame (pacman s) + 1) =? 5 then 1
        else to_int (current_anim_frame (pacman s) + 1)).
Proof.
  unfold move_actors. intros H.
  bind_inv H.
  destruct (player_move_keeps _ _ _ E) as (Pd & Pa).
  bind_inv H. destruct a0 as [a1 d1].
  bind_inv H. destruct a0 as [b1 d2].
  bind_inv H. destruct a0 as [c1 d3].
  bind_inv H. destruct a0 as [e1 d4].
  injection H as <- _.
  cbn [pacman set_ghosts set_pacman current_anim_frame
       set_current_anim_frame].
  rewrite Pa.
  destruct (to_int (current_anim_frame (pacman s) + 1) =? 5);
    cbn [p_direction current_anim_frame set_current_anim_frame];
    split; congruence.
Qed.

Lemma every_tenth_frame_player draws s s2 draws' :
  every_tenth_frame draws s = Ok (s2, draws') ->
  p_direction (pacman s2) = p_direction (pacman s)
  /\ current_anim_frame (pacman s2)
     = (if Z.rem (frameCount s) 10 =? 0
        then if to_int (current_anim_frame (pacman s) + 1) =? 5 then 1
             else to_int (current_anim_frame (pacman s) + 1)
        else current_anim_frame (pacman s)).
Proof.
  unfold every_tenth_frame. intros H.
  destruct (Z.rem (frameCount s) 10 =? 0).
  - bind_inv H. destruct a as [m d]. injection H as <- _.
    destruct (advance_timers_frame m) as (_ & -> & _).
    exact (move_actors_player _ _ _ _ E).
  - injection H as <- _. split; reflexivity.
Qed.

Lemma poll_input_player key s :
  p_direction (pacman (poll_input key s))
  = (if won_or_lost s then p_direction (pacman s)
     else match key with
          | Some k => p_direction (pacman (steer k s))
          | None => p_direction (pacman s)
          end)
  /\ current_anim_frame (pacman (poll_input key s))
     = current_anim_frame (pacman s).
Proof.
  unfold poll_input, won_or_lost, quit_on_q, steer.
  destruct (score (pacman s) =? max_score (pacman s)); cbn [orb];
    [| destruct (is_over (pacman s))];
    destruct key as [k |]; split_ifs; cbn; split; reflexivity.
Qed.

Lemma before_moves_player key s :
  p_direction (pacman (before_moves key s))
  = (if won_or_lost s then p_direction (pacman s)
     else match key with
          | Some k => p_direction (pacman (steer k s))
          | None => p_direction (pacman s)
          end)
  /\ current_anim_frame (pacman (before_moves key s))
     = current_anim_frame (pacman s).
Proof.
  unfold before_moves.
  destruct (wrap_frame_frame (poll_input key (begin_frame s)))
    as (_ & _ & _ & -> & _).
  destruct (poll_input_player key (begin_frame s)) as (-> & ->).
  destruct (begin_frame_frame s) as (_ & _ & _ & Bp & _).
  unfold won_or_lost, steer. rewrite Bp.
  split; [| reflexivity].
  destruct key as [k |]; split_ifs;
    cbn [pacman set_pacman set_game_is_running p_direction set_p_direction];
    rewrite ?Bp; reflexivity.
Qed.

Lemma tick_player key draws s s' draws' :
  tick key draws s = Ok (s', draws') ->
  p_direction (pacman s') = p_direction (pacman (before_moves key s))
  /\ current_anim_frame (pacman s')
     = (if Z.rem (frameCount (before_moves key s)) 10 =? 0
        then if to_int (current_anim_frame (pacman s) + 1) =? 5 then 1
             else to_int (current_anim_frame (pacman s) + 1)
        else current_anim_frame (pacman s)).
Proof.
  intros H.
  destruct (tick_inv _ _ _ _ _ H) as (s2 & He & Hu).
  destruct (every_tenth_frame_player _ _ _ _ He) as (Ed & Ea).
  destruct (update_map_player _ _ Hu) as (Ud & Ua & _).
  destruct (before_moves_player key s) as (_ & Ba).
  rewrite Ud, Ua, Ed, Ea, Ba. split; reflexivity.
Qed.

(** X16.  What a keystroke does to the player's direction over one
    iteration.  Once the game is won or lost no key steers any more.
    Otherwise [W], [S], [A] and [D], in either case, select up, down,
    left and right; any other key, and no key, leave the direction as it
    was. *)
Theorem keys_steer key draws s s' draws' :
  tick key draws s = Ok (s', draws') ->
  (won_or_lost s = true -> p_direction (pacman s') = p_direction (pacman s))
  /\ (key = None -> p_direction (pacman s') = p_direction (pacman s))
  /\ (won_or_lost s = false ->
      forall k, key = Some k ->
        (In k ["W"; "w"] -> p_direction (pacman s') = UP)
        /\ (In k ["S"; "s"] -> p_direction (pacman s') = DOWN)
        /\ (In k ["A"; "a"] -> p_direction (pacman s') = LEFT)
        /\ (In k ["D"; "d"] -> p_direction (pacman s') = RIGHT)
        /\ (~ In k ["W"; "w"; "S"; "s"; "A"; "a"; "D"; "d"] ->
            p_direction (pacman s') = p_direction (pacman s))).
Proof.
  intros H.
  destruct (tick_player _ _ _ _ _ H) as (-> & _).
  destruct (before_moves_player key s) as (-> & _).
  split; [intros ->; reflexivity |].
  split; [intros ->; destruct (won_or_lost s); reflexivity |].
  intros -> k ->. unfold steer.
  repeat match goal with
         | |- _ /\ _ => split
         end.
  - intros [<- | [<- | []]]; reflexivity.
  - intros [<- | [<- | []]]; reflexivity.
  - intros [<- | [<- | []]]; reflexivity.
  - intros [<- | [<- | []]]; reflexivity.
  - intros Hk. cbn [In] in Hk.
    case_char k "W"; [exfalso; apply Hk; auto 10 |].
    case_char k "w"; [exfalso; apply Hk; auto 10 |].
    case_char k "S"; [exfalso; apply Hk; auto 10 |].
    case_char k "s"; [exfalso; apply Hk; auto 10 |].
    case_char k "A"; [exfalso; apply Hk; auto 10 |].
    case_char k "a"; [exfalso; apply Hk; auto 10 |].
    case_char k "D"; [exfalso; apply Hk; auto 10 |].
    case_char k "d"; [exfalso; apply Hk; auto 10 |].
    cbn [orb]. destruct (Ascii.eqb k "q"); reflexivity.
Qed.

(** On the map with one pellet the game is not won at the start, and
    [a] turns the player, who starts looking up, to the left. *)
Lemma keys_steer_witness :
  let names := repeat EmptyString 15 ++ ["                    ."%string] in
  let s0 := game_on names (WIDTH / 2, HEIGHT / 2) in
  p_direction (pacman s0) = UP
  /\ p_direction (pacman (fst (after_tick (Some "a") [] s0))) = LEFT.
Proof.
  cbv zeta.
  set (names := repeat EmptyString 15 ++ ["                    ."%string]).
  set (s0 := game_on names (WIDTH / 2, HEIGHT / 2)).
  assert (Ht : tick (Some "a") [] s0
               = Ok (fst (after_tick (Some "a") [] s0), []))
    by (vm_compute; reflexivity).
  assert (Hw : won_or_lost s0 = false) by (vm_compute; reflexivity).
  split; [vm_compute; reflexivity |].
  destruct (keys_steer _ _ _ _ _ Ht) as (_ & _ & Hk).
  destruct (Hk Hw "a" eq_refl) as (_ & _ & Ha & _).
  apply Ha. cbn [In]. auto.
Defined.

(** X17.  The animation frame of the player advances only in the
    iterations that end on a frame count divisible by ten, and then by
    one step of the cycle 1, 2, 3, 4, 1; it never leaves [1..4]. *)
Theorem animation_cadence key draws s s' draws' :
  tick key draws s = Ok (s', draws') ->
  0 <= frameCount s < 60 -> 0 <= secs s <= 7 ->
  1 <= current_anim_frame (pacman s) <= 4 ->
  current_anim_frame (pacman s')
  = (if frameCount s' mod 10 =? 0
     then current_anim_frame (pacman s) mod 4 + 1
     else current_anim_frame (pacman s))
  /\ 1 <= current_anim_frame (pacman s') <= 4.
Proof.
  intros H Hf Hs Ha.
  destruct (tick_player _ _ _ _ _ H) as (_ & ->).
  destruct (tick_clock _ _ _ _ _ H Hf Hs) as (-> & _).
  destruct (before_moves_frame key s) as (_ & _ & Bf).
  cbv zeta in Bf. rewrite Bf. rewrite !to_int_small by lia.
  assert (Hrem : Z.rem (if frameCount s + 1 =? 60 then 0
                        else frameCount s + 1) 10
                 = ((frameCount s + 1) mod 60) mod 10).
  { destruct (Z.eqb_spec (frameCount s + 1) 60) as [E | E].
    - rewrite E. reflexivity.
    - rewrite Z.rem_mod_nonneg by lia.
      rewrite (Z.mod_small (frameCount s + 1) 60) by lia. reflexivity. }
  rewrite Hrem.
  destruct (((frameCount s + 1) mod 60) mod 10 =? 0).
  - destruct (Z.eqb_spec (current_anim_frame (pacman s) + 1) 5) as [E | E].
    + replace (current_anim_frame (pacman s)) with 4 by lia.
      split; [reflexivity | lia].
    + rewrite Z.mod_small by lia. split; lia.
  - split; [reflexivity | lia].
Qed.

(** The tenth iteration of a new game moves the animation from frame 1
    to frame 2; the first leaves it at 1. *)
Lemma animation_cadence_witness :
  let s9 := fst (after_run (repeat None 9) [] (game_with_walls cages)) in
  current_anim_frame (pacman s9) = 1
  /\ current_anim_frame (pacman (fst (after_tick None [] s9))) = 2.
Proof.
  cbv zeta.
  assert (Ht : tick None []
                 (fst (after_run (repeat None 9) [] (game_with_walls cages)))
               = Ok (fst (after_tick None []
                            (fst (after_run (repeat None 9) []
                                    (game_with_walls cages)))), []))
    by (vm_compute; reflexivity).
  split; [vm_compute; reflexivity |].
  destruct (animation_cadence _ _ _ _ _ Ht) as (E & _).
  - vm_compute. split; [intros H; discriminate H | reflexivity].
  - vm_compute. split; intros H; discriminate H.
  - vm_compute. split; intros H; discriminate H.
  - rewrite E. vm_compute. reflexivity.
Defined.

(** ** Inky's target *)

Lemma inky_axis b i :
  0 <= b < 2 ^ 30 -> 0 <= i < 2 ^ 30 + 2 ->
  wrap64 (i + wrap64 (abs_int (to_int (to_int b - to_int i))))
  = Z.max b (2 * i - b).
Proof.
  intros Hb Hi.
  assert (HS : SIZE_MOD = 2 ^ 64) by reflexivity.
  unfold abs_int.
  rewrite (to_int_small b), (to_int_small i) by lia.
  rewrite (to_int_small (b - i)) by lia.
  rewrite (to_int_small (Z.abs (b - i))) by lia.
  rewrite (wrap64_small (Z.abs (b - i))) by lia.
  rewrite wrap64_small by lia. lia.
Qed.

(** X18.  Inky's chase target, for a player at least two cells from the
    top and the left edge and coordinates below [2^30].  With the pivot
    two cells from the player (for [UP] two up and two left), each
    coordinate of the target is the larger one of Blinky's coordinate
    and its mirror image in the pivot: the added offset is an absolute
    value.  So the target is never above or left of the pivot, and where
    Blinky is below or right of the pivot the target has Blinky's own
    coordinate. *)
Theorem inky_target_mirrors_one_way width height pacman blinky e :
  mode e = NORMAL -> character e = INKY ->
  2 <= fst (p_pos pacman) < 2 ^ 30 -> 2 <= snd (p_pos pacman) < 2 ^ 30 ->
  0 <= fst (e_pos blinky) < 2 ^ 30 -> 0 <= snd (e_pos blinky) < 2 ^ 30 ->
  let pivot := match p_direction pacman with
               | UP => (fst (p_pos pacman) - 2, snd (p_pos pacman) - 2)
               | DOWN => (fst (p_pos pacman), snd (p_pos pacman) + 2)
               | LEFT => (fst (p_pos pacman) - 2, snd (p_pos pacman))
               | RIGHT => (fst (p_pos pacman) + 2, snd (p_pos pacman))
               end in
  let t := target (calculate_target width height pacman blinky e) in
  fst t = Z.max (fst (e_pos blinky)) (2 * fst pivot - fst (e_pos blinky))
  /\ snd t = Z.max (snd (e_pos blinky)) (2 * snd pivot - snd (e_pos blinky))
  /\ fst pivot <= fst t /\ snd pivot <= snd t
  /\ (fst pivot <= fst (e_pos blinky) -> fst t = fst (e_pos blinky))
  /\ (snd pivot <= snd (e_pos blinky) -> snd t = snd (e_pos blinky)).
Proof.
  intros Hm Hc Hr Hcol Hbr Hbc. cbv zeta.
  assert (HS : SIZE_MOD = 2 ^ 64) by reflexivity.
  unfold calculate_target. rewrite Hm, Hc.
  destruct (p_pos pacman) as [pr pc]. cbn [fst snd] in *.
  destruct (p_direction pacman); cbn [target set_target fst snd];
    rewrite ?(wrap64_small (pr - 2)), ?(wrap64_small (pr + 2)),
      ?(wrap64_small (pc - 2)), ?(wrap64_small (pc + 2)) by lia;
    rewrite !inky_axis by lia; lia.
Qed.

(** Player on (16,20) looking right, Blinky on (20,25), below and right
    of the pivot (18,20): Inky's target is Blinky's own cell. *)
Lemma inky_target_mirrors_one_way_witness :
  let pacman := set_p_direction initial_pacman RIGHT in
  let blinky := set_e_pos (initial_ghost BLINKY) (20, 25) in
  let inky := set_mode (initial_ghost INKY) NORMAL in
  target (calculate_target HEIGHT WIDTH pacman blinky inky) = (20, 25).
Proof.
  cbv zeta.
  assert (Hr : 2 <= 16 < 2 ^ 30) by lia.
  assert (Hc : 2 <= 20 < 2 ^ 30) by lia.
  assert (Hbr : 0 <= 20 < 2 ^ 30) by lia.
  assert (Hbc : 0 <= 25 < 2 ^ 30) by lia.
  pose proof (inky_target_mirrors_one_way HEIGHT WIDTH
                (set_p_direction initial_pacman RIGHT)
                (set_e_pos (initial_ghost BLINKY) (20, 25))
                (set_mode (initial_ghost INKY) NORMAL)
                eq_refl eq_refl Hr Hc Hbr Hbc)
    as (_ & _ & _ & _ & Hf & Hs).
  cbn [p_direction set_p_direction initial_pacman fst snd p_pos e_pos
       set_e_pos] in Hf, Hs.
  rewrite (surjective_pairing (target _)).
  rewrite Hf, Hs by (vm_compute; intros H; discriminate H). reflexivity.
Defined.

(** ** After the win *)

Lemma run_after_win keys : forall draws s s' draws',
  run keys draws s = Ok (s', draws') ->
  0 <= score (pacman s) ->
  score (pacman s) + points_left (game_vec s) = max_score (pacman s) ->
  max_score (pacman s) < 2 ^ 31 ->
  score (pacman s) = max_score (pacman s) ->
  score (pacman s') = max_score (pacman s')
  /\ p_direction (pacman s') = p_direction (pacman s).
Proof.
  induction keys as [| key keys IH];
    intros draws s s' draws' H H0 Hsum Hmax Hwon.
  - injection H as <- _. split; [exact Hwon | reflexivity].
  - cbn [run] in H. destruct (game_is_running s).
    + bind_inv H. destruct a as [s1 d1].
      destruct (tick_keeps_account _ _ _ _ _ E H0 Hsum Hmax)
        as ((I0 & Isum & Imax) & Td & Ta & Ts).
      assert (Hwon1 : score (pacman s1) = max_score (pacman s1)).
      { unfold pellets_eaten, power_pellets_eaten, points_left in *.
        pose proof (occurrences_nonneg "." (game_vec s1)).
        pose proof (occurrences_nonneg "@" (game_vec s1)).
        lia. }
      destruct (IH _ _ _ _ H I0 Isum Imax Hwon1) as (J & Jd).
      split; [exact J |]. rewrite Jd.
      destruct (tick_player _ _ _ _ _ E) as (-> & _).
      destruct (before_moves_player key s) as (-> & _).
      unfold won_or_lost. rewrite Hwon, Z.eqb_refl. reflexivity.
    + injection H as <- _. split; [exact Hwon | reflexivity].
Qed.

(** X19.  A win is final.  In a game started by [main] on a map whose
    pellets are worth less than [2^31] points, once the score has
    reached [max_score] it equals [max_score] after every further run
    of the loop, and the player's direction does not change any more,
    whatever keys are pressed. *)
Theorem win_is_final lines grid keys1 draws s0 s draws1 keys2 s' draws2 :
  initial_game (Some lines) grid = Ok s0 ->
  points_left lines < 2 ^ 31 ->
  run keys1 draws s0 = Ok (s, draws1) ->
  score (pacman s) = max_score (pacman s) ->
  run keys2 draws1 s = Ok (s', draws2) ->
  score (pacman s') = max_score (pacman s')
  /\ p_direction (pacman s') = p_direction (pacman s).
Proof.
  intros Hinit Hfit Hrun1 Hwon Hrun2.
  destruct (initial_game_spec _ _ _ Hinit Hfit) as (Hs0 & Hm0 & Hp0).
  destruct (run_keeps_account _ _ _ _ _ Hrun1)
    as ((I0 & Isum & Imax) & _); try lia.
  exact (run_after_win _ _ _ _ _ Hrun2 I0 Isum Imax Hwon).
Qed.

(** On the map whose only pellet is above the player's start cell the
    game is won after ten iterations; five iterations with the key [a]
    pressed leave the score and the direction as they are. *)
Lemma win_is_final_witness :
  let names := repeat EmptyString 15 ++ ["                    ."%string] in
  let s0 := game_on names (WIDTH / 2, HEIGHT / 2) in
  let s := fst (after_run (repeat None 10) [] s0) in
  let s' := fst (after_run (repeat (Some "a") 5) [] s) in
  score (pacman s') = max_score (pacman s')
  /\ p_direction (pacman s') = p_direction (pacman s).
Proof.
  cbv zeta.
  refine (win_is_final
            (map list_ascii_of_string
               (repeat EmptyString 15 ++ ["                    ."%string]))
            (repeat (repeat " " (Z.to_nat HEIGHT)) (Z.to_nat WIDTH))
            (repeat None 10) []
            (game_on (repeat EmptyString 15 ++ ["                    ."%string])
                     (WIDTH / 2, HEIGHT / 2))
            _ [] (repeat (Some "a") 5) _ [] _ _ _ _ _).
  - vm_compute. reflexivity.
  - vm_compute. reflexivity.
  - vm_compute. reflexivity.
  - vm_compute. reflexivity.
  - vm_compute. reflexivity.
Defined.
